(** * napari-process-points-and-surfaces: the plugin's operations in Rocq

    A shallow embedding of [napari_process_points_and_surfaces/__init__.py].
    Every Python function of the module is one monadic definition below, in
    the order of the source.  The monad threads

      - the Python object store (numpy arrays, tuples and lists, by identity),
      - the hidden state of the wrapped libraries (random generators and the
        like), and
      - the log of the library algorithms that were invoked,

    and carries Python exceptions together with the place they come from.
    The algorithms of open3d, scikit-image and vedo are not part of the
    plugin: they are the fields of the [Library] record, left uninterpreted.
    The containers of those libraries (vectors of 3-vectors, meshes, point
    clouds) are plain data and are written out.

    The decorators [register_function], [register_action] and [time_slicer]
    belong to the host viewer; the definitions are the decorated bodies.

    What the model fixes:
      - arrays are numpy arrays of float64 or of Python-range integers, as
        the viewer hands them over; an argument of another kind than the
        annotated one (a face array of floats, say) raises the interpreter's
        or the library's error;
      - a library call reads the contents it is given and returns new
        library objects; it has no access to the object store;
      - the containers of open3d hold what open3d documents: doubles in
        [Vector3dVector], 32-bit signed integers in [Vector3iVector];
      - the example-data actions, which only load a data set and add a
        layer to the viewer, are not operations on geometric values and are
        left out, as are the functions that [__init__.py] imports from
        [_quantification] and [_surface_annotation_widget]. *)

From Stdlib Require Import ZArith Lia SpecFloat.
From stdpp Require Import base option list gmap strings.

(** ** Python floats: IEEE 754 binary64 *)

Module Float64.
Definition prec : Z := 53.
Definition emax : Z := 1024.

Definition t : Type := spec_float.

Definition valid (x : t) : bool := valid_binary prec emax x.

Definition add (x y : t) : t := SFadd prec emax x y.
Definition mul (x y : t) : t := SFmul prec emax x y.

(** [float(z)] for a Python int, rounded to nearest even. *)
Definition of_Z (z : Z) : t := binary_normalize prec emax z 0 false.

(** The literals [0.5] and [1.0]. *)
Definition half : t := S754_finite false 4503599627370496 (-53).
Definition one : t := S754_finite false 4503599627370496 (-52).

(** The integer part of a finite float, towards zero. *)
Definition trunc (s : bool) (m : positive) (e : Z) : Z :=
  let mag := Z.shiftl (Zpos m) e in
  if s then (- mag)%Z else mag.
End Float64.

Abbreviation float := Float64.t.

(** ** Exceptions *)

Inductive exn_kind : Set :=
| NotImplementedError
| IndexError
| TypeError
| ValueError
| OverflowError
| RuntimeError
| AttributeError.

(** Where an exception is raised: by a [raise] statement of the plugin, by
    the interpreter and numpy's array primitives (indexing, [int], [len]),
    or inside a call into open3d, scikit-image or vedo. *)
Inductive origin : Set := Local | Interp | Wrapped.

Inductive exn : Set := Exn (o : origin) (k : exn_kind).

Inductive result (A : Type) : Type :=
| Ok (a : A)
| Raise (e : exn).
Arguments Ok {A} a.
Arguments Raise {A} e.

Definition is_ok {A} (r : result A) : bool :=
  match r with Ok _ => true | Raise _ => false end.

Definition locally_raised {A} (r : result A) : bool :=
  match r with Raise (Exn Local _) => true | _ => false end.

#[global] Instance exn_kind_eq_dec : EqDecision exn_kind.
Proof. solve_decision. Defined.
#[global] Instance origin_eq_dec : EqDecision origin.
Proof. solve_decision. Defined.
#[global] Instance exn_eq_dec : EqDecision exn.
Proof. solve_decision. Defined.

(** ** numpy arrays *)

(** An array is its shape and its elements in row-major (C) order. *)
Record ndarray (A : Type) : Type := NDArray { shape : list nat; data : list A }.
Arguments NDArray {A} shape data.
Arguments shape {A} _.
Arguments data {A} _.

Definition size_of (sh : list nat) : nat := foldr Nat.mul 1 sh.

Definition wf_array {A} (a : ndarray A) : Prop :=
  length (data a) = size_of (shape a).

#[global] Instance wf_array_dec {A} (a : ndarray A) : Decision (wf_array a).
Proof. unfold wf_array. apply _. Defined.

(** [np.zeros(shape, dtype=int)], [np.zeros_like(a)], [np.ones(n)]. *)
Definition np_zeros (sh : list nat) : ndarray Z :=
  NDArray sh (replicate (size_of sh) 0%Z).

Definition np_ones (n : nat) : ndarray float :=
  NDArray [n] (replicate n Float64.one).

(** One integer index against an axis of length [n]: negative indices count
    from the end, anything outside [-n, n) is an [IndexError]. *)
Definition norm_index (n : nat) (i : Z) : result nat :=
  if bool_decide (0 ≤ i < Z.of_nat n)%Z then Ok (Z.to_nat i)
  else if bool_decide (- Z.of_nat n ≤ i < 0)%Z then Ok (Z.to_nat (i + Z.of_nat n))
  else Raise (Exn Interp IndexError).

(** The flat offset of [a[i0, i1, ...]] with as many indices as axes. *)
Fixpoint flat_index (sh : list nat) (idx : list Z) : result nat :=
  match sh, idx with
  | [], [] => Ok 0
  | n :: sh', i :: idx' =>
      match norm_index n i with
      | Ok j =>
          match flat_index sh' idx' with
          | Ok r => Ok (j * size_of sh' + r)
          | Raise e => Raise e
          end
      | Raise e => Raise e
      end
  | _, _ => Raise (Exn Interp IndexError)
  end.

(** [a[i0, i1, ...] = v] *)
Definition np_setitem {A} (a : ndarray A) (idx : list Z) (v : A) : result (ndarray A) :=
  match flat_index (shape a) idx with
  | Ok off => Ok (NDArray (shape a) (<[off := v]> (data a)))
  | Raise e => Raise e
  end.

(** [a[i0, i1, ...]] *)
Definition np_getitem {A} (a : ndarray A) (idx : list Z) : result A :=
  match flat_index (shape a) idx with
  | Ok off =>
      match data a !! off with
      | Some x => Ok x
      | None => Raise (Exn Interp IndexError)
      end
  | Raise e => Raise e
  end.

(** [int(x)] for a float: truncation towards zero; [nan] and the infinities
    cannot be converted. *)
Definition py_int (x : float) : result Z :=
  match x with
  | S754_zero _ => Ok 0%Z
  | S754_finite s m e => Ok (Float64.trunc s m e)
  | S754_nan => Raise (Exn Interp ValueError)
  | S754_infinity _ => Raise (Exn Interp OverflowError)
  end.

(** [p[k]] where [p] is item [i] of iterating over the array [a] (a view of
    [a[i]]), as a scalar ready for arithmetic and [int]: for a table of shape
    [(n, d)] this is the entry in row [i], column [k].  A 1-d array yields
    scalars, which cannot be indexed; with more axes [a[i][k]] is itself an
    array, which [int] accepts only when it has a single element. *)
Definition row_item {A} (a : ndarray A) (i k : nat) : result A :=
  match shape a with
  | [] => Raise (Exn Interp TypeError)
  | [_] => Raise (Exn Interp IndexError)
  | _ :: d :: sh' =>
      if bool_decide (k < d) then
        if bool_decide (size_of sh' = 1) then
          match data a !! (i * d + k) with
          | Some x => Ok x
          | None => Raise (Exn Interp IndexError)
          end
        else Raise (Exn Interp TypeError)
      else Raise (Exn Interp IndexError)
  end.

(** [len(a)] *)
Definition np_len {A} (a : ndarray A) : result nat :=
  match shape a with
  | [] => Raise (Exn Interp TypeError)
  | n :: _ => Ok n
  end.

(** [np.argmax(xs)] of a list of integers: the first position of the
    maximum; the empty list is a [ValueError]. *)
Fixpoint argmax_from (best_i : nat) (best : Z) (i : nat) (xs : list Z) : nat :=
  match xs with
  | [] => best_i
  | x :: xs' =>
      if bool_decide (best < x)%Z then argmax_from i x (S i) xs'
      else argmax_from best_i best (S i) xs'
  end.

Definition np_argmax (xs : list Z) : result nat :=
  match xs with
  | [] => Raise (Exn Interp ValueError)
  | x :: xs' => Ok (argmax_from 0 x 1 xs')
  end.

(** ** Python values and objects *)

Definition loc : Set := nat.

(** A Python number, as the numeric parameters of the operations are
    (annotated [float] or [int], with integer defaults). *)
Inductive number : Type :=
| PyInt (z : Z)
| PyFloat (f : float).

(** What a tuple or a list holds: a reference to an object, or a number. *)
Inductive pyval : Type :=
| VRef (l : loc)
| VNum (n : number).

Inductive pyobj : Type :=
| ArrF (a : ndarray float)      (* numpy array of float64 *)
| ArrI (a : ndarray Z)          (* numpy array of integers *)
| PyTuple (items : list pyval)
| PyList (items : list pyval).

(** [float(n)] as arithmetic with a float performs it: an int too large for
    a double is an [OverflowError]. *)
Definition num_to_float (n : number) : result float :=
  match n with
  | PyFloat f => Ok f
  | PyInt z =>
      match Float64.of_Z z with
      | S754_infinity _ => Raise (Exn Interp OverflowError)
      | f => Ok f
      end
  end.

(** [a - b] and [a + b] on Python numbers. *)
Definition num_binop (fz : Z → Z → Z) (ff : float → float → float)
    (a b : number) : result number :=
  match a, b with
  | PyInt x, PyInt y => Ok (PyInt (fz x y))
  | _, _ =>
      match num_to_float a, num_to_float b with
      | Ok x, Ok y => Ok (PyFloat (ff x y))
      | Raise e, _ => Raise e
      | _, Raise e => Raise e
      end
  end.

Definition num_sub : number → number → result number :=
  num_binop Z.sub (SFsub Float64.prec Float64.emax).
Definition num_add : number → number → result number :=
  num_binop Z.add Float64.add.

(** [n == 0] *)
Definition num_is_zero (n : number) : bool :=
  match n with
  | PyInt z => bool_decide (z = 0%Z)
  | PyFloat (S754_zero _) => true
  | PyFloat _ => false
  end.

(** ** The containers of open3d *)

(** [Eigen::Vector3d] and [Eigen::Vector3i]; the latter has 32-bit signed
    components. *)
Definition Vector3d : Type := float * float * float.
Definition Vector3i : Type := Z * Z * Z.

Definition wrap32 (z : Z) : Z := ((z + 2 ^ 31) mod 2 ^ 32 - 2 ^ 31)%Z.

Definition int32_range (z : Z) : Prop := (- 2 ^ 31 ≤ z < 2 ^ 31)%Z.

(** A [TriangleMesh] as far as the plugin reads and writes it, and a
    [PointCloud] with the normals that [estimate_normals] attaches. *)
Record TriangleMesh : Type :=
  { mesh_vertices : list Vector3d; mesh_triangles : list Vector3i }.

Record PointCloud : Type :=
  { pcd_points : list Vector3d; pcd_normals : list Vector3d }.

Record KDTreeSearchParamHybrid : Type :=
  { search_radius : float; search_max_nn : Z }.

(** The rows of an [(n, 3)] table and back. *)
Fixpoint chunk3 {A} (xs : list A) : list (A * A * A) :=
  match xs with
  | x :: y :: z :: xs' => (x, y, z) :: chunk3 xs'
  | _ => []
  end.

Definition flatten3 {A} (vs : list (A * A * A)) : list A :=
  flat_map (λ v, let '(x, y, z) := v in [x; y; z]) vs.

(** [np.asarray(v)] for a vector of 3-vectors: an [(n, 3)] array. *)
Definition array_of_vectors {A} (vs : list (A * A * A)) : ndarray A :=
  NDArray [length vs; 3] (flatten3 vs).

(** ** The wrapped libraries *)

(** A library call: it may consult and advance the library's own state and
    may raise. *)
Definition lib (S X : Type) : Type := S → (exn_kind + X) * S.

(** One region of [skimage.measure.regionprops]. *)
Record region : Type :=
  { region_label : Z; region_area : Z; region_centroid : list float }.

(** The library algorithms the plugin invokes. *)
Inductive algorithm : Set :=
| Alg_mesh_compute_convex_hull
| Alg_filter_smooth_simple
| Alg_filter_smooth_laplacian
| Alg_filter_smooth_taubin
| Alg_simplify_vertex_clustering
| Alg_simplify_quadric_decimation
| Alg_subdivide_loop
| Alg_sample_points_uniformly
| Alg_sample_points_poisson_disk
| Alg_voxel_down_sample
| Alg_pcd_compute_convex_hull
| Alg_create_from_point_cloud_alpha_shape
| Alg_estimate_normals
| Alg_create_from_point_cloud_ball_pivoting
| Alg_regionprops
| Alg_marching_cubes
| Alg_binarize
| Alg_fillHoles.

#[global] Instance algorithm_eq_dec : EqDecision algorithm.
Proof. solve_decision. Defined.

Record Library : Type := {
  LibState : Type;
  (* open3d.geometry.TriangleMesh *)
  mesh_compute_convex_hull : TriangleMesh → lib LibState (TriangleMesh * list Z);
  mesh_filter_smooth_simple : TriangleMesh → Z → lib LibState TriangleMesh;
  mesh_filter_smooth_laplacian : TriangleMesh → Z → lib LibState TriangleMesh;
  mesh_filter_smooth_taubin : TriangleMesh → Z → lib LibState TriangleMesh;
  mesh_simplify_vertex_clustering : TriangleMesh → number → lib LibState TriangleMesh;
  mesh_simplify_quadric_decimation : TriangleMesh → Z → lib LibState TriangleMesh;
  mesh_subdivide_loop : TriangleMesh → Z → lib LibState TriangleMesh;
  mesh_sample_points_uniformly : TriangleMesh → Z → lib LibState PointCloud;
  mesh_sample_points_poisson_disk : TriangleMesh → Z → number → lib LibState PointCloud;
  create_from_point_cloud_alpha_shape : PointCloud → number → lib LibState TriangleMesh;
  create_from_point_cloud_ball_pivoting : PointCloud → list float → lib LibState TriangleMesh;
  (* open3d.geometry.PointCloud *)
  pcd_voxel_down_sample : PointCloud → number → lib LibState PointCloud;
  pcd_compute_convex_hull : PointCloud → lib LibState (TriangleMesh * list Z);
  pcd_estimate_normals : PointCloud → KDTreeSearchParamHybrid → lib LibState PointCloud;
  (* skimage.measure *)
  regionprops : ndarray Z → lib LibState (list region);
  marching_cubes : ndarray bool → Z →
    lib LibState (ndarray float * ndarray Z * ndarray float * ndarray float);
  (* vedo *)
  VedoMesh : Type;
  VedoVolume : Type;
  vedo_Mesh : pyobj → pyobj → exn_kind + VedoMesh;
  vedo_points : VedoMesh → ndarray float;
  vedo_faces : VedoMesh → list (list Z);
  vedo_binarize : VedoMesh → lib LibState VedoVolume;
  vedo_tonumpy : VedoVolume → ndarray Z;
  vedo_fillHoles : VedoMesh → number → lib LibState VedoMesh;
  (* numpy: column-wise [np.min(a, axis=0).astype(int)] and [np.max], and
     assignment of a block to [a[l0:r0, l1:r1, l2:r2]] *)
  np_min_axis0_int : ndarray float → exn_kind + list Z;
  np_max_axis0_int : ndarray float → exn_kind + list Z;
  np_assign_block_I : ndarray Z → list (Z * Z) → ndarray Z → exn_kind + ndarray Z;
  np_assign_block_F : ndarray float → list (Z * Z) → ndarray Z → exn_kind + ndarray float;
}.

(** ** The monad of the plugin's code *)

Section Plugin.
Context (L : Library).

Record world : Type := World {
  heap : gmap loc pyobj;
  lib_state : LibState L;
  calls : list algorithm;
}.

Definition M (A : Type) : Type := world → result A * world.

Definition ret {A} (a : A) : M A := λ w, (Ok a, w).

Definition bind {A B} (m : M A) (k : A → M B) : M B :=
  λ w, match m w with
       | (Ok a, w') => k a w'
       | (Raise e, w') => (Raise e, w')
       end.

Definition throw {A} (e : exn) : M A := λ w, (Raise e, w).

Definition lift {A} (r : result A) : M A := λ w, (r, w).

(** The result of a library conversion or accessor that may raise. *)
Definition lift_lib {A} (r : exn_kind + A) : M A :=
  match r with
  | inr a => ret a
  | inl k => throw (Exn Wrapped k)
  end.

(** The result of a numpy reduction or block assignment that may raise. *)
Definition lift_np {A} (r : exn_kind + A) : M A :=
  match r with
  | inr a => ret a
  | inl k => throw (Exn Interp k)
  end.

(** A new object: it gets an identity no live object has. *)
Definition alloc (o : pyobj) : M loc :=
  λ w, let l := fresh (dom (heap w)) in
       (Ok l, World (<[l := o]> (heap w)) (lib_state w) (calls w)).

Definition load (l : loc) : M pyobj :=
  λ w, match heap w !! l with
       | Some o => (Ok o, w)
       | None => (Raise (Exn Interp RuntimeError), w)
       end.

(** In-place update of a live object. *)
Definition store (l : loc) (o : pyobj) : M unit :=
  λ w, match heap w !! l with
       | Some _ => (Ok tt, World (<[l := o]> (heap w)) (lib_state w) (calls w))
       | None => (Raise (Exn Interp RuntimeError), w)
       end.

(** One invocation of a library algorithm, recorded in the log. *)
Definition invoke {X} (a : algorithm) (f : lib (LibState L) X) : M X :=
  λ w, let '(r, s) := f (lib_state w) in
       let w' := World (heap w) s (calls w ++ [a]) in
       match r with
       | inr x => (Ok x, w')
       | inl k => (Raise (Exn Wrapped k), w')
       end.
End Plugin.

Arguments World {L} heap lib_state calls.
Arguments heap {L} w.
Arguments lib_state {L} w.
Arguments calls {L} w.
Arguments ret {L A} a.
Arguments bind {L A B} m k.
Arguments throw {L A} e.
Arguments lift {L A} r.
Arguments lift_lib {L A} r.
Arguments lift_np {L A} r.
Arguments alloc {L} o.
Arguments load {L} l.
Arguments store {L} l o.
Arguments invoke {L X} a f.

Notation "x <- c1 ;; c2" := (bind c1 (λ x, c2))
  (at level 100, c1 at next level, right associativity).
Notation "c1 ;; c2" := (bind c1 (λ _, c2))
  (at level 100, right associativity).

Section Operations.
Context {L : Library}.

(** [for i in range(start, start + n): body(i)] *)
Fixpoint for_range (body : nat → M L unit) (start n : nat) : M L unit :=
  match n with
  | 0 => ret tt
  | S n' => body start ;; for_range body (S start) n'
  end.

(** [[f(x) for x in xs]] *)
Fixpoint map_M {A B} (f : A → M L B) (xs : list A) : M L (list B) :=
  match xs with
  | [] => ret []
  | x :: xs' => y <- f x ;; ys <- map_M f xs' ;; ret (y :: ys)
  end.

(** [a.shape] *)
Definition get_shape (l : loc) : M L (list nat) :=
  o <- load l ;;
  match o with
  | ArrF a => ret (shape a)
  | ArrI a => ret (shape a)
  | _ => throw (Exn Interp AttributeError)
  end.

(** [data[k]] for a tuple or a list. *)
Definition seq_getitem (l : loc) (k : nat) : M L pyval :=
  o <- load l ;;
  match o with
  | PyTuple items | PyList items =>
      match items !! k with
      | Some v => ret v
      | None => throw (Exn Interp IndexError)
      end
  | _ => throw (Exn Interp TypeError)
  end.

(** *** Format conversion helpers *)

Definition to_vector_d (data : pyval) : M L (list Vector3d) :=
  match data with
  | VRef l =>
      o <- load l ;;
      match o with
      | ArrF (NDArray [_; 3] xs) => ret (chunk3 xs)
      | ArrI (NDArray [_; 3] xs) => ret (chunk3 (Float64.of_Z <$> xs))
      | _ => throw (Exn Wrapped RuntimeError)
      end
  | VNum _ => throw (Exn Wrapped TypeError)
  end.

Definition to_vector_i (data : pyval) : M L (list Vector3i) :=
  match data with
  | VRef l =>
      o <- load l ;;
      match o with
      | ArrI (NDArray [_; 3] xs) => ret (chunk3 (wrap32 <$> xs))
      | _ => throw (Exn Wrapped RuntimeError)
      end
  | VNum _ => throw (Exn Wrapped TypeError)
  end.

Definition to_vector_double (data : list number) : M L (list float) :=
  map_M (λ n, match num_to_float n with
              | Ok f => ret f
              | Raise _ => throw (Exn Wrapped TypeError)
              end) data.

(** [to_numpy] at the two element types it is used with. *)
Definition to_numpy_d (data : list Vector3d) : M L loc :=
  alloc (ArrF (array_of_vectors data)).

Definition to_numpy_i (data : list Vector3i) : M L loc :=
  alloc (ArrI (array_of_vectors data)).

Definition to_mesh (data : loc) : M L TriangleMesh :=
  d0 <- seq_getitem data 0 ;;
  vs <- to_vector_d d0 ;;
  d1 <- seq_getitem data 1 ;;
  ts <- to_vector_i d1 ;;
  ret {| mesh_vertices := vs; mesh_triangles := ts |}.

Definition to_point_cloud (data : loc) : M L PointCloud :=
  let pcd := {| pcd_points := []; pcd_normals := [] |} in
  ps <- to_vector_d (VRef data) ;;
  ret {| pcd_points := ps; pcd_normals := pcd_normals pcd |}.

Definition to_surface (mesh : TriangleMesh) : M L loc :=
  vertices <- to_numpy_d (mesh_vertices mesh) ;;
  faces <- to_numpy_i (mesh_triangles mesh) ;;
  sh <- get_shape vertices ;;
  n <- lift (match sh with n :: _ => Ok n | [] => Raise (Exn Interp IndexError) end) ;;
  values <- alloc (ArrF (np_ones n)) ;;
  alloc (PyTuple [VRef vertices; VRef faces; VRef values]).

(** *** Operations backed by open3d *)

Definition convex_hull (surface : loc) : M L loc :=
  mesh <- to_mesh surface ;;
  r <- invoke Alg_mesh_compute_convex_hull (mesh_compute_convex_hull L mesh) ;;
  let '(new_mesh, _) := r in
  to_surface new_mesh.

Definition filter_smooth_simple (surface : loc) (number_of_iterations : Z) : M L loc :=
  mesh_in <- to_mesh surface ;;
  mesh_out <- invoke Alg_filter_smooth_simple
                (mesh_filter_smooth_simple L mesh_in number_of_iterations) ;;
  to_surface mesh_out.

Definition filter_smooth_laplacian (surface : loc) (number_of_iterations : Z) : M L loc :=
  mesh_in <- to_mesh surface ;;
  mesh_out <- invoke Alg_filter_smooth_laplacian
                (mesh_filter_smooth_laplacian L mesh_in number_of_iterations) ;;
  to_surface mesh_out.

Definition filter_smooth_taubin (surface : loc) (number_of_iterations : Z) : M L loc :=
  mesh_in <- to_mesh surface ;;
  mesh_out <- invoke Alg_filter_smooth_taubin
                (mesh_filter_smooth_taubin L mesh_in number_of_iterations) ;;
  to_surface mesh_out.

Definition simplify_vertex_clustering (surface : loc) (voxel_size : number) : M L loc :=
  mesh_in <- to_mesh surface ;;
  mesh_out <- invoke Alg_simplify_vertex_clustering
                (mesh_simplify_vertex_clustering L mesh_in voxel_size) ;;
  to_surface mesh_out.

Definition simplify_quadric_decimation (surface : loc)
    (target_number_of_triangles : Z) : M L loc :=
  mesh_in <- to_mesh surface ;;
  mesh_out <- invoke Alg_simplify_quadric_decimation
                (mesh_simplify_quadric_decimation L mesh_in target_number_of_triangles) ;;
  to_surface mesh_out.

Definition subdivide_loop (surface : loc) (number_of_iterations : Z) : M L loc :=
  mesh_in <- to_mesh surface ;;
  mesh_out <- invoke Alg_subdivide_loop
                (mesh_subdivide_loop L mesh_in number_of_iterations) ;;
  to_surface mesh_out.

(** The integer-array argument of a scikit-image call. *)
Definition load_labels (l : loc) : M L (ndarray Z) :=
  o <- load l ;;
  match o with
  | ArrI a => ret a
  | _ => throw (Exn Wrapped TypeError)
  end.

Definition labels_to_centroids (labels_data : loc) : M L loc :=
  a <- load_labels labels_data ;;
  statistics <- invoke Alg_regionprops (regionprops L a) ;;
  centroids <- map_M (λ s, t <- alloc (PyTuple ((λ x, VNum (PyFloat x)) <$> region_centroid s)) ;;
                           ret (VRef t)) statistics ;;
  alloc (PyList centroids).

Definition sample_points_uniformly (surface : loc) (number_of_points : Z) : M L loc :=
  mesh_in <- to_mesh surface ;;
  point_cloud <- invoke Alg_sample_points_uniformly
                   (mesh_sample_points_uniformly L mesh_in number_of_points) ;;
  to_numpy_d (pcd_points point_cloud).

Definition sample_points_poisson_disk (surface : loc) (number_of_points : Z)
    (init_factor : number) : M L loc :=
  mesh_in <- to_mesh surface ;;
  point_cloud <- invoke Alg_sample_points_poisson_disk
                   (mesh_sample_points_poisson_disk L mesh_in number_of_points init_factor) ;;
  to_numpy_d (pcd_points point_cloud).

Definition voxel_down_sample (points_data : loc) (voxel_size : number) : M L loc :=
  point_cloud <- to_point_cloud points_data ;;
  new_point_cloud <- invoke Alg_voxel_down_sample
                       (pcd_voxel_down_sample L point_cloud voxel_size) ;;
  to_numpy_d (pcd_points new_point_cloud).

(** *** Points to labels *)

(** [len(points_data)]: the number of items [enumerate] yields. *)
Definition py_len (l : loc) : M L nat :=
  o <- load l ;;
  match o with
  | ArrF a => lift (np_len a)
  | ArrI a => lift (np_len a)
  | PyTuple items | PyList items => ret (length items)
  end.

(** [p[k]] for a point given as a tuple or list of numbers or as a 1-d
    array, converted as [p[k] + 0.5] converts it. *)
Definition coord_of_object (o : pyobj) (k : nat) : result float :=
  match o with
  | PyTuple xs | PyList xs =>
      match xs !! k with
      | Some (VNum n) => num_to_float n
      | Some (VRef _) => Raise (Exn Interp TypeError)
      | None => Raise (Exn Interp IndexError)
      end
  | ArrF (NDArray [_] xs) =>
      match xs !! k with
      | Some x => Ok x
      | None => Raise (Exn Interp IndexError)
      end
  | ArrI (NDArray [_] xs) =>
      match xs !! k with
      | Some z => Ok (Float64.of_Z z)
      | None => Raise (Exn Interp IndexError)
      end
  | _ => Raise (Exn Interp TypeError)
  end.

(** [p[k]] for the [i]-th item [p] of [points_data], read when it is used. *)
Definition point_item (points_data : loc) (i k : nat) : M L float :=
  o <- load points_data ;;
  match o with
  | ArrF a => lift (row_item a i k)
  | ArrI a => z <- lift (row_item a i k) ;; ret (Float64.of_Z z)
  | PyTuple items | PyList items =>
      match items !! i with
      | Some (VRef r) => p <- load r ;; lift (coord_of_object p k)
      | Some (VNum _) => throw (Exn Interp TypeError)
      | None => throw (Exn Interp IndexError)
      end
  end.

(** [int(p[k] + 0.5)] *)
Definition rounded (points_data : loc) (i k : nat) : M L Z :=
  x <- point_item points_data i k ;;
  lift (py_int (Float64.add x Float64.half)).

(** [a[i0, i1, ...] = v] on the integer array at [a]. *)
Definition setitem (a : loc) (idx : list Z) (v : Z) : M L unit :=
  o <- load a ;;
  match o with
  | ArrI arr => arr' <- lift (np_setitem arr idx v) ;; store a (ArrI arr')
  | ArrF arr => arr' <- lift (np_setitem arr idx (Float64.of_Z v)) ;; store a (ArrF arr')
  | _ => throw (Exn Interp TypeError)
  end.

(** The body of the loop of [points_to_labels], for the [i]-th point. *)
Definition mark_point (points_data labels_stack : loc) (i : nat) : M L unit :=
  shl <- get_shape labels_stack ;;
  if bool_decide (length shl = 3) then
    i0 <- rounded points_data i 0 ;;
    i1 <- rounded points_data i 1 ;;
    i2 <- rounded points_data i 2 ;;
    setitem labels_stack [i0; i1; i2] (Z.of_nat i + 1)
  else if bool_decide (length shl = 2) then
    i0 <- rounded points_data i 0 ;;
    i1 <- rounded points_data i 1 ;;
    setitem labels_stack [i0; i1] (Z.of_nat i + 1)
  else
    throw (Exn Local NotImplementedError).

Definition points_to_labels (points_data as_large_as_image : loc) : M L loc :=
  sh <- get_shape as_large_as_image ;;
  labels_stack <- alloc (ArrI (np_zeros sh)) ;;
  n <- py_len points_data ;;
  for_range (mark_point points_data labels_stack) 0 n ;;
  ret labels_stack.

(** *** Surface to binary volume (vedo) *)

Definition deref (v : pyval) : M L pyobj :=
  match v with
  | VRef l => load l
  | VNum _ => throw (Exn Wrapped TypeError)
  end.

(** [np.zeros_like(a)] *)
Definition zeros_like (l : loc) : M L loc :=
  o <- load l ;;
  match o with
  | ArrI a => alloc (ArrI (np_zeros (shape a)))
  | ArrF a => alloc (ArrF (NDArray (shape a) (replicate (size_of (shape a)) (S754_zero false))))
  | _ => throw (Exn Interp TypeError)
  end.

(** [b[k]] for the result of a column-wise reduction. *)
Definition bound (b : list Z) (k : nat) : M L Z :=
  match b !! k with
  | Some z => ret z
  | None => throw (Exn Interp IndexError)
  end.

Definition surface_to_binary_volume (surface as_large_as_image : loc) : M L loc :=
  s0 <- seq_getitem surface 0 ;;
  s1 <- seq_getitem surface 1 ;;
  o0 <- deref s0 ;;
  o1 <- deref s1 ;;
  my_mesh <- lift_lib (vedo_Mesh L o0 o1) ;;
  let vertices := vedo_points L my_mesh in
  boundaries_l <- lift_np (np_min_axis0_int L vertices) ;;
  boundaries_r <- lift_np (np_max_axis0_int L vertices) ;;
  binary_image <- zeros_like as_large_as_image ;;
  volume <- invoke Alg_binarize (vedo_binarize L my_mesh) ;;
  let block := vedo_tonumpy L volume in
  l0 <- bound boundaries_l 0 ;;
  r0 <- bound boundaries_r 0 ;;
  l1 <- bound boundaries_l 1 ;;
  r1 <- bound boundaries_r 1 ;;
  l2 <- bound boundaries_l 2 ;;
  r2 <- bound boundaries_r 2 ;;
  o <- load binary_image ;;
  match o with
  | ArrI a =>
      a' <- lift_np (np_assign_block_I L a [(l0, r0); (l1, r1); (l2, r2)] block) ;;
      store binary_image (ArrI a')
  | ArrF a =>
      a' <- lift_np (np_assign_block_F L a [(l0, r0); (l1, r1); (l2, r2)] block) ;;
      store binary_image (ArrF a')
  | _ => throw (Exn Interp TypeError)
  end ;;
  ret binary_image.

(** *** Surfaces from point clouds (open3d) *)

Definition points_to_convex_hull_surface (points_data : loc) : M L loc :=
  point_cloud <- to_point_cloud points_data ;;
  r <- invoke Alg_pcd_compute_convex_hull (pcd_compute_convex_hull L point_cloud) ;;
  let '(mesh_out, _) := r in
  to_surface mesh_out.

Definition surface_from_point_cloud_alpha_shape (points_data : loc) (alpha : number) : M L loc :=
  pcd <- to_point_cloud points_data ;;
  mesh <- invoke Alg_create_from_point_cloud_alpha_shape
            (create_from_point_cloud_alpha_shape L pcd alpha) ;;
  to_surface mesh.

(** The literal [0.1]. *)
Definition tenth : float := S754_finite false 7205759403792794 (-56).

Definition surface_from_point_cloud_ball_pivoting (points_data : loc)
    (radius delta_radius : number) : M L loc :=
  pcd <- to_point_cloud points_data ;;
  pcd <- invoke Alg_estimate_normals
           (pcd_estimate_normals L pcd {| search_radius := tenth; search_max_nn := 30 |}) ;;
  radii <- (if num_is_zero delta_radius then ret [radius]
            else
              lo <- lift (num_sub radius delta_radius) ;;
              hi <- lift (num_add radius delta_radius) ;;
              ret [lo; radius; hi]) ;;
  rs <- to_vector_double radii ;;
  mesh <- invoke Alg_create_from_point_cloud_ball_pivoting
            (create_from_point_cloud_ball_pivoting L pcd rs) ;;
  to_surface mesh.

(** *** Surfaces from labels (scikit-image) *)

(** [np.asarray(labels == label_id)] *)
Definition equals_label (o : pyobj) (label_id : Z) : ndarray bool :=
  match o with
  | ArrI a => NDArray (shape a) ((λ x, bool_decide (x = label_id)) <$> data a)
  | ArrF a =>
      NDArray (shape a) ((λ x, SFeqb x (Float64.of_Z label_id)) <$> data a)
  | _ => NDArray [] [false]
  end.

Definition label_to_surface (labels : loc) (label_id : Z) : M L loc :=
  o <- load labels ;;
  let binary := equals_label o label_id in
  r <- invoke Alg_marching_cubes (marching_cubes L binary 0) ;;
  let '(vertices, faces, normals, values) := r in
  v <- alloc (ArrF vertices) ;;
  f <- alloc (ArrI faces) ;;
  vals <- alloc (ArrF values) ;;
  alloc (PyTuple [VRef v; VRef f; VRef vals]).

Definition largest_label_to_surface (labels : loc) : M L loc :=
  a <- load_labels labels ;;
  statistics <- invoke Alg_regionprops (regionprops L a) ;;
  label_index <- lift (np_argmax (region_area <$> statistics)) ;;
  let labels_list := region_label <$> statistics in
  label <- lift (match labels_list !! label_index with
                 | Some x => Ok x
                 | None => Raise (Exn Interp IndexError)
                 end) ;;
  label_to_surface labels label.

(** *** Fill holes (vedo) *)

(** [np.asarray(rows)] for a list of lists of integers: a 2-d integer
    array when the rows have one length (a float array when there is no
    element at all), a [ValueError] when they are ragged. *)
Definition asarray_rows (rows : list (list Z)) : result pyobj :=
  match rows with
  | [] => Ok (ArrF (NDArray [0] []))
  | r :: _ =>
      if forallb (λ r', bool_decide (length r' = length r)) rows then
        match length r with
        | 0 => Ok (ArrF (NDArray [length rows; 0] []))
        | S _ => Ok (ArrI (NDArray [length rows; length r] (concat rows)))
        end
      else Raise (Exn Interp ValueError)
  end.

Definition fill_holes (surface : loc) (size_limit : number) : M L loc :=
  s0 <- seq_getitem surface 0 ;;
  s1 <- seq_getitem surface 1 ;;
  o0 <- deref s0 ;;
  o1 <- deref s1 ;;
  mesh <- lift_lib (vedo_Mesh L o0 o1) ;;
  mesh <- invoke Alg_fillHoles (vedo_fillHoles L mesh size_limit) ;;
  ps <- alloc (ArrF (vedo_points L mesh)) ;;
  fo <- lift (asarray_rows (vedo_faces L mesh)) ;;
  fs <- alloc fo ;;
  alloc (PyTuple [VRef ps; VRef fs]).

(** *** Isotropic scaling *)

Definition wrap64 (z : Z) : Z := ((z + 2 ^ 63) mod 2 ^ 64 - 2 ^ 63)%Z.

Definition num_mul : number → number → result number :=
  num_binop Z.mul Float64.mul.

(** [x * scale_factor]: element-wise on an array, giving a new array;
    repetition for a list or tuple and an integer; the product of two
    numbers. *)
Definition py_mul (x : pyval) (scale_factor : number) : M L pyval :=
  match x with
  | VRef l =>
      o <- load l ;;
      match o with
      | ArrF a =>
          s <- lift (num_to_float scale_factor) ;;
          r <- alloc (ArrF (NDArray (shape a) ((λ v, Float64.mul v s) <$> data a))) ;;
          ret (VRef r)
      | ArrI a =>
          match scale_factor with
          | PyFloat s =>
              r <- alloc (ArrF (NDArray (shape a)
                                  ((λ z, Float64.mul (Float64.of_Z z) s) <$> data a))) ;;
              ret (VRef r)
          | PyInt k =>
              if bool_decide (- 2 ^ 63 ≤ k < 2 ^ 63)%Z then
                r <- alloc (ArrI (NDArray (shape a) ((λ z, wrap64 (z * k)) <$> data a))) ;;
                ret (VRef r)
              else throw (Exn Interp OverflowError)
          end
      | PyList items =>
          match scale_factor with
          | PyInt k =>
              r <- alloc (PyList (concat (replicate (Z.to_nat k) items))) ;; ret (VRef r)
          | PyFloat _ => throw (Exn Interp TypeError)
          end
      | PyTuple items =>
          match scale_factor with
          | PyInt k =>
              r <- alloc (PyTuple (concat (replicate (Z.to_nat k) items))) ;; ret (VRef r)
          | PyFloat _ => throw (Exn Interp TypeError)
          end
      end
  | VNum n => m <- lift (num_mul n scale_factor) ;; ret (VNum m)
  end.

(** [list(surface)] and [tuple(result)] *)
Definition items_of (l : loc) : M L (list pyval) :=
  o <- load l ;;
  match o with
  | PyTuple items | PyList items => ret items
  | _ => throw (Exn Interp TypeError)
  end.

(** [result[k] = v] for a list; a tuple cannot be assigned to. *)
Definition seq_setitem (l : loc) (k : nat) (v : pyval) : M L unit :=
  o <- load l ;;
  match o with
  | PyList items =>
      if bool_decide (k < length items) then store l (PyList (<[k := v]> items))
      else throw (Exn Interp IndexError)
  | _ => throw (Exn Interp TypeError)
  end.

Definition isotropic_scale_surface (surface : loc) (scale_factor : number) : M L loc :=
  items <- items_of surface ;;
  result <- alloc (PyList items) ;;
  r0 <- seq_getitem result 0 ;;
  scaled <- py_mul r0 scale_factor ;;
  seq_setitem result 0 scaled ;;
  items <- items_of result ;;
  alloc (PyTuple items).

(** ** The operations of the plugin, with their arguments *)

Inductive operation : Type :=
| Convex_hull (surface : loc)
| Filter_smooth_simple (surface : loc) (number_of_iterations : Z)
| Filter_smooth_laplacian (surface : loc) (number_of_iterations : Z)
| Filter_smooth_taubin (surface : loc) (number_of_iterations : Z)
| Simplify_vertex_clustering (surface : loc) (voxel_size : number)
| Simplify_quadric_decimation (surface : loc) (target_number_of_triangles : Z)
| Subdivide_loop (surface : loc) (number_of_iterations : Z)
| Labels_to_centroids (labels_data : loc)
| Sample_points_uniformly (surface : loc) (number_of_points : Z)
| Sample_points_poisson_disk (surface : loc) (number_of_points : Z) (init_factor : number)
| Voxel_down_sample (points_data : loc) (voxel_size : number)
| Points_to_labels (points_data as_large_as_image : loc)
| Surface_to_binary_volume (surface as_large_as_image : loc)
| Points_to_convex_hull_surface (points_data : loc)
| Surface_from_point_cloud_alpha_shape (points_data : loc) (alpha : number)
| Surface_from_point_cloud_ball_pivoting (points_data : loc) (radius delta_radius : number)
| Label_to_surface (labels : loc) (label_id : Z)
| Largest_label_to_surface (labels : loc)
| Fill_holes (surface : loc) (size_limit : number)
| Isotropic_scale_surface (surface : loc) (scale_factor : number).

Definition exec (op : operation) : M L loc :=
  match op with
  | Convex_hull s => convex_hull s
  | Filter_smooth_simple s n => filter_smooth_simple s n
  | Filter_smooth_laplacian s n => filter_smooth_laplacian s n
  | Filter_smooth_taubin s n => filter_smooth_taubin s n
  | Simplify_vertex_clustering s v => simplify_vertex_clustering s v
  | Simplify_quadric_decimation s n => simplify_quadric_decimation s n
  | Subdivide_loop s n => subdivide_loop s n
  | Labels_to_centroids l => labels_to_centroids l
  | Sample_points_uniformly s n => sample_points_uniformly s n
  | Sample_points_poisson_disk s n f => sample_points_poisson_disk s n f
  | Voxel_down_sample p v => voxel_down_sample p v
  | Points_to_labels p i => points_to_labels p i
  | Surface_to_binary_volume s i => surface_to_binary_volume s i
  | Points_to_convex_hull_surface p => points_to_convex_hull_surface p
  | Surface_from_point_cloud_alpha_shape p a => surface_from_point_cloud_alpha_shape p a
  | Surface_from_point_cloud_ball_pivoting p r d => surface_from_point_cloud_ball_pivoting p r d
  | Label_to_surface l i => label_to_surface l i
  | Largest_label_to_surface l => largest_label_to_surface l
  | Fill_holes s z => fill_holes s z
  | Isotropic_scale_surface s f => isotropic_scale_surface s f
  end.
End Operations.

(** ** Reading the store without effects: the terms of the statements *)

(** [p[k]] for the [i]-th point of the object at [points_data] in the store
    [h]. *)
Definition coord_at (h : gmap loc pyobj) (points_data : loc) (i k : nat) : result float :=
  match h !! points_data with
  | Some (ArrF a) => row_item a i k
  | Some (ArrI a) =>
      match row_item a i k with
      | Ok z => Ok (Float64.of_Z z)
      | Raise e => Raise e
      end
  | Some (PyTuple items | PyList items) =>
      match items !! i with
      | Some (VRef r) =>
          match h !! r with
          | Some p => coord_of_object p k
          | None => Raise (Exn Interp RuntimeError)
          end
      | Some (VNum _) => Raise (Exn Interp TypeError)
      | None => Raise (Exn Interp IndexError)
      end
  | None => Raise (Exn Interp RuntimeError)
  end.

(** A coordinate rounded as the plugin rounds it: add 0.5, truncate. *)
Definition round_half (x : float) : result Z :=
  py_int (Float64.add x Float64.half).

(** The pixel of the [i]-th point in a volume of shape [sh]: its rounded
    coordinates along the axes of [sh] from axis [k] on, each taken as numpy
    takes an index (negative ones from the end); [None] when a coordinate is
    missing, not finite, or not an index of its axis. *)
Fixpoint pixel_from (h : gmap loc pyobj) (points_data : loc) (i k : nat)
    (sh : list nat) : option (list nat) :=
  match sh with
  | [] => Some []
  | n :: sh' =>
      match coord_at h points_data i k with
      | Ok x =>
          match round_half x with
          | Ok z =>
              match norm_index n z with
              | Ok j => cons j <$> pixel_from h points_data i (S k) sh'
              | Raise _ => None
              end
          | Raise _ => None
          end
      | Raise _ => None
      end
  end.

Definition pixel_of (h : gmap loc pyobj) (points_data : loc) (sh : list nat)
    (i : nat) : option (list nat) :=
  pixel_from h points_data i 0 sh.

(** The number of points and the shape of the reference image. *)
Definition points_len (h : gmap loc pyobj) (points_data : loc) : option nat :=
  match h !! points_data with
  | Some (ArrF a) => match np_len a with Ok n => Some n | Raise _ => None end
  | Some (ArrI a) => match np_len a with Ok n => Some n | Raise _ => None end
  | Some (PyTuple items | PyList items) => Some (length items)
  | None => None
  end.

Definition shape_at (h : gmap loc pyobj) (l : loc) : option (list nat) :=
  match h !! l with
  | Some (ArrF a) => Some (shape a)
  | Some (ArrI a) => Some (shape a)
  | _ => None
  end.

(** A multi-index within the bounds of a shape, and its row-major offset. *)
Definition in_bounds (c sh : list nat) : Prop := Forall2 lt c sh.

Fixpoint offset (sh c : list nat) : nat :=
  match sh, c with
  | _ :: sh', j :: c' => j * size_of sh' + offset sh' c'
  | _, _ => 0
  end.

(** The world with another store. *)
Definition set_heap {L : Library} (w : world L) (h : gmap loc pyobj) : world L :=
  World h (lib_state w) (calls w).

(** ** Properties of computations *)

Section Properties.
Context {L : Library}.

(** No exception of [m] comes from a [raise] statement of the plugin. *)
Definition no_local {A} (m : M L A) : Prop :=
  ∀ w, locally_raised (m w).1 = false.

(** [m] leaves every object of [S] as it is, and its result satisfies [Q]
    when it returns. *)
Definition keeps (S : gset loc) {A} (m : M L A) (Q : A → Prop) : Prop :=
  ∀ w, S ⊆ dom (heap w) →
    (∀ l, l ∈ S → heap (m w).2 !! l = heap w !! l) ∧
    match (m w).1 with
    | Ok a => Q a
    | Raise _ => True
    end.

(** When [m] returns, it has invoked exactly the algorithms [tr], in this
    order. *)
Definition emits {A} (m : M L A) (tr : list algorithm) : Prop :=
  ∀ w a w', m w = (Ok a, w') → calls w' = calls w ++ tr.
End Properties.

(** The library algorithms each operation invokes on a call that returns. *)
Definition algorithms_of (op : operation) : list algorithm :=
  match op with
  | Convex_hull _ => [Alg_mesh_compute_convex_hull]
  | Filter_smooth_simple _ _ => [Alg_filter_smooth_simple]
  | Filter_smooth_laplacian _ _ => [Alg_filter_smooth_laplacian]
  | Filter_smooth_taubin _ _ => [Alg_filter_smooth_taubin]
  | Simplify_vertex_clustering _ _ => [Alg_simplify_vertex_clustering]
  | Simplify_quadric_decimation _ _ => [Alg_simplify_quadric_decimation]
  | Subdivide_loop _ _ => [Alg_subdivide_loop]
  | Labels_to_centroids _ => [Alg_regionprops]
  | Sample_points_uniformly _ _ => [Alg_sample_points_uniformly]
  | Sample_points_poisson_disk _ _ _ => [Alg_sample_points_poisson_disk]
  | Voxel_down_sample _ _ => [Alg_voxel_down_sample]
  | Points_to_labels _ _ => []
  | Surface_to_binary_volume _ _ => [Alg_binarize]
  | Points_to_convex_hull_surface _ => [Alg_pcd_compute_convex_hull]
  | Surface_from_point_cloud_alpha_shape _ _ => [Alg_create_from_point_cloud_alpha_shape]
  | Surface_from_point_cloud_ball_pivoting _ _ _ =>
      [Alg_estimate_normals; Alg_create_from_point_cloud_ball_pivoting]
  | Label_to_surface _ _ => [Alg_marching_cubes]
  | Largest_label_to_surface _ => [Alg_regionprops; Alg_marching_cubes]
  | Fill_holes _ _ => [Alg_fillHoles]
  | Isotropic_scale_surface _ _ => []
  end.

(** ** Surfaces in the store *)

(** [len(vertices)] *)
Definition len_of (o : pyobj) : option nat :=
  match o with
  | ArrF a => head (shape a)
  | ArrI a => head (shape a)
  | _ => None
  end.

Definition index_below (n : nat) (z : Z) : bool :=
  bool_decide (0 ≤ z < Z.of_nat n)%Z.

(** The entries of a face array are indices of [n] vertices. *)
Definition faces_in_range (o : pyobj) (n : nat) : bool :=
  match o with
  | ArrI f => forallb (index_below n) (data f)
  | ArrF f => match data f with [] => true | _ => false end
  | _ => false
  end.

(** The arrays of the surface at [s]: its vertices, its faces, and its
    per-vertex values when it has a third component. *)
Definition surface_at (h : gmap loc pyobj) (s : loc) : option (pyobj * pyobj * option pyobj) :=
  match h !! s with
  | Some (PyTuple (VRef lv :: VRef lf :: rest))
  | Some (PyList (VRef lv :: VRef lf :: rest)) =>
      match h !! lv, h !! lf with
      | Some v, Some f =>
          Some (v, f, match rest with
                      | VRef lx :: _ => h !! lx
                      | _ => None
                      end)
      | _, _ => None
      end
  | _ => None
  end.

(** The invariant of the data model: the object at [s] is a surface
    [(vertices, faces, ...)] whose face indices are indices into its vertex
    sequence. *)
Definition valid_surface (h : gmap loc pyobj) (s : loc) : bool :=
  match surface_at h s with
  | Some (v, f, _) =>
      match len_of v with
      | Some n => faces_in_range f n
      | None => false
      end
  | None => false
  end.

(** The same invariant for a library mesh. *)
Definition mesh_valid (m : TriangleMesh) : bool :=
  let n := length (mesh_vertices m) in
  forallb (λ t, let '(a, b, c) := t in index_below n a && index_below n b && index_below n c)
          (mesh_triangles m).

(** The operations that take a surface and return a surface, with the
    surface they take. *)
Definition surface_input (op : operation) : option loc :=
  match op with
  | Convex_hull s
  | Filter_smooth_simple s _
  | Filter_smooth_laplacian s _
  | Filter_smooth_taubin s _
  | Simplify_vertex_clustering s _
  | Simplify_quadric_decimation s _
  | Subdivide_loop s _
  | Fill_holes s _
  | Isotropic_scale_surface s _ => Some s
  | _ => None
  end.

(** The same operation on another surface. *)
Definition with_surface (op : operation) (s : loc) : operation :=
  match op with
  | Convex_hull _ => Convex_hull s
  | Filter_smooth_simple _ n => Filter_smooth_simple s n
  | Filter_smooth_laplacian _ n => Filter_smooth_laplacian s n
  | Filter_smooth_taubin _ n => Filter_smooth_taubin s n
  | Simplify_vertex_clustering _ v => Simplify_vertex_clustering s v
  | Simplify_quadric_decimation _ n => Simplify_quadric_decimation s n
  | Subdivide_loop _ n => Subdivide_loop s n
  | Fill_holes _ z => Fill_holes s z
  | Isotropic_scale_surface _ f => Isotropic_scale_surface s f
  | _ => op
  end.

(** The surface-returning operations backed by open3d. *)
Definition open3d_surface_op (op : operation) : bool :=
  match op with
  | Convex_hull _
  | Filter_smooth_simple _ _
  | Filter_smooth_laplacian _ _
  | Filter_smooth_taubin _ _
  | Simplify_vertex_clustering _ _
  | Simplify_quadric_decimation _ _
  | Subdivide_loop _ _
  | Points_to_convex_hull_surface _
  | Surface_from_point_cloud_alpha_shape _ _
  | Surface_from_point_cloud_ball_pivoting _ _ _ => true
  | _ => false
  end.

(** The first two components of the sequence at [s]: vertices and faces. *)
Definition vertices_faces (h : gmap loc pyobj) (s : loc) : option (pyval * pyval) :=
  match h !! s with
  | Some (PyTuple (v :: f :: _)) | Some (PyList (v :: f :: _)) => Some (v, f)
  | _ => None
  end.

(** Every exception of [m] that comes from a [raise] statement of the plugin
    is of kind [k]. *)
Definition local_raises_are {L : Library} (k : exn_kind) {A} (m : M L A) : Prop :=
  ∀ w, locally_raised (m w).1 = true → (m w).1 = Raise (Exn Local k).

(** When [m] returns, its result and the world it leaves satisfy [Q]. *)
Definition returns {L : Library} {A} (m : M L A) (Q : A → world L → Prop) : Prop :=
  ∀ w a w', m w = (Ok a, w') → Q a w'.

Section LibraryAssumption.
Context (L : Library).

(** A mesh the plugin hands to the library for a valid surface. *)
Definition from_valid_surface (mesh : TriangleMesh) : Prop :=
  ∃ (w w1 : world L) (s : loc),
    valid_surface (heap w) s = true ∧ to_mesh s w = (Ok mesh, w1).

(** The meshes the open3d mesh algorithms may return for [mesh]. *)
Definition mesh_result (mesh out : TriangleMesh) : Prop :=
  ∃ (st st' : LibState L),
    (∃ x, mesh_compute_convex_hull L mesh st = (inr (out, x), st')) ∨
    (∃ n, mesh_filter_smooth_simple L mesh n st = (inr out, st')) ∨
    (∃ n, mesh_filter_smooth_laplacian L mesh n st = (inr out, st')) ∨
    (∃ n, mesh_filter_smooth_taubin L mesh n st = (inr out, st')) ∨
    (∃ v, mesh_simplify_vertex_clustering L mesh v st = (inr out, st')) ∨
    (∃ n, mesh_simplify_quadric_decimation L mesh n st = (inr out, st')) ∨
    (∃ n, mesh_subdivide_loop L mesh n st = (inr out, st')).

(** A vedo mesh the plugin builds for a valid surface. *)
Definition vedo_from_valid_surface (mesh : VedoMesh L) : Prop :=
  ∃ (h : gmap loc pyobj) (s : loc) (o0 o1 : pyobj) (x : option pyobj),
    valid_surface h s = true ∧
    surface_at h s = Some (o0, o1, x) ∧
    vedo_Mesh L o0 o1 = inr mesh.

Definition vedo_valid (mesh : VedoMesh L) : Prop :=
  ∃ n sh, shape (vedo_points L mesh) = n :: sh ∧
    Forall (Forall (λ z, index_below n z = true)) (vedo_faces L mesh).

(** What the invariant of surfaces asks of the libraries: on the mesh of a
    valid surface they return a valid mesh. *)
Definition keeps_meshes_valid : Prop :=
  (∀ mesh out, from_valid_surface mesh → mesh_result mesh out → mesh_valid out = true) ∧
  (∀ mesh out z st st', vedo_from_valid_surface mesh →
     vedo_fillHoles L mesh z st = (inr out, st') → vedo_valid out).
End LibraryAssumption.

(** ** A small library instance and small stores, for concrete runs *)

Module Demo.
(** A stand-in for the mesh algorithms: the vertices as they are, and the
    triangles that index them. *)
Definition tidy (m : TriangleMesh) : TriangleMesh :=
  let n := length (mesh_vertices m) in
  {| mesh_vertices := mesh_vertices m;
     mesh_triangles :=
       filter (λ t, Is_true (let '(a, b, c) := t in
                             index_below n a && index_below n b && index_below n c))
              (mesh_triangles m) |}.

Definition cloud_of (m : TriangleMesh) : PointCloud :=
  {| pcd_points := mesh_vertices m; pcd_normals := [] |}.

Definition hull_of (p : PointCloud) : TriangleMesh :=
  {| mesh_vertices := pcd_points p; mesh_triangles := [] |}.

(** One region per positive label, in order of first appearance, with the
    number of its pixels. *)
Fixpoint regions_of (seen : list Z) (xs : list Z) (all : list Z) : list region :=
  match xs with
  | [] => []
  | x :: xs' =>
      if bool_decide (0 < x)%Z && negb (bool_decide (x ∈ seen)) then
        {| region_label := x;
           region_area := Z.of_nat (length (filter (λ y, y = x) all));
           region_centroid := [] |} :: regions_of (x :: seen) xs' all
      else regions_of seen xs' all
  end.

(** A stand-in for vedo: a mesh is its two arrays. *)
Definition vedo_mesh_of (o0 o1 : pyobj) : exn_kind + (ndarray float * list (list Z)) :=
  match o0, o1 with
  | ArrF v, ArrI f => inr (v, (λ t, let '(a, b, c) := t in [a; b; c]) <$> chunk3 (data f))
  | _, _ => inl TypeError
  end.

Definition vedo_tidy (m : ndarray float * list (list Z)) : ndarray float * list (list Z) :=
  match shape m.1 with
  | n :: _ => (m.1, filter (λ r, Is_true (forallb (index_below n) r)) m.2)
  | [] => (NDArray [0; 3] [], [])
  end.

(** The library state is a counter that the samplers advance, as a
    pseudo-random generator would. *)
Definition library : Library := {|
  LibState := nat;
  mesh_compute_convex_hull := λ m s, (inr (tidy m, []), s);
  mesh_filter_smooth_simple := λ m _ s, (inr (tidy m), s);
  mesh_filter_smooth_laplacian := λ m _ s, (inr (tidy m), s);
  mesh_filter_smooth_taubin := λ m _ s, (inr (tidy m), s);
  mesh_simplify_vertex_clustering := λ m _ s, (inr (tidy m), s);
  mesh_simplify_quadric_decimation := λ m _ s, (inr (tidy m), s);
  mesh_subdivide_loop := λ m _ s, (inr (tidy m), s);
  mesh_sample_points_uniformly := λ m _ s, (inr (cloud_of m), S s);
  mesh_sample_points_poisson_disk := λ m _ _ s, (inr (cloud_of m), S s);
  create_from_point_cloud_alpha_shape := λ p _ s, (inr (hull_of p), s);
  create_from_point_cloud_ball_pivoting := λ p _ s, (inr (hull_of p), s);
  pcd_voxel_down_sample := λ p _ s, (inr p, s);
  pcd_compute_convex_hull := λ p s, (inr (hull_of p, []), s);
  pcd_estimate_normals := λ p _ s,
    (inr {| pcd_points := pcd_points p; pcd_normals := pcd_points p |}, s);
  regionprops := λ a s, (inr (regions_of [] (data a) (data a)), s);
  marching_cubes := λ a _ s,
    (inr (NDArray [0; 3] [], NDArray [0; 3] [], NDArray [0; 3] [], NDArray [0] []), s);
  VedoMesh := ndarray float * list (list Z);
  VedoVolume := unit;
  vedo_Mesh := vedo_mesh_of;
  vedo_points := fst;
  vedo_faces := snd;
  vedo_binarize := λ _ s, (inr tt, s);
  vedo_tonumpy := λ _, NDArray [0; 0; 0] [];
  vedo_fillHoles := λ m _ s, (inr (vedo_tidy m), s);
  np_min_axis0_int := λ _, inr [0; 0; 0]%Z;
  np_max_axis0_int := λ _, inr [0; 0; 0]%Z;
  np_assign_block_I := λ a _ _, inr a;
  np_assign_block_F := λ a _ _, inr a;
|}.

Definition fl (z : Z) : float := Float64.of_Z z.

(** A store with
    - 0: three 2-d points, (1, 0), (1, 1) and (1, 0) again;
    - 1: a 2 x 3 image; 2: a 1-d image of length 4;
    - 3: one 2-d point (5, 5), outside the image at 1;
    - 4: no points, an array of shape (0, 2);
    - 5, 6, 7: the vertices, faces and values of a triangle, and
      8: the surface made of them;
    - 9: a face array with an index that needs more than 32 bits, and
      10: a surface with these faces;
    - 11: 3-d points, the vertices at 5 again;
    - 12: a label image with labels 1 (twice) and 2 (three times). *)
Definition triangle_vertices : ndarray float :=
  NDArray [3; 3] [fl 0; fl 0; fl 0; fl 1; fl 0; fl 0; fl 0; fl 2; fl 0].

Definition triangle_faces : ndarray Z := NDArray [1; 3] [0; 1; 2]%Z.

Definition objects : list pyobj :=
  [ ArrF (NDArray [3; 2] [fl 1; fl 0; fl 1; fl 1; fl 1; fl 0]);
    ArrI (NDArray [2; 3] [7; 7; 7; 7; 7; 7]%Z);
    ArrI (NDArray [4] [0; 0; 0; 0]%Z);
    ArrF (NDArray [1; 2] [fl 5; fl 5]);
    ArrF (NDArray [0; 2] []);
    ArrF triangle_vertices;
    ArrI triangle_faces;
    ArrF (NDArray [3] [fl 4; fl 5; fl 6]);
    PyTuple [VRef 5; VRef 6; VRef 7];
    ArrI (NDArray [1; 3] [0; 1; 2147483648]%Z);
    PyTuple [VRef 5; VRef 9];
    ArrF triangle_vertices;
    ArrI (NDArray [2; 3] [1; 2; 2; 0; 1; 2]%Z) ].

Definition store : gmap loc pyobj := map_seq 0 objects.

Definition w : world library := World store (0 : LibState library) [].
End Demo.


(** ** Example data *)

Section ExampleData.
Context {L : Library}.

(** A call into a library that is not one of the algorithms on geometry:
    reading a file, building a stock shape.  It may use the library's state
    and may raise. *)
Definition call {X} (f : lib (LibState L) X) : M L X :=
  λ w, let '(r, s) := f (lib_state w) in
       let w' := World (heap w) s (calls w) in
       match r with
       | inr x => (Ok x, w')
       | inl k => (Raise (Exn Wrapped k), w')
       end.

(** [open3d.io.read_triangle_mesh], [vedo.shapes.Ellipsoid()], and
    [str(Path(__file__).parent / "data" / name)], the path of a file that
    comes with the package. *)
Variable read_triangle_mesh : string → lib (LibState L) TriangleMesh.
Variable Ellipsoid : lib (LibState L) (VedoMesh L).
Variable data_path : string → string.

Definition _knot_mesh : M L loc :=
  let data := data_path "knot.ply" in
  mesh <- call (read_triangle_mesh data) ;;
  s <- to_surface mesh ;;
  isotropic_scale_surface s (PyFloat tenth).

Definition _standford_bunny : M L loc :=
  let data := data_path "bun_zipper.ply" in
  mesh <- call (read_triangle_mesh data) ;;
  s <- to_surface mesh ;;
  isotropic_scale_surface s (PyInt 100).

Definition _vedo_ellipsoid : M L loc :=
  shape <- call Ellipsoid ;;
  ps <- alloc (ArrF (vedo_points L shape)) ;;
  fo <- lift (asarray_rows (vedo_faces L shape)) ;;
  fs <- alloc fo ;;
  s <- alloc (PyTuple [VRef ps; VRef fs]) ;;
  isotropic_scale_surface s (PyInt 10).
End ExampleData.

(** ** Further terms of the statements *)

(** The pixel, in a volume of shape [sh], of a point given by the list of
    its coordinates: each rounded and taken as an index of its axis;
    coordinates beyond the axes of [sh] are not looked at. *)
Fixpoint pixel_of_coords (sh : list nat) (xs : list float) : option (list nat) :=
  match sh, xs with
  | [], _ => Some []
  | n :: sh', x :: xs' =>
      match round_half x with
      | Ok z =>
          match norm_index n z with
          | Ok j => cons j <$> pixel_of_coords sh' xs'
          | Raise _ => None
          end
      | Raise _ => None
      end
  | _ :: _, [] => None
  end.

(** The point-returning operations backed by open3d. *)
Definition open3d_points_op (op : operation) : bool :=
  match op with
  | Sample_points_uniformly _ _
  | Sample_points_poisson_disk _ _ _
  | Voxel_down_sample _ _ => true
  | _ => false
  end.

(** What [np.zeros_like] takes from the reference image: whether its
    elements are integers, and its shape. *)
Definition template_at (h : gmap loc pyobj) (l : loc) : option (bool * list nat) :=
  match h !! l with
  | Some (ArrI a) => Some (true, shape a)
  | Some (ArrF a) => Some (false, shape a)
  | _ => None
  end.

(** Two computations, possibly over different libraries, that do the same
    on equal stores and leave the libraries alone. *)
Definition store_only {L1 L2 : Library} {A} (m1 : M L1 A) (m2 : M L2 A) : Prop :=
  ∀ w1 w2, heap w1 = heap w2 →
    (m1 w1).1 = (m2 w2).1 ∧
    heap (m1 w1).2 = heap (m2 w2).2 ∧
    (lib_state (m1 w1).2 = lib_state w1 ∧ calls (m1 w1).2 = calls w1) ∧
    (lib_state (m2 w2).2 = lib_state w2 ∧ calls (m2 w2).2 = calls w2).

(** Whether it returns or raises, [m] has invoked a prefix of the algorithms
    [tr], all of them when it returns; when it has invoked none the state of
    the libraries is as it was. *)
Definition emits_within {L : Library} {A} (m : M L A) (tr : list algorithm) : Prop :=
  ∀ w, ∃ p,
    p `prefix_of` tr ∧
    calls (m w).2 = calls w ++ p ∧
    (is_ok (m w).1 = true → p = tr) ∧
    (p = [] → lib_state (m w).2 = lib_state w).

(** ** Determinism *)

(** What the caller of an operation observes: the result, object or
    exception, and the store. *)
Definition outcome {L : Library} {A} (r : result A * world L) : result A * gmap loc pyobj :=
  (r.1, heap r.2).

(** [m] is deterministic: two calls on equal stores have the same outcome,
    whatever state the libraries are in. *)
Definition deterministic {L : Library} {A} (m : M L A) : Prop :=
  ∀ w1 w2 : world L, heap w1 = heap w2 → outcome (m w1) = outcome (m w2).

(** A library call whose result does not depend on the state of the
    library. *)
Definition state_blind {S X : Type} (f : lib S X) : Prop :=
  ∀ s1 s2 : S, (f s1).1 = (f s2).1.

(** The algorithm [a] of the library [L] returns the same for the same
    arguments in every state of the library. *)
Definition blind (L : Library) (a : algorithm) : Prop :=
  match a with
  | Alg_mesh_compute_convex_hull => ∀ m, state_blind (mesh_compute_convex_hull L m)
  | Alg_filter_smooth_simple => ∀ m n, state_blind (mesh_filter_smooth_simple L m n)
  | Alg_filter_smooth_laplacian => ∀ m n, state_blind (mesh_filter_smooth_laplacian L m n)
  | Alg_filter_smooth_taubin => ∀ m n, state_blind (mesh_filter_smooth_taubin L m n)
  | Alg_simplify_vertex_clustering =>
      ∀ m v, state_blind (mesh_simplify_vertex_clustering L m v)
  | Alg_simplify_quadric_decimation =>
      ∀ m n, state_blind (mesh_simplify_quadric_decimation L m n)
  | Alg_subdivide_loop => ∀ m n, state_blind (mesh_subdivide_loop L m n)
  | Alg_sample_points_uniformly => ∀ m n, state_blind (mesh_sample_points_uniformly L m n)
  | Alg_sample_points_poisson_disk =>
      ∀ m n f, state_blind (mesh_sample_points_poisson_disk L m n f)
  | Alg_voxel_down_sample => ∀ p v, state_blind (pcd_voxel_down_sample L p v)
  | Alg_pcd_compute_convex_hull => ∀ p, state_blind (pcd_compute_convex_hull L p)
  | Alg_create_from_point_cloud_alpha_shape =>
      ∀ p x, state_blind (create_from_point_cloud_alpha_shape L p x)
  | Alg_estimate_normals => ∀ p k, state_blind (pcd_estimate_normals L p k)
  | Alg_create_from_point_cloud_ball_pivoting =>
      ∀ p rs, state_blind (create_from_point_cloud_ball_pivoting L p rs)
  | Alg_regionprops => ∀ a, state_blind (regionprops L a)
  | Alg_marching_cubes => ∀ b z, state_blind (marching_cubes L b z)
  | Alg_binarize => ∀ m, state_blind (vedo_binarize L m)
  | Alg_fillHoles => ∀ m z, state_blind (vedo_fillHoles L m z)
  end.

(** ** A library whose samplers draw from its state *)

Module Dice.
(** The samplers return the vertices of the mesh, rotated by the state of
    the generator, and advance the generator. *)
Definition sample (m : TriangleMesh) : lib nat PointCloud :=
  λ s, (inr {| pcd_points := rotate s (mesh_vertices m); pcd_normals := [] |}, S s).

Definition library : Library := {|
  LibState := nat;
  mesh_compute_convex_hull := mesh_compute_convex_hull Demo.library;
  mesh_filter_smooth_simple := mesh_filter_smooth_simple Demo.library;
  mesh_filter_smooth_laplacian := mesh_filter_smooth_laplacian Demo.library;
  mesh_filter_smooth_taubin := mesh_filter_smooth_taubin Demo.library;
  mesh_simplify_vertex_clustering := mesh_simplify_vertex_clustering Demo.library;
  mesh_simplify_quadric_decimation := mesh_simplify_quadric_decimation Demo.library;
  mesh_subdivide_loop := mesh_subdivide_loop Demo.library;
  mesh_sample_points_uniformly := λ m _, sample m;
  mesh_sample_points_poisson_disk := λ m _ _, sample m;
  create_from_point_cloud_alpha_shape := create_from_point_cloud_alpha_shape Demo.library;
  create_from_point_cloud_ball_pivoting := create_from_point_cloud_ball_pivoting Demo.library;
  pcd_voxel_down_sample := pcd_voxel_down_sample Demo.library;
  pcd_compute_convex_hull := pcd_compute_convex_hull Demo.library;
  pcd_estimate_normals := pcd_estimate_normals Demo.library;
  regionprops := regionprops Demo.library;
  marching_cubes := marching_cubes Demo.library;
  VedoMesh := VedoMesh Demo.library;
  VedoVolume := VedoVolume Demo.library;
  vedo_Mesh := vedo_Mesh Demo.library;
  vedo_points := vedo_points Demo.library;
  vedo_faces := vedo_faces Demo.library;
  vedo_binarize := vedo_binarize Demo.library;
  vedo_tonumpy := vedo_tonumpy Demo.library;
  vedo_fillHoles := vedo_fillHoles Demo.library;
  np_min_axis0_int := np_min_axis0_int Demo.library;
  np_max_axis0_int := np_max_axis0_int Demo.library;
  np_assign_block_I := np_assign_block_I Demo.library;
  np_assign_block_F := np_assign_block_F Demo.library;
|}.

(** The first store, with the generator in state [s]. *)
Definition w (s : nat) : world library := World Demo.store (s : LibState library) [].
End Dice.

(** ** A surface with integer vertex coordinates *)

Module Grid.
(** A store with
    - 0: the vertices (2^62, 2^53 + 1, 3) of a one-vertex surface, as an
      array of integers;
    - 1: its one face; 2: the surface made of them. *)
Definition vertices : ndarray Z :=
  NDArray [1; 3] [4611686018427387904; 9007199254740993; 3]%Z.

Definition objects : list pyobj :=
  [ ArrI vertices;
    ArrI (NDArray [1; 3] [0; 0; 0]%Z);
    PyTuple [VRef 0; VRef 1] ].

Definition store : gmap loc pyobj := map_seq 0 objects.

Definition w : world Demo.library := World store (0 : LibState Demo.library) [].
End Grid.

(** ** A second small store, with a library whose regions have centroids *)

Module Scene.
(** A stand-in for the centroid of a region of a 2-d label image with
    [cols] columns: the position of its first pixel. *)
Definition first_pixel (cols : nat) (xs : list Z) (x : Z) : list float :=
  match list_find (λ y, y = x) xs with
  | Some (p, _) => [Demo.fl (Z.of_nat (p / cols)); Demo.fl (Z.of_nat (p mod cols))]
  | None => []
  end.

Definition regions_of (a : ndarray Z) : list region :=
  (λ r, {| region_label := region_label r;
           region_area := region_area r;
           region_centroid := first_pixel (default 1 (shape a !! 1)) (data a) (region_label r) |})
    <$> Demo.regions_of [] (data a) (data a).

Definition library : Library := {|
  LibState := nat;
  mesh_compute_convex_hull := mesh_compute_convex_hull Demo.library;
  mesh_filter_smooth_simple := mesh_filter_smooth_simple Demo.library;
  mesh_filter_smooth_laplacian := mesh_filter_smooth_laplacian Demo.library;
  mesh_filter_smooth_taubin := mesh_filter_smooth_taubin Demo.library;
  mesh_simplify_vertex_clustering := mesh_simplify_vertex_clustering Demo.library;
  mesh_simplify_quadric_decimation := mesh_simplify_quadric_decimation Demo.library;
  mesh_subdivide_loop := mesh_subdivide_loop Demo.library;
  mesh_sample_points_uniformly := mesh_sample_points_uniformly Demo.library;
  mesh_sample_points_poisson_disk := mesh_sample_points_poisson_disk Demo.library;
  create_from_point_cloud_alpha_shape := create_from_point_cloud_alpha_shape Demo.library;
  create_from_point_cloud_ball_pivoting := create_from_point_cloud_ball_pivoting Demo.library;
  pcd_voxel_down_sample := pcd_voxel_down_sample Demo.library;
  pcd_compute_convex_hull := pcd_compute_convex_hull Demo.library;
  pcd_estimate_normals := pcd_estimate_normals Demo.library;
  regionprops := λ a s, (inr (regions_of a), s);
  marching_cubes := marching_cubes Demo.library;
  VedoMesh := VedoMesh Demo.library;
  VedoVolume := VedoVolume Demo.library;
  vedo_Mesh := vedo_Mesh Demo.library;
  vedo_points := vedo_points Demo.library;
  vedo_faces := vedo_faces Demo.library;
  vedo_binarize := vedo_binarize Demo.library;
  vedo_tonumpy := vedo_tonumpy Demo.library;
  vedo_fillHoles := vedo_fillHoles Demo.library;
  np_min_axis0_int := np_min_axis0_int Demo.library;
  np_max_axis0_int := np_max_axis0_int Demo.library;
  np_assign_block_I := np_assign_block_I Demo.library;
  np_assign_block_F := np_assign_block_F Demo.library;
|}.

(** A file reader and a stock shape for the example data: every file holds
    one triangle, and the ellipsoid is a triangle as well. *)
Definition triangle : TriangleMesh :=
  {| mesh_vertices := chunk3 (data Demo.triangle_vertices);
     mesh_triangles := [(0, 1, 2)%Z] |}.

Definition read_triangle_mesh (path : string) : lib nat TriangleMesh :=
  λ s, (inr triangle, s).

Definition Ellipsoid : lib nat (ndarray float * list (list Z)) :=
  λ s, (inr (Demo.triangle_vertices, [[0; 1; 2]%Z]), s).

Definition data_path (name : string) : string := "data/" +:+ name.

(** A store with
    - 0: a 2 x 3 label image with labels 1 (twice) and 2 (three times);
      1: another one in which label 2 has the same pixels;
    - 2: a 2 x 2 label image whose labels 1 and 2 have two pixels each;
      3: a 2 x 2 label image without labels;
    - 4: three 2-d points, (1, 0), (1, 1) and (1, 0) again, as an array;
      5: the same points with a third coordinate, as a list of the tuples
      at 6, 7 and 8;
    - 9: a 2 x 3 image of floats;
    - 10: the faces of one triangle, and 11: a surface with the 2-d points
      at 4 for vertices;
    - 12: the vertices of a triangle, 13: the surface of 12 and 10, without
      values, 14: values, and 15: the surface of 12 and 10 with the values
      at 14. *)
Definition point (x y : Z) : pyobj :=
  PyTuple [VNum (PyInt x); VNum (PyInt y); VNum (PyFloat (Demo.fl 9))].

Definition objects : list pyobj :=
  [ ArrI (NDArray [2; 3] [1; 2; 2; 0; 1; 2]%Z);
    ArrI (NDArray [2; 3] [5; 2; 2; 9; 0; 2]%Z);
    ArrI (NDArray [2; 2] [1; 2; 2; 1]%Z);
    ArrI (NDArray [2; 2] [0; 0; 0; 0]%Z);
    ArrF (NDArray [3; 2] [Demo.fl 1; Demo.fl 0; Demo.fl 1; Demo.fl 1; Demo.fl 1; Demo.fl 0]);
    PyList [VRef 6; VRef 7; VRef 8];
    point 1 0;
    point 1 1;
    point 1 0;
    ArrF (NDArray [2; 3] (replicate 6 (Demo.fl 3)));
    ArrI Demo.triangle_faces;
    PyTuple [VRef 4; VRef 10];
    ArrF Demo.triangle_vertices;
    PyTuple [VRef 12; VRef 10];
    ArrF (NDArray [3] [Demo.fl 4; Demo.fl 5; Demo.fl 6]);
    PyTuple [VRef 12; VRef 10; VRef 14] ].

Definition store : gmap loc pyobj := map_seq 0 objects.

Definition w : world library := World store (0 : LibState library) [].
End Scene.

(** ** Basic facts about arrays and indices *)

(** The literals are binary64 numbers. *)
Example literals_valid :
  Float64.valid Float64.half = true ∧ Float64.valid Float64.one = true ∧
  Float64.valid tenth = true.
Proof. by vm_compute. Qed.

(** [int(x + 0.5)] at -2.0, 2.5 and 0.49999999999999994 (whose sum with
    0.5 rounds up to 1.0), and at [nan]. *)
Example round_half_examples :
  round_half (Float64.of_Z (-2)) = Ok (-1)%Z ∧
  round_half (S754_finite false 5629499534213120 (-51)) = Ok 3%Z ∧
  round_half (S754_finite false 9007199254740991 (-54)) = Ok 1%Z ∧
  round_half S754_nan = Raise (Exn Interp ValueError).
Proof. by vm_compute. Qed.

(** Indices against an axis of length 5. *)
Example norm_index_examples :
  norm_index 5 4 = Ok 4 ∧ norm_index 5 (-1) = Ok 4 ∧ norm_index 5 (-5) = Ok 0 ∧
  norm_index 5 5 = Raise (Exn Interp IndexError) ∧
  norm_index 5 (-6) = Raise (Exn Interp IndexError).
Proof. by vm_compute. Qed.

Lemma norm_index_lt n i j : norm_index n i = Ok j → j < n.
Proof.
  unfold norm_index. repeat case_bool_decide; intros [= <-]; lia.
Qed.

Lemma norm_index_of_nat n j : j < n → norm_index n (Z.of_nat j) = Ok j.
Proof.
  intros Hj. unfold norm_index. rewrite bool_decide_true by lia.
  by rewrite Nat2Z.id.
Qed.

Lemma offset_lt sh c : in_bounds c sh → offset sh c < size_of sh.
Proof.
  intros H. induction H as [|j n c sh Hj _ IH]; simpl; [lia|].
  change (foldr Nat.mul 1 sh) with (size_of sh). nia.
Qed.

Lemma offset_inj sh c c' :
  in_bounds c sh → in_bounds c' sh → offset sh c = offset sh c' → c = c'.
Proof.
  intros H. revert c'. induction H as [|j n c sh Hj Hc IH]; intros c' Hc' Heq.
  - by inversion Hc'.
  - inversion Hc' as [|j' n' c'' sh' Hj' Hc'']; subst. simpl in Heq.
    pose proof (offset_lt _ _ Hc). pose proof (offset_lt _ _ Hc'').
    assert (j = j') as -> by nia.
    f_equal. apply IH; [done|lia].
Qed.

Lemma flat_index_of_nat sh c :
  in_bounds c sh → flat_index sh (Z.of_nat <$> c) = Ok (offset sh c).
Proof.
  intros H. induction H as [|j n c sh Hj _ IH]; [done|].
  rewrite fmap_cons. cbn [flat_index].
  by rewrite norm_index_of_nat, IH.
Qed.

Lemma pixel_from_in_bounds h lp i k sh c :
  pixel_from h lp i k sh = Some c → in_bounds c sh.
Proof.
  revert k c. induction sh as [|n sh IH]; intros k c; simpl.
  - intros [= <-]. constructor.
  - destruct (coord_at h lp i k) as [x|]; [|done].
    destruct (round_half x) as [z|]; [|done].
    destruct (norm_index n z) as [j|] eqn:Hj; [|done].
    destruct (pixel_from h lp i (S k) sh) as [c'|] eqn:Hc; [|done].
    simpl. intros [= <-]. constructor; [by eapply norm_index_lt | by eapply IH].
Qed.

(** ** Running the monad *)

Section Run.
Context {L : Library}.
Implicit Types (w : world L) (h : gmap loc pyobj).

Lemma point_item_run lp i k w :
  point_item lp i k w = (coord_at (heap w) lp i k, w).
Proof.
  unfold point_item, coord_at, bind, load, lift, ret, throw.
  destruct (heap w !! lp) as [[a|a|items|items]|]; try done.
  - by destruct (row_item a i k).
  - destruct (items !! i) as [[r|]|]; try done. by destruct (heap w !! r).
  - destruct (items !! i) as [[r|]|]; try done. by destruct (heap w !! r).
Qed.

Lemma rounded_run lp i k w :
  rounded lp i k w =
    (match coord_at (heap w) lp i k with
     | Ok x => round_half x
     | Raise e => Raise e
     end, w).
Proof.
  unfold rounded, bind. rewrite point_item_run.
  by destruct (coord_at (heap w) lp i k).
Qed.

Lemma coord_at_insert h l o lp i k x :
  h !! l = None → coord_at h lp i k = Ok x →
  coord_at (<[l := o]> h) lp i k = Ok x.
Proof.
  intros Hl. unfold coord_at.
  destruct (h !! lp) as [p|] eqn:Hp; [|done].
  rewrite lookup_insert_ne by congruence. rewrite Hp.
  destruct p as [a|a|items|items]; try done;
    (destruct (items !! i) as [[r|]|]; try done;
     destruct (h !! r) as [q|] eqn:Hr; [|done];
     rewrite lookup_insert_ne by congruence; by rewrite Hr).
Qed.

Lemma pixel_from_insert h l o lp i k sh c :
  h !! l = None → pixel_from h lp i k sh = Some c →
  pixel_from (<[l := o]> h) lp i k sh = Some c.
Proof.
  intros Hl. revert k c. induction sh as [|n sh IH]; intros k c; simpl; [done|].
  destruct (coord_at h lp i k) as [x|] eqn:Hx; [|done].
  rewrite (coord_at_insert _ _ _ _ _ _ _ Hl Hx).
  destruct (round_half x) as [z|]; [|done].
  destruct (norm_index n z) as [j|]; [|done].
  destruct (pixel_from h lp i (S k) sh) as [c'|] eqn:Hc; [|done].
  by rewrite (IH _ _ Hc).
Qed.

Lemma mark_point_run h l lp sh buf i c w :
  h !! l = None →
  heap w = <[l := ArrI (NDArray sh buf)]> h →
  length sh = 2 ∨ length sh = 3 →
  pixel_of h lp sh i = Some c →
  mark_point lp l i w =
    (Ok tt, set_heap w (<[l := ArrI (NDArray sh (<[offset sh c := (Z.of_nat i + 1)%Z]> buf))]> h)).
Proof.
  intros Hl Hw Hsh Hc.
  pose proof (pixel_from_insert _ _ (ArrI (NDArray sh buf)) _ _ _ _ _ Hl Hc) as Hc'.
  rewrite <- Hw in Hc'. clear Hc.
  cbv [mark_point bind get_shape load ret throw]. rewrite Hw, lookup_insert_eq. simpl.
  destruct sh as [|n0 [|n1 [|n2 [|]]]]; simpl in Hsh; try lia; simpl.
  - rewrite !rounded_run. simpl in Hc'.
    destruct (coord_at (heap w) lp i 0) as [x0|]; [|done].
    destruct (round_half x0) as [z0|]; [|done].
    destruct (norm_index n0 z0) as [j0|] eqn:Hj0; [|done].
    destruct (coord_at (heap w) lp i 1) as [x1|]; [|done].
    destruct (round_half x1) as [z1|]; [|done].
    destruct (norm_index n1 z1) as [j1|] eqn:Hj1; [|done].
    simpl in Hc'. injection Hc' as <-.
    cbv [setitem bind load lift store np_setitem]. rewrite Hw, lookup_insert_eq. simpl.
    rewrite Hj0, Hj1. simpl. rewrite Hw, lookup_insert_eq.
    unfold set_heap. by rewrite insert_insert_eq.
  - rewrite !rounded_run. simpl in Hc'.
    destruct (coord_at (heap w) lp i 0) as [x0|]; [|done].
    destruct (round_half x0) as [z0|]; [|done].
    destruct (norm_index n0 z0) as [j0|] eqn:Hj0; [|done].
    destruct (coord_at (heap w) lp i 1) as [x1|]; [|done].
    destruct (round_half x1) as [z1|]; [|done].
    destruct (norm_index n1 z1) as [j1|] eqn:Hj1; [|done].
    destruct (coord_at (heap w) lp i 2) as [x2|]; [|done].
    destruct (round_half x2) as [z2|]; [|done].
    destruct (norm_index n2 z2) as [j2|] eqn:Hj2; [|done].
    simpl in Hc'. injection Hc' as <-.
    cbv [setitem bind load lift store np_setitem]. rewrite Hw, lookup_insert_eq. simpl.
    rewrite Hj0, Hj1, Hj2. simpl. rewrite Hw, lookup_insert_eq.
    unfold set_heap. by rewrite insert_insert_eq.
Qed.

Lemma for_range_mark h l lp sh :
  h !! l = None →
  length sh = 2 ∨ length sh = 3 →
  ∀ m start buf w,
    heap w = <[l := ArrI (NDArray sh buf)]> h →
    length buf = size_of sh →
    (∀ i, start ≤ i < start + m → is_Some (pixel_of h lp sh i)) →
    ∃ buf',
      for_range (mark_point lp l) start m w =
        (Ok tt, set_heap w (<[l := ArrI (NDArray sh buf')]> h)) ∧
      length buf' = size_of sh ∧
      ∀ c, in_bounds c sh →
        (∀ i, start ≤ i < start + m → pixel_of h lp sh i = Some c →
           (∀ j, i < j < start + m → pixel_of h lp sh j ≠ Some c) →
           buf' !! offset sh c = Some (Z.of_nat i + 1)%Z) ∧
        ((∀ i, start ≤ i < start + m → pixel_of h lp sh i ≠ Some c) →
           buf' !! offset sh c = buf !! offset sh c).
Proof.
  intros Hl Hsh m. induction m as [|m IH]; intros start buf w Hw Hlen Hpix.
  - exists buf. split; [|split; [done|]].
    + simpl. unfold ret, set_heap. rewrite <- Hw. by destruct w.
    + intros c _. split; [intros i ?; lia | done].
  - destruct (Hpix start ltac:(lia)) as [c0 Hc0].
    pose proof (mark_point_run _ _ _ _ _ _ _ _ Hl Hw Hsh Hc0) as Hstep.
    set (buf1 := <[offset sh c0 := (Z.of_nat start + 1)%Z]> buf) in *.
    destruct (IH (S start) buf1
                (set_heap w (<[l := ArrI (NDArray sh buf1)]> h)))
      as (buf' & Hrun & Hlen' & Hspec).
    { done. }
    { unfold buf1. by rewrite length_insert. }
    { intros i Hi. apply Hpix. lia. }
    exists buf'. split; [|split; [done|]].
    + simpl. unfold bind. rewrite Hstep. rewrite Hrun. done.
    + intros c Hc. destruct (Hspec c Hc) as [Hlast Hnone].
      pose proof (pixel_from_in_bounds _ _ _ _ _ _ Hc0) as Hc0b.
      split.
      * intros i Hi Hpi Hlater.
        destruct (decide (i = start)) as [->|Hne].
        -- rewrite Hnone.
           ++ rewrite Hpi in Hc0. injection Hc0 as ->.
              unfold buf1. apply list_lookup_insert_eq.
              rewrite Hlen. by apply offset_lt.
           ++ intros j Hj. apply Hlater. lia.
        -- apply Hlast; [lia|done|]. intros j Hj. apply Hlater. lia.
      * intros Hno. rewrite Hnone.
        -- unfold buf1. apply list_lookup_insert_ne.
           intros Heq. apply (Hno start ltac:(lia)).
           rewrite Hc0. f_equal. by apply (offset_inj sh).
        -- intros i Hi. apply Hno. lia.
Qed.

Lemma get_shape_run l w :
  get_shape l w =
    (match heap w !! l with
     | Some (ArrF a) => Ok (shape a)
     | Some (ArrI a) => Ok (shape a)
     | Some _ => Raise (Exn Interp AttributeError)
     | None => Raise (Exn Interp RuntimeError)
     end, w).
Proof.
  cbv [get_shape bind load ret throw].
  by destruct (heap w !! l) as [[]|].
Qed.

Lemma get_shape_ok l w sh :
  shape_at (heap w) l = Some sh → get_shape l w = (Ok sh, w).
Proof.
  rewrite get_shape_run. unfold shape_at.
  destruct (heap w !! l) as [[]|]; naive_solver.
Qed.

Lemma py_len_run l w :
  py_len l w =
    (match heap w !! l with
     | Some (ArrF a) => np_len a
     | Some (ArrI a) => np_len a
     | Some (PyTuple items | PyList items) => Ok (length items)
     | None => Raise (Exn Interp RuntimeError)
     end, w).
Proof.
  cbv [py_len bind load ret throw lift].
  by destruct (heap w !! l) as [[]|].
Qed.

Lemma py_len_ok l w n :
  points_len (heap w) l = Some n → py_len l w = (Ok n, w).
Proof.
  rewrite py_len_run. unfold points_len.
  destruct (heap w !! l) as [[a|a|?|?]|]; try destruct (np_len a); naive_solver.
Qed.

Lemma points_len_insert h l o lp n :
  h !! l = None → points_len h lp = Some n → points_len (<[l := o]> h) lp = Some n.
Proof.
  intros Hl. unfold points_len.
  destruct (h !! lp) eqn:Hp; [|done].
  rewrite lookup_insert_ne by congruence. by rewrite Hp.
Qed.

Lemma fresh_loc_None h : h !! fresh (dom h) = None.
Proof. apply not_elem_of_dom, is_fresh. Qed.

Lemma setitem_run l idx v w a :
  heap w !! l = Some (ArrI a) →
  setitem l idx v w =
    match np_setitem a idx v with
    | Ok a' => (Ok tt, set_heap w (<[l := ArrI a']> (heap w)))
    | Raise e => (Raise e, w)
    end.
Proof.
  intros Hl. cbv [setitem bind load lift store]. rewrite Hl.
  destruct (np_setitem a idx v); [|done]. by rewrite Hl.
Qed.

Lemma coord_at_insert_inv h l sh buf lp i k x :
  h !! l = None → is_Some (h !! lp) → 2 ≤ length sh →
  coord_at (<[l := ArrI (NDArray sh buf)]> h) lp i k = Ok x →
  coord_at h lp i k = Ok x.
Proof.
  intros Hl [p Hp] Hsh. unfold coord_at.
  rewrite lookup_insert_ne by congruence. rewrite Hp.
  destruct p as [a|a|items|items]; try done;
    (destruct (items !! i) as [[r|]|]; try done;
     destruct (decide (l = r)) as [<-|Hne];
     [ rewrite lookup_insert_eq, Hl; simpl;
       by destruct sh as [|? [|? ?]]; simpl in Hsh; try lia
     | by rewrite lookup_insert_ne ]).
Qed.

Lemma pixel_from_insert_inv h l sh0 buf lp i :
  h !! l = None → is_Some (h !! lp) → 2 ≤ length sh0 →
  ∀ sh k, is_Some (pixel_from (<[l := ArrI (NDArray sh0 buf)]> h) lp i k sh) →
          is_Some (pixel_from h lp i k sh).
Proof.
  intros Hl Hp Hsh0 sh. induction sh as [|n sh IH]; intros k; simpl; [done|].
  destruct (coord_at (<[l := ArrI (NDArray sh0 buf)]> h) lp i k) as [x|] eqn:Hx;
    [|by intros [? ?]].
  rewrite (coord_at_insert_inv _ _ _ _ _ _ _ _ Hl Hp Hsh0 Hx).
  destruct (round_half x) as [z|]; [|done].
  destruct (norm_index n z) as [j|]; [|done].
  intros Hsome. apply fmap_is_Some in Hsome. apply fmap_is_Some. by apply IH.
Qed.

(** When the loop body returns, the point has a pixel. *)
Lemma mark_point_ok_inv lp l i w sh buf w' :
  heap w !! l = Some (ArrI (NDArray sh buf)) →
  length sh = 2 ∨ length sh = 3 →
  mark_point lp l i w = (Ok tt, w') →
  is_Some (pixel_of (heap w) lp sh i).
Proof.
  intros Hl Hdim. unfold mark_point, pixel_of. unfold bind at 1.
  rewrite get_shape_run, Hl. cbn [shape].
  destruct sh as [|n0 [|n1 [|n2 [|]]]]; simpl in Hdim; try lia; simpl.
  - unfold bind. rewrite !rounded_run.
    destruct (coord_at (heap w) lp i 0) as [x0|]; [|done].
    destruct (round_half x0) as [z0|]; [|done].
    destruct (coord_at (heap w) lp i 1) as [x1|]; [|done].
    destruct (round_half x1) as [z1|]; [|done].
    rewrite (setitem_run _ _ _ _ _ Hl). unfold np_setitem. simpl.
    destruct (norm_index n0 z0) as [j0|]; [|done].
    destruct (norm_index n1 z1) as [j1|]; [|done]. by eexists.
  - unfold bind. rewrite !rounded_run.
    destruct (coord_at (heap w) lp i 0) as [x0|]; [|done].
    destruct (round_half x0) as [z0|]; [|done].
    destruct (coord_at (heap w) lp i 1) as [x1|]; [|done].
    destruct (round_half x1) as [z1|]; [|done].
    destruct (coord_at (heap w) lp i 2) as [x2|]; [|done].
    destruct (round_half x2) as [z2|]; [|done].
    rewrite (setitem_run _ _ _ _ _ Hl). unfold np_setitem. simpl.
    destruct (norm_index n0 z0) as [j0|]; [|done].
    destruct (norm_index n1 z1) as [j1|]; [|done].
    destruct (norm_index n2 z2) as [j2|]; [|done]. by eexists.
Qed.

Lemma for_range_mark_inv h l lp sh :
  h !! l = None → is_Some (h !! lp) →
  length sh = 2 ∨ length sh = 3 →
  ∀ m start buf w w',
    heap w = <[l := ArrI (NDArray sh buf)]> h →
    for_range (mark_point lp l) start m w = (Ok tt, w') →
    ∀ i, start ≤ i < start + m → is_Some (pixel_of h lp sh i).
Proof.
  intros Hl Hp Hsh m. induction m as [|m IH]; intros start buf w w' Hw Hrun i Hi; [lia|].
  simpl in Hrun. unfold bind in Hrun.
  destruct (mark_point lp l start w) as [[[]|e] w1] eqn:Hstep; [|done].
  assert (is_Some (pixel_of h lp sh start)) as [c Hc].
  { apply (pixel_from_insert_inv h l sh buf); [done|done|lia|].
    rewrite <- Hw. eapply mark_point_ok_inv; [|done|done].
    rewrite Hw. apply lookup_insert_eq. }
  destruct (decide (i = start)) as [->|Hne]; [by eexists|].
  rewrite (mark_point_run _ _ _ _ _ _ _ _ Hl Hw Hsh Hc) in Hstep.
  injection Hstep as <-.
  eapply (IH (S start)); [|exact Hrun|lia]. done.
Qed.

(** The run of [points_to_labels] on points that all fall on pixels. *)
Lemma points_to_labels_run w lp li sh n :
  shape_at (heap w) li = Some sh →
  length sh = 2 ∨ length sh = 3 →
  points_len (heap w) lp = Some n →
  (∀ i, i < n → is_Some (pixel_of (heap w) lp sh i)) →
  ∃ l out,
    points_to_labels lp li w = (Ok l, set_heap w (<[l := ArrI out]> (heap w))) ∧
    heap w !! l = None ∧
    shape out = sh ∧
    wf_array out ∧
    ∀ c, in_bounds c sh →
      (∀ i, i < n → pixel_of (heap w) lp sh i = Some c →
         (∀ j, i < j < n → pixel_of (heap w) lp sh j ≠ Some c) →
         np_getitem out (Z.of_nat <$> c) = Ok (Z.of_nat i + 1)%Z) ∧
      ((∀ i, i < n → pixel_of (heap w) lp sh i ≠ Some c) →
         np_getitem out (Z.of_nat <$> c) = Ok 0%Z).
Proof.
  intros Hsh Hdim Hn Hpix.
  set (l := fresh (dom (heap w))).
  assert (heap w !! l = None) as Hl by apply fresh_loc_None.
  set (w1 := set_heap w (<[l := ArrI (np_zeros sh)]> (heap w))).
  destruct (for_range_mark (heap w) l lp sh Hl Hdim n 0
              (replicate (size_of sh) 0%Z) w1) as (buf' & Hrun & Hlen & Hspec).
  { done. }
  { by rewrite length_replicate. }
  { intros i Hi. apply Hpix. lia. }
  exists l, (NDArray sh buf'). split; [|split; [done|split; [done|split; [done|]]]].
  - unfold points_to_labels. unfold bind at 1. rewrite (get_shape_ok _ _ _ Hsh).
    unfold bind at 1. unfold alloc at 1. fold l.
    change (World (<[l:=ArrI (np_zeros sh)]> (heap w)) (lib_state w) (calls w)) with w1.
    unfold bind at 1. rewrite (py_len_ok lp w1 n).
    2:{ simpl. by apply points_len_insert. }
    unfold bind at 1. rewrite Hrun. done.
  - intros c Hc. destruct (Hspec c Hc) as [Hlast Hnone].
    unfold np_getitem. simpl. rewrite (flat_index_of_nat _ _ Hc). split.
    + intros i Hi Hp Hlater. rewrite (Hlast i); [done|lia|done|].
      intros j Hj. apply Hlater. lia.
    + intros Hno. rewrite Hnone.
      * rewrite lookup_replicate_2; [done|]. by apply offset_lt.
      * intros i Hi. apply Hno. lia.
Qed.
(** When [points_to_labels] returns, every point has a pixel. *)
Lemma points_to_labels_ok_inv w lp li sh n :
  shape_at (heap w) li = Some sh →
  length sh = 2 ∨ length sh = 3 →
  points_len (heap w) lp = Some n →
  is_ok (points_to_labels lp li w).1 = true →
  ∀ i, i < n → is_Some (pixel_of (heap w) lp sh i).
Proof.
  intros Hsh Hdim Hn Hok i Hi.
  set (l := fresh (dom (heap w))).
  assert (heap w !! l = None) as Hl by apply fresh_loc_None.
  assert (is_Some (heap w !! lp)) as Hp.
  { unfold points_len in Hn. by destruct (heap w !! lp). }
  set (w1 := set_heap w (<[l := ArrI (np_zeros sh)]> (heap w))).
  unfold points_to_labels in Hok. unfold bind at 1 in Hok.
  rewrite (get_shape_ok _ _ _ Hsh) in Hok.
  unfold bind at 1 in Hok. unfold alloc at 1 in Hok. fold l in Hok.
  change (World (<[l:=ArrI (np_zeros sh)]> (heap w)) (lib_state w) (calls w)) with w1 in Hok.
  unfold bind at 1 in Hok. rewrite (py_len_ok lp w1 n) in Hok.
  2:{ simpl. by apply points_len_insert. }
  unfold bind at 1 in Hok.
  destruct (for_range (mark_point lp l) 0 n w1) as [[[]|e] w2] eqn:Hrun; [|done].
  eapply (for_range_mark_inv (heap w) l lp sh Hl Hp Hdim n 0); [|exact Hrun|lia].
  done.
Qed.
End Run.

(** ** Where exceptions come from *)

Lemma flat_index_not_local sh idx : locally_raised (flat_index sh idx) = false.
Proof.
  revert idx. induction sh as [|n sh IH]; intros [|i idx]; simpl; try done.
  unfold norm_index. repeat case_bool_decide; try done;
    (specialize (IH idx); by destruct (flat_index sh idx)).
Qed.

Lemma np_setitem_not_local {A} (a : ndarray A) idx v :
  locally_raised (np_setitem a idx v) = false.
Proof.
  unfold np_setitem. pose proof (flat_index_not_local (shape a) idx).
  by destruct (flat_index (shape a) idx).
Qed.

Ltac pure_not_local :=
  try apply np_setitem_not_local;
  cbv [np_len row_item py_int round_half num_to_float coord_of_object np_argmax
       num_sub num_add num_mul num_binop asarray_rows];
  repeat (case_match; simplify_eq; try done).

Section NoLocal.
Context {L : Library}.

Lemma no_local_ret {A} (a : A) : no_local (L := L) (ret a).
Proof. by intros w. Qed.

Lemma no_local_bind {A B} (m : M L A) (k : A → M L B) :
  no_local m → (∀ a, no_local (k a)) → no_local (bind m k).
Proof.
  intros Hm Hk w. unfold bind. specialize (Hm w).
  destruct (m w) as [[a|e] w1]; [apply Hk | done].
Qed.

Lemma no_local_throw {A} o k : o ≠ Local → no_local (L := L) (@throw L A (Exn o k)).
Proof. intros Ho w. by destruct o. Qed.

Lemma no_local_lift {A} (r : result A) :
  locally_raised r = false → no_local (L := L) (lift r).
Proof. by intros Hr w. Qed.

Lemma no_local_lift_lib {A} (r : exn_kind + A) : no_local (L := L) (lift_lib r).
Proof. by destruct r; intros w. Qed.

Lemma no_local_lift_np {A} (r : exn_kind + A) : no_local (L := L) (lift_np r).
Proof. by destruct r; intros w. Qed.

Lemma no_local_alloc o : no_local (L := L) (alloc o).
Proof. by intros w. Qed.

Lemma no_local_load l : no_local (L := L) (load l).
Proof. intros w. unfold load. by destruct (heap w !! l). Qed.

Lemma no_local_store l o : no_local (L := L) (store l o).
Proof. intros w. unfold store. by destruct (heap w !! l). Qed.

Lemma no_local_invoke {X} a (f : lib (LibState L) X) : no_local (invoke a f).
Proof. intros w. unfold invoke. by destruct (f (lib_state w)) as [[] ?]. Qed.

Lemma no_local_for_range (body : nat → M L unit) start n :
  (∀ i, no_local (body i)) → no_local (for_range body start n).
Proof.
  intros Hb. revert start. induction n as [|n IH]; intros start; simpl.
  - apply no_local_ret.
  - apply no_local_bind; [apply Hb | intros _; apply IH].
Qed.

Lemma no_local_map_M {A B} (f : A → M L B) xs :
  (∀ x, no_local (f x)) → no_local (map_M f xs).
Proof.
  intros Hf. induction xs as [|x xs IH]; simpl.
  - apply no_local_ret.
  - apply no_local_bind; [apply Hf | intros y].
    apply no_local_bind; [apply IH | intros ys]. apply no_local_ret.
Qed.
End NoLocal.

Ltac no_local_step :=
  first
    [ apply no_local_ret
    | apply no_local_alloc
    | apply no_local_load
    | apply no_local_store
    | apply no_local_invoke
    | apply no_local_lift_lib
    | apply no_local_lift_np
    | apply no_local_throw; discriminate
    | apply no_local_lift; pure_not_local
    | apply no_local_map_M; intros ?
    | apply no_local_for_range; intros ?
    | apply no_local_bind; [|intros ?]
    | match goal with
      | |- no_local (match ?x with _ => _ end) => destruct x
      | |- no_local (let '(_, _) := ?x in _) => destruct x
      end ].

Ltac no_local_tac :=
  cbv [get_shape seq_getitem to_vector_d to_vector_i to_vector_double to_numpy_d
       to_numpy_i to_mesh to_point_cloud to_surface load_labels py_len point_item
       rounded setitem deref zeros_like bound items_of seq_setitem py_mul];
  repeat no_local_step.

Section NoLocalOperations.
Context {L : Library}.

Lemma no_local_to_mesh s : no_local (L := L) (to_mesh s).
Proof. no_local_tac. Qed.

Lemma no_local_to_point_cloud s : no_local (L := L) (to_point_cloud s).
Proof. no_local_tac. Qed.

Lemma no_local_to_surface m : no_local (L := L) (to_surface m).
Proof. no_local_tac. Qed.

Lemma no_local_label_to_surface l i : no_local (L := L) (label_to_surface l i).
Proof. unfold label_to_surface. no_local_tac. Qed.

Lemma no_local_rounded lp i k : no_local (L := L) (rounded lp i k).
Proof. no_local_tac. Qed.

Lemma no_local_setitem l idx v : no_local (L := L) (setitem l idx v).
Proof. no_local_tac. Qed.

(** Every operation but [points_to_labels] has no [raise] of its own. *)
Lemma no_local_exec (op : operation) :
  (∀ p i, op ≠ Points_to_labels p i) → no_local (L := L) (exec op).
Proof.
  intros Hop. destruct op; simpl; try (by exfalso; eapply Hop).
  all: cbv [convex_hull filter_smooth_simple filter_smooth_laplacian
            filter_smooth_taubin simplify_vertex_clustering
            simplify_quadric_decimation subdivide_loop labels_to_centroids
            sample_points_uniformly sample_points_poisson_disk voxel_down_sample
            surface_to_binary_volume points_to_convex_hull_surface
            surface_from_point_cloud_alpha_shape
            surface_from_point_cloud_ball_pivoting largest_label_to_surface
            label_to_surface fill_holes isotropic_scale_surface].
  all: no_local_tac.
Qed.
End NoLocalOperations.

(** ** The exceptions of [points_to_labels] *)

Section PointsToLabelsErrors.
Context {L : Library}.
Implicit Types (w : world L).

Lemma np_setitem_shape {A} (a a' : ndarray A) idx v :
  np_setitem a idx v = Ok a' → shape a' = shape a.
Proof.
  unfold np_setitem. destruct (flat_index (shape a) idx); [|done].
  by intros [= <-].
Qed.

Lemma rounded_not_local lp i k w e :
  (rounded lp i k w).1 = Raise e → locally_raised (Raise e : result Z) = false.
Proof.
  intros He. pose proof (no_local_rounded (L := L) lp i k w) as H.
  by rewrite He in H.
Qed.

(** On a volume with two or three axes the loop body raises nothing of
    its own and keeps the shape of the volume. *)
Lemma setitem_supported l idx v w a r w' :
  heap w !! l = Some (ArrI a) →
  setitem l idx v w = (r, w') →
  locally_raised r = false ∧
  (r = Ok tt → ∃ a', heap w' !! l = Some (ArrI a') ∧ shape a' = shape a).
Proof.
  intros Hl. rewrite (setitem_run _ _ _ _ _ Hl).
  pose proof (np_setitem_not_local a idx v) as Hnl.
  destruct (np_setitem a idx v) as [a'|e] eqn:Ha; intros [= <- <-].
  - split; [done|]. intros _. exists a'. simpl. rewrite lookup_insert_eq.
    eauto using np_setitem_shape.
  - done.
Qed.

Lemma mark_point_supported lp l i w a r w' :
  heap w !! l = Some (ArrI a) →
  length (shape a) = 2 ∨ length (shape a) = 3 →
  mark_point lp l i w = (r, w') →
  locally_raised r = false ∧
  (r = Ok tt → ∃ a', heap w' !! l = Some (ArrI a') ∧ shape a' = shape a).
Proof.
  intros Hl Hdim.
  pose proof (rounded_not_local lp i 0 w) as H0.
  pose proof (rounded_not_local lp i 1 w) as H1.
  pose proof (rounded_not_local lp i 2 w) as H2.
  unfold mark_point. unfold bind at 1. rewrite get_shape_run, Hl.
  destruct Hdim as [Hdim|Hdim]; rewrite Hdim; simpl; unfold bind;
    rewrite !rounded_run in *; simpl in *.
  - destruct (match coord_at (heap w) lp i 0 with Ok x => round_half x | Raise e => Raise e end)
      as [z0|e0]; [|intros [= <- <-]; split; [by apply H0|done]].
    destruct (match coord_at (heap w) lp i 1 with Ok x => round_half x | Raise e => Raise e end)
      as [z1|e1]; [|intros [= <- <-]; split; [by apply H1|done]].
    by apply setitem_supported.
  - destruct (match coord_at (heap w) lp i 0 with Ok x => round_half x | Raise e => Raise e end)
      as [z0|e0]; [|intros [= <- <-]; split; [by apply H0|done]].
    destruct (match coord_at (heap w) lp i 1 with Ok x => round_half x | Raise e => Raise e end)
      as [z1|e1]; [|intros [= <- <-]; split; [by apply H1|done]].
    destruct (match coord_at (heap w) lp i 2 with Ok x => round_half x | Raise e => Raise e end)
      as [z2|e2]; [|intros [= <- <-]; split; [by apply H2|done]].
    by apply setitem_supported.
Qed.

Lemma for_range_supported lp l n : ∀ start w a,
  heap w !! l = Some (ArrI a) →
  length (shape a) = 2 ∨ length (shape a) = 3 →
  locally_raised (for_range (mark_point lp l) start n w).1 = false.
Proof.
  induction n as [|n IH]; intros start w a Hl Hdim; simpl; [done|].
  unfold bind.
  destruct (mark_point lp l start w) as [r w1] eqn:Hrun.
  destruct (mark_point_supported lp l start w a r w1 Hl Hdim Hrun) as [Hnl Hok].
  destruct r as [[]|e]; simpl in *; [|done].
  destruct (Hok eq_refl) as (a' & Hl' & Hsh).
  apply (IH _ _ a'); [done | by rewrite Hsh].
Qed.

(** On any other volume the first point raises [NotImplementedError]. *)
Lemma mark_point_unsupported lp l i w a :
  heap w !! l = Some (ArrI a) →
  length (shape a) ≠ 2 → length (shape a) ≠ 3 →
  mark_point lp l i w = (Raise (Exn Local NotImplementedError), w).
Proof.
  intros Hl H2 H3. unfold mark_point. unfold bind at 1.
  rewrite get_shape_run, Hl.
  by rewrite !bool_decide_false.
Qed.

Lemma points_to_labels_errors w lp li sh n :
  shape_at (heap w) li = Some sh →
  points_len (heap w) lp = Some n →
  ((points_to_labels lp li w).1 = Raise (Exn Local NotImplementedError) ↔
     length sh ≠ 2 ∧ length sh ≠ 3 ∧ 0 < n) ∧
  (locally_raised (points_to_labels lp li w).1 = true →
     (points_to_labels lp li w).1 = Raise (Exn Local NotImplementedError)).
Proof.
  intros Hsh Hn.
  set (l := fresh (dom (heap w))).
  assert (heap w !! l = None) as Hl by apply fresh_loc_None.
  set (w1 := set_heap w (<[l := ArrI (np_zeros sh)]> (heap w))).
  assert (points_to_labels lp li w =
          match for_range (mark_point lp l) 0 n w1 with
          | (Ok _, w') => (Ok l, w')
          | (Raise e, w') => (Raise e, w')
          end) as ->.
  { unfold points_to_labels. unfold bind at 1. rewrite (get_shape_ok _ _ _ Hsh).
    unfold bind at 1. unfold alloc at 1. fold l.
    change (World (<[l:=ArrI (np_zeros sh)]> (heap w)) (lib_state w) (calls w)) with w1.
    unfold bind at 1. rewrite (py_len_ok lp w1 n).
    2:{ simpl. by apply points_len_insert. }
    unfold bind at 1. by destruct (for_range (mark_point lp l) 0 n w1) as [[] ?]. }
  assert (heap w1 !! l = Some (ArrI (np_zeros sh))) as Hl1
    by (simpl; apply lookup_insert_eq).
  destruct (decide (length sh = 2 ∨ length sh = 3)) as [Hdim|Hdim].
  - pose proof (for_range_supported lp l n 0 w1 _ Hl1 Hdim) as Hnl.
    destruct (for_range (mark_point lp l) 0 n w1) as [[[]|[o k]] w2]; simpl in *.
    + split; [split; [done | lia] | done].
    + split; [split; [intros [= -> ->]; done | lia] | by destruct o].
  - assert (length sh ≠ 2 ∧ length sh ≠ 3) as [H2 H3] by lia.
    destruct n as [|n]; simpl.
    + split; [split; [done | lia] | done].
    + unfold bind. rewrite (mark_point_unsupported lp l 0 w1 _ Hl1 H2 H3). simpl.
      split; [split; [intros _; lia | done] | done].
Qed.
End PointsToLabelsErrors.

Section LocalRaises.
Context {L : Library}.

Lemma local_raises_no_local {A} k (m : M L A) : no_local m → local_raises_are k m.
Proof. intros Hm w Hl. by rewrite Hm in Hl. Qed.

Lemma local_raises_bind {A B} k (m : M L A) (f : A → M L B) :
  local_raises_are k m → (∀ a, local_raises_are k (f a)) →
  local_raises_are k (bind m f).
Proof.
  intros Hm Hf w. unfold bind. specialize (Hm w).
  destruct (m w) as [[a|e] w1]; [apply Hf|].
  simpl in *. intros He. specialize (Hm He). by injection Hm as ->.
Qed.

Lemma local_raises_for_range k (body : nat → M L unit) start n :
  (∀ i, local_raises_are k (body i)) → local_raises_are k (for_range body start n).
Proof.
  intros Hb. revert start. induction n as [|n IH]; intros start; simpl.
  - by intros w.
  - apply local_raises_bind; [apply Hb | intros _; apply IH].
Qed.

Lemma local_raises_mark_point lp l i :
  local_raises_are (L := L) NotImplementedError (mark_point lp l i).
Proof.
  unfold mark_point.
  apply local_raises_bind; [apply local_raises_no_local; no_local_tac | intros sh].
  repeat case_bool_decide.
  - apply local_raises_no_local.
    repeat (apply no_local_bind; [apply no_local_rounded | intros ?]).
    apply no_local_setitem.
  - apply local_raises_no_local.
    repeat (apply no_local_bind; [apply no_local_rounded | intros ?]).
    apply no_local_setitem.
  - by intros w.
Qed.

Lemma local_raises_points_to_labels lp li :
  local_raises_are (L := L) NotImplementedError (points_to_labels lp li).
Proof.
  unfold points_to_labels.
  apply local_raises_bind; [apply local_raises_no_local; no_local_tac | intros sh].
  apply local_raises_bind; [apply local_raises_no_local; no_local_tac | intros l].
  apply local_raises_bind; [apply local_raises_no_local; no_local_tac | intros n].
  apply local_raises_bind; [|by intros _ w].
  apply local_raises_for_range. intros i. apply local_raises_mark_point.
Qed.
End LocalRaises.

(** ** Points to labels *)

(** C1, as amended: on a 2-d or 3-d reference image, [points_to_labels]
    returns exactly for the lists of points whose coordinates are finite and
    round (add 0.5, truncate) to indices of the image, a negative rounded
    coordinate counting from the end of its axis as numpy indexes.  It then
    returns a new integer volume of the shape of the image and changes
    nothing else; in the volume the pixel of the point with index [i] holds
    [i + 1] unless a later point has the same pixel, so the largest index
    wins, and every pixel that no point has holds 0. *)
Theorem points_to_labels_marks {L : Library} (w : world L) (lp li : loc)
    (sh : list nat) (n : nat) :
  shape_at (heap w) li = Some sh →
  length sh = 2 ∨ length sh = 3 →
  points_len (heap w) lp = Some n →
  (is_ok (points_to_labels lp li w).1 = true →
   ∀ i, i < n → is_Some (pixel_of (heap w) lp sh i)) ∧
  ((∀ i, i < n → is_Some (pixel_of (heap w) lp sh i)) →
   ∃ l out,
     points_to_labels lp li w = (Ok l, set_heap w (<[l := ArrI out]> (heap w))) ∧
     heap w !! l = None ∧
     shape out = sh ∧
     wf_array out ∧
     ∀ c, in_bounds c sh →
       (∀ i, i < n → pixel_of (heap w) lp sh i = Some c →
          (∀ j, i < j < n → pixel_of (heap w) lp sh j ≠ Some c) →
          np_getitem out (Z.of_nat <$> c) = Ok (Z.of_nat i + 1)%Z) ∧
       ((∀ i, i < n → pixel_of (heap w) lp sh i ≠ Some c) →
          np_getitem out (Z.of_nat <$> c) = Ok 0%Z)).
Proof.
  intros Hsh Hdim Hn. split.
  - by apply points_to_labels_ok_inv.
  - by apply points_to_labels_run.
Qed.

(** Three points on a 2 x 3 image, the first and the last on pixel (1, 0):
    the pixel holds 3, pixel (1, 1) holds 2 and pixel (0, 0) holds 0. *)
Lemma points_to_labels_marks_witness :
  ∃ l out,
    points_to_labels 0 1 Demo.w = (Ok l, set_heap Demo.w (<[l := ArrI out]> Demo.store)) ∧
    np_getitem out [1; 0]%Z = Ok 3%Z ∧
    np_getitem out [1; 1]%Z = Ok 2%Z ∧
    np_getitem out [0; 0]%Z = Ok 0%Z.
Proof.
  destruct (points_to_labels_marks Demo.w 0 1 [2; 3] 3) as [_ Hmarks].
  - reflexivity.
  - left. reflexivity.
  - reflexivity.
  - destruct Hmarks as (l & out & Hrun & _ & _ & _ & Hpix).
    { intros i Hi. destruct i as [|[|[|i]]]; [vm_compute; eauto ..|lia]. }
    exists l, out. split; [exact Hrun|].
    split; [|split].
    + destruct (Hpix [1; 0]) as [Hlast _]; [repeat constructor|].
      apply (Hlast 2); [lia | vm_compute; reflexivity | intros j Hj; lia].
    + destruct (Hpix [1; 1]) as [Hlast _]; [repeat constructor|].
      apply (Hlast 1); [lia | vm_compute; reflexivity |].
      intros j Hj. assert (j = 2) as -> by lia. vm_compute. discriminate.
    + destruct (Hpix [0; 0]) as [_ Hnone]; [repeat constructor; lia|].
      apply Hnone. intros i Hi.
      destruct i as [|[|[|i]]]; [vm_compute; discriminate ..|lia].
Defined.

(** A point that rounds to (5, 5) has no pixel in a 2 x 3 image: the call
    raises [IndexError] and returns no volume. *)
Lemma points_to_labels_out_of_bounds :
  shape_at Demo.store 1 = Some [2; 3] ∧
  points_len Demo.store 3 = Some 1 ∧
  (points_to_labels 3 1 Demo.w).1 = Raise (Exn Interp IndexError).
Proof. vm_compute. done. Qed.

(** C2, as amended: on a reference image with shape [sh] and [n] points,
    [points_to_labels] raises [NotImplementedError] exactly when the image
    has neither two nor three axes and there is at least one point (without
    points it returns the empty volume whatever the shape); on a 2-d or 3-d
    image whose points all fall on pixels it returns.  No operation raises
    any other exception of its own, and no other operation raises one at
    all: what else is observed comes from the interpreter, numpy or a wrapped
    library. *)
Theorem local_errors_only_unsupported_dimension {L : Library} :
  (∀ (w : world L) (lp li : loc) (sh : list nat) (n : nat),
     shape_at (heap w) li = Some sh →
     points_len (heap w) lp = Some n →
     ((points_to_labels lp li w).1 = Raise (Exn Local NotImplementedError) ↔
        length sh ≠ 2 ∧ length sh ≠ 3 ∧ 0 < n) ∧
     (length sh = 2 ∨ length sh = 3 →
      (∀ i, i < n → is_Some (pixel_of (heap w) lp sh i)) →
      is_ok (points_to_labels lp li w).1 = true)) ∧
  (∀ (op : operation) (w : world L),
     locally_raised (exec op w).1 = true →
     (exec op w).1 = Raise (Exn Local NotImplementedError) ∧
     ∃ lp li, op = Points_to_labels lp li).
Proof.
  split.
  - intros w lp li sh n Hsh Hn. split.
    + apply (points_to_labels_errors w lp li sh n Hsh Hn).
    + intros Hdim Hpix.
      destruct (points_to_labels_run w lp li sh n Hsh Hdim Hn Hpix) as (l & out & -> & _).
      done.
  - intros op w Hloc.
    assert ((∃ lp li, op = Points_to_labels lp li) ∨
            (∀ lp li, op ≠ Points_to_labels lp li)) as [(lp & li & ->)|Hno]
      by (destruct op; eauto).
    + split; [|eauto]. by apply local_raises_points_to_labels.
    + exfalso. pose proof (no_local_exec op Hno w) as Hnl.
      by rewrite Hnl in Hloc.
Qed.

(** Three points and a 1-d image: the call raises [NotImplementedError]. *)
Lemma local_errors_only_unsupported_dimension_witness :
  (points_to_labels 0 2 Demo.w).1 = Raise (Exn Local NotImplementedError).
Proof.
  destruct (@local_errors_only_unsupported_dimension Demo.library) as [Hptl _].
  destruct (Hptl Demo.w 0 2 [4] 3) as [[_ Hraise] _].
  - reflexivity.
  - reflexivity.
  - apply Hraise. simpl. lia.
Defined.

(** No points and a 1-d image: the call returns, although the image has
    neither two nor three axes. *)
Lemma points_to_labels_no_points_any_dimension :
  shape_at Demo.store 2 = Some [4] ∧
  points_len Demo.store 4 = Some 0 ∧
  is_ok (points_to_labels 4 2 Demo.w).1 = true.
Proof. vm_compute. done. Qed.

(** ** What a call leaves untouched *)

Section Keeps.
Context {L : Library}.
Implicit Types (S : gset loc).

Lemma keeps_weaken S {A} (m : M L A) (Q Q' : A → Prop) :
  keeps S m Q → (∀ a, Q a → Q' a) → keeps S m Q'.
Proof.
  intros Hm HQ w Hw. destruct (Hm w Hw) as [Hfr Hpost]. split; [done|].
  destruct (m w).1; [by apply HQ | done].
Qed.

Lemma keeps_ret S {A} (a : A) (Q : A → Prop) : Q a → keeps S (L := L) (ret a) Q.
Proof. by intros HQ w Hw. Qed.

Lemma keeps_bind S {A B} (m : M L A) (k : A → M L B) (Q : A → Prop) (R : B → Prop) :
  keeps S m Q → (∀ a, Q a → keeps S (k a) R) → keeps S (bind m k) R.
Proof.
  intros Hm Hk w Hw. unfold bind. destruct (Hm w Hw) as [Hfr Hpost].
  destruct (m w) as [[a|e] w1]; simpl in *; [|done].
  assert (S ⊆ dom (heap w1)) as Hw1.
  { intros l Hl. apply elem_of_dom. rewrite (Hfr l Hl). apply elem_of_dom. by apply Hw. }
  destruct (Hk a Hpost w1 Hw1) as [Hfr' Hpost']. split; [|done].
  intros l Hl. by rewrite (Hfr' l Hl), (Hfr l Hl).
Qed.

Lemma keeps_throw S {A} e (Q : A → Prop) : keeps S (L := L) (throw e) Q.
Proof. by intros w Hw. Qed.

Lemma keeps_lift S {A} (r : result A) : keeps S (L := L) (lift r) (λ _, True).
Proof. intros w Hw. split; [done|]. simpl. by destruct r. Qed.

Lemma keeps_lift_lib S {A} (r : exn_kind + A) : keeps S (L := L) (lift_lib r) (λ _, True).
Proof. by destruct r; intros w Hw. Qed.

Lemma keeps_lift_np S {A} (r : exn_kind + A) : keeps S (L := L) (lift_np r) (λ _, True).
Proof. by destruct r; intros w Hw. Qed.

Lemma keeps_alloc S o : keeps S (L := L) (alloc o) (λ l, l ∉ S).
Proof.
  intros w Hw. simpl. split.
  - intros l Hl. apply lookup_insert_ne. intros <-.
    by apply (is_fresh (dom (heap w))), Hw.
  - intros Hl. by apply (is_fresh (dom (heap w))), Hw.
Qed.

Lemma keeps_load S l : keeps S (L := L) (load l) (λ _, True).
Proof. intros w Hw. unfold load. by destruct (heap w !! l). Qed.

Lemma keeps_store S l o : l ∉ S → keeps S (L := L) (store l o) (λ _, True).
Proof.
  intros Hl w Hw. unfold store. destruct (heap w !! l); [|done].
  simpl. split; [|done]. intros l' Hl'. apply lookup_insert_ne. by intros <-.
Qed.

Lemma keeps_invoke S {X} a (f : lib (LibState L) X) : keeps S (invoke a f) (λ _, True).
Proof. intros w Hw. unfold invoke. by destruct (f (lib_state w)) as [[] ?]. Qed.

Lemma keeps_for_range S (body : nat → M L unit) start n :
  (∀ i, keeps S (body i) (λ _, True)) → keeps S (for_range body start n) (λ _, True).
Proof.
  intros Hb. revert start. induction n as [|n IH]; intros start; simpl.
  - by apply keeps_ret.
  - eapply keeps_bind; [apply Hb | intros _ _; apply IH].
Qed.

Lemma keeps_map_M S {A B} (f : A → M L B) xs :
  (∀ x, keeps S (f x) (λ _, True)) → keeps S (map_M f xs) (λ _, True).
Proof.
  intros Hf. induction xs as [|x xs IH]; simpl.
  - by apply keeps_ret.
  - eapply keeps_bind; [apply Hf | intros y _].
    eapply keeps_bind; [apply IH | intros ys _]. by apply keeps_ret.
Qed.
End Keeps.

Ltac keeps_tac :=
  lazymatch goal with
  | |- keeps _ (bind _ _) _ => eapply keeps_bind; [keeps_tac | intros ? ?; keeps_tac]
  | |- keeps _ (alloc _) _ =>
      first [apply keeps_alloc | eapply keeps_weaken; [apply keeps_alloc | done]]
  | |- keeps _ (load _) _ => apply keeps_load
  | |- keeps _ (invoke _ _) _ => apply keeps_invoke
  | |- keeps _ (lift _) _ => apply keeps_lift
  | |- keeps _ (lift_lib _) _ => apply keeps_lift_lib
  | |- keeps _ (lift_np _) _ => apply keeps_lift_np
  | |- keeps _ (throw _) _ => apply keeps_throw
  | |- keeps _ (store _ _) _ => apply keeps_store; assumption
  | |- keeps _ (ret _) _ =>
      first [apply (keeps_ret _ _ (λ _, True) I) | apply keeps_ret; assumption]
  | |- keeps _ (map_M _ _) _ => apply keeps_map_M; intros ?; keeps_tac
  | |- keeps _ (for_range _ _ _) _ => apply keeps_for_range; intros ?; keeps_tac
  | |- keeps _ (match ?x with _ => _ end) _ => destruct x; keeps_tac
  end.

Ltac unfold_operations :=
  cbv [exec convex_hull filter_smooth_simple filter_smooth_laplacian
       filter_smooth_taubin simplify_vertex_clustering
       simplify_quadric_decimation subdivide_loop labels_to_centroids
       sample_points_uniformly sample_points_poisson_disk voxel_down_sample
       points_to_labels mark_point
       surface_to_binary_volume points_to_convex_hull_surface
       surface_from_point_cloud_alpha_shape
       surface_from_point_cloud_ball_pivoting largest_label_to_surface
       label_to_surface fill_holes isotropic_scale_surface
       get_shape seq_getitem to_vector_d to_vector_i to_vector_double to_numpy_d
       to_numpy_i to_mesh to_point_cloud to_surface load_labels py_len point_item
       rounded setitem deref zeros_like bound items_of seq_setitem py_mul].

Section KeepsOperations.
Context {L : Library}.

(** Every operation leaves the objects of [S] as they are and returns an
    object that is not one of them. *)
Lemma keeps_exec (S : gset loc) (op : operation) :
  keeps S (L := L) (exec op) (λ l, l ∉ S).
Proof. destruct op; unfold_operations; keeps_tac. Qed.
End KeepsOperations.


(** ** The library algorithms a call invokes *)

Section Emits.
Context {L : Library}.

Lemma emits_ret {A} (a : A) : emits (L := L) (ret a) [].
Proof. intros w a' w' [= <- <-]. by rewrite app_nil_r. Qed.

Lemma emits_bind {A B} (m : M L A) (k : A → M L B) t1 t2 tr :
  emits m t1 → (∀ a, emits (k a) t2) → tr = t1 ++ t2 → emits (bind m k) tr.
Proof.
  intros Hm Hk -> w b w'. unfold bind.
  destruct (m w) as [[a|e] w1] eqn:Hrun; [|done].
  intros Hk'. rewrite (Hk a w1 b w' Hk'), (Hm w a w1 Hrun). by rewrite app_assoc.
Qed.

Lemma emits_throw {A} e tr : emits (L := L) (@throw L A e) tr.
Proof. by intros w a w'. Qed.

Lemma emits_lift {A} (r : result A) : emits (L := L) (lift r) [].
Proof. intros w a w' [= -> <-]. by rewrite app_nil_r. Qed.

Lemma emits_lift_lib {A} (r : exn_kind + A) : emits (L := L) (lift_lib r) [].
Proof. destruct r; intros w a' w'; [done|]. intros [= <- <-]. by rewrite app_nil_r. Qed.

Lemma emits_lift_np {A} (r : exn_kind + A) : emits (L := L) (lift_np r) [].
Proof. destruct r; intros w a' w'; [done|]. intros [= <- <-]. by rewrite app_nil_r. Qed.

Lemma emits_alloc o : emits (L := L) (alloc o) [].
Proof. intros w a w' [= <- <-]. simpl. by rewrite app_nil_r. Qed.

Lemma emits_load l : emits (L := L) (load l) [].
Proof.
  intros w a w'. unfold load. destruct (heap w !! l); [|done].
  intros [= <- <-]. by rewrite app_nil_r.
Qed.

Lemma emits_store l o : emits (L := L) (store l o) [].
Proof.
  intros w a w'. unfold store. destruct (heap w !! l); [|done].
  intros [= <- <-]. simpl. by rewrite app_nil_r.
Qed.

Lemma emits_invoke {X} a (f : lib (LibState L) X) : emits (invoke a f) [a].
Proof.
  intros w x w'. unfold invoke. destruct (f (lib_state w)) as [[k|y] s]; [done|].
  by intros [= <- <-].
Qed.

Lemma emits_for_range (body : nat → M L unit) start n :
  (∀ i, emits (body i) []) → emits (for_range body start n) [].
Proof.
  intros Hb. revert start. induction n as [|n IH]; intros start; simpl.
  - apply emits_ret.
  - eapply emits_bind; [apply Hb | intros _; apply IH | done].
Qed.

Lemma emits_map_M {A B} (f : A → M L B) xs :
  (∀ x, emits (f x) []) → emits (map_M f xs) [].
Proof.
  intros Hf. induction xs as [|x xs IH]; simpl.
  - apply emits_ret.
  - eapply emits_bind; [apply Hf | intros y | done].
    eapply emits_bind; [apply IH | intros ys; apply emits_ret | done].
Qed.
End Emits.

Ltac emits_tac :=
  first
    [ apply emits_ret
    | apply emits_alloc
    | apply emits_load
    | apply emits_store
    | apply emits_invoke
    | apply emits_lift
    | apply emits_lift_lib
    | apply emits_lift_np
    | apply emits_throw
    | apply emits_map_M; intros ?; emits_tac
    | apply emits_for_range; intros ?; emits_tac
    | eapply emits_bind; [emits_tac | intros ?; emits_tac | reflexivity]
    | match goal with
      | |- emits (match ?x with _ => _ end) _ => destruct x; emits_tac
      | |- emits (let '(_, _) := ?x in _) _ => destruct x; emits_tac
      end ].

Section EmitsOperations.
Context {L : Library}.

Lemma emits_exec (op : operation) : emits (L := L) (exec op) (algorithms_of op).
Proof. destruct op; unfold_operations; simpl algorithms_of; emits_tac. Qed.
End EmitsOperations.

(** C5: a call of any operation leaves every object that existed before it
    as it was (the arrays of surfaces, the point coordinates, the label
    volumes, the reference images, and the tuples that hold them), and the
    object it returns is a new one. *)
Theorem operations_leave_inputs_untouched {L : Library} (op : operation) (w : world L) :
  (∀ l o, heap w !! l = Some o → heap (exec op w).2 !! l = Some o) ∧
  (∀ l, (exec op w).1 = Ok l → heap w !! l = None).
Proof.
  destruct (keeps_exec (dom (heap w)) op w) as [Hfr Hpost]; [done|]. split.
  - intros l o Hl. rewrite Hfr; [done|]. apply elem_of_dom. eauto.
  - intros l Hl. rewrite Hl in Hpost. by apply not_elem_of_dom.
Qed.

(** Scaling the triangle at 8 and marking the points at 0 on the image at 1
    leave the vertices at 5, the points and the image as they are. *)
Lemma operations_leave_inputs_untouched_witness :
  heap (exec (Isotropic_scale_surface 8 (PyFloat (Demo.fl 2))) Demo.w).2 !! 5
    = Demo.store !! 5 ∧
  heap (exec (Points_to_labels 0 1) Demo.w).2 !! 0 = Demo.store !! 0 ∧
  heap (exec (Points_to_labels 0 1) Demo.w).2 !! 1 = Demo.store !! 1.
Proof.
  split; [|split].
  - apply (operations_leave_inputs_untouched
             (Isotropic_scale_surface 8 (PyFloat (Demo.fl 2))) Demo.w).
    reflexivity.
  - apply (operations_leave_inputs_untouched (Points_to_labels 0 1) Demo.w).
    reflexivity.
  - apply (operations_leave_inputs_untouched (Points_to_labels 0 1) Demo.w).
    reflexivity.
Defined.

(** C7, as amended: a call that returns has invoked exactly one library
    algorithm, between the conversion of its input and the conversion of its
    output, except that [points_to_labels] and [isotropic_scale_surface]
    invoke none (they compute their result themselves),
    [surface_from_point_cloud_ball_pivoting] invokes two on the converted
    point cloud (normal estimation, then ball pivoting), and
    [largest_label_to_surface] invokes two ([regionprops], then marching
    cubes). *)
Theorem operations_invoke_listed_algorithms {L : Library} (op : operation)
    (w w' : world L) (l : loc) :
  exec op w = (Ok l, w') →
  calls w' = calls w ++ algorithms_of op ∧
  match op with
  | Points_to_labels _ _ | Isotropic_scale_surface _ _ => calls w' = calls w
  | Surface_from_point_cloud_ball_pivoting _ _ _ =>
      calls w' = calls w ++ [Alg_estimate_normals; Alg_create_from_point_cloud_ball_pivoting]
  | Largest_label_to_surface _ =>
      calls w' = calls w ++ [Alg_regionprops; Alg_marching_cubes]
  | _ => ∃ a, calls w' = calls w ++ [a]
  end.
Proof.
  intros Hrun. pose proof (emits_exec op w l w' Hrun) as Hcalls.
  split; [done|].
  destruct op; simpl in Hcalls; rewrite ?app_nil_r in Hcalls; eauto.
Qed.

(** The convex hull of the triangle at 8 invokes one algorithm. *)
Lemma operations_invoke_listed_algorithms_witness :
  calls (exec (Convex_hull 8) Demo.w).2 = [Alg_mesh_compute_convex_hull].
Proof.
  assert (∃ l w', exec (Convex_hull 8) Demo.w = (Ok l, w')) as (l & w' & Hrun).
  { eexists _, _. vm_compute. reflexivity. }
  rewrite Hrun.
  apply (operations_invoke_listed_algorithms (Convex_hull 8) Demo.w w' l Hrun).
Defined.

(** [points_to_labels] returns without a single library algorithm, and
    ball pivoting returns after two. *)
Lemma not_every_operation_invokes_one_algorithm :
  (is_ok (points_to_labels 0 1 Demo.w).1 = true ∧
   calls (points_to_labels 0 1 Demo.w).2 = []) ∧
  (is_ok (surface_from_point_cloud_ball_pivoting 11 (PyInt 5) (PyInt 0) Demo.w).1 = true ∧
   calls (surface_from_point_cloud_ball_pivoting 11 (PyInt 5) (PyInt 0) Demo.w).2 =
     [Alg_estimate_normals; Alg_create_from_point_cloud_ball_pivoting]).
Proof. vm_compute. done. Qed.


(** ** The conversions between surfaces and meshes *)

Lemma lookup_insert_fresh (h : gmap loc pyobj) l o x :
  h !! l = Some x → <[fresh (dom h) := o]> h !! l = Some x.
Proof.
  intros Hl. rewrite lookup_insert_ne; [done|].
  intros <-. by rewrite fresh_loc_None in Hl.
Qed.

Ltac lookup_tac :=
  first [ assumption
        | apply lookup_insert_eq
        | apply lookup_insert_fresh; lookup_tac ].

Lemma length_flatten3 {A} (vs : list (A * A * A)) : length (flatten3 vs) = 3 * length vs.
Proof. induction vs as [|[[x y] z] vs IH]; simpl in *; lia. Qed.

Lemma chunk3_flatten3 {A} (vs : list (A * A * A)) : chunk3 (flatten3 vs) = vs.
Proof. induction vs as [|[[x y] z] vs IH]; simpl in *; by f_equal. Qed.

Lemma flatten3_chunk3 {A} (n : nat) : ∀ xs : list A,
  length xs = 3 * n → flatten3 (chunk3 xs) = xs.
Proof.
  induction n as [|n IH]; intros xs Hlen.
  - by destruct xs.
  - destruct xs as [|x [|y [|z xs]]]; simpl in Hlen; try lia.
    simpl. do 3 f_equal. apply IH. lia.
Qed.

Lemma length_chunk3 {A} (n : nat) : ∀ xs : list A,
  length xs = 3 * n → length (chunk3 xs) = n.
Proof.
  induction n as [|n IH]; intros xs Hlen.
  - by destruct xs.
  - destruct xs as [|x [|y [|z xs]]]; simpl in Hlen; try lia.
    simpl. f_equal. apply IH. lia.
Qed.

Section Conversions.
Context {L : Library}.
Implicit Types (w : world L).

Lemma bind_ok {A B} (m : M L A) (k : A → M L B) w b w' :
  bind m k w = (Ok b, w') → ∃ a w1, m w = (Ok a, w1) ∧ k a w1 = (Ok b, w').
Proof. unfold bind. destruct (m w) as [[a|e] w1]; [eauto | done]. Qed.

Lemma bind_alloc {B} o (k : loc → M L B) w :
  bind (alloc o) k w =
    k (fresh (dom (heap w))) (set_heap w (<[fresh (dom (heap w)) := o]> (heap w))).
Proof. done. Qed.

Lemma invoke_ok {X} a (f : lib (LibState L) X) w x w' :
  invoke a f w = (Ok x, w') →
  ∃ st', f (lib_state w) = (inr x, st') ∧ w' = World (heap w) st' (calls w ++ [a]).
Proof.
  unfold invoke. destruct (f (lib_state w)) as [[k|y] st']; [done|].
  intros [= <- <-]. eauto.
Qed.

Lemma alloc_spec o w :
  ∃ l w',
    alloc o w = (Ok l, w') ∧
    heap w !! l = None ∧
    heap w' = <[l := o]> (heap w) ∧
    lib_state w' = lib_state w ∧ calls w' = calls w.
Proof.
  exists (fresh (dom (heap w))), (set_heap w (<[fresh (dom (heap w)) := o]> (heap w))).
  split; [done|]. split; [apply fresh_loc_None | done].
Qed.

(** [to_surface] always returns: a new tuple of three new arrays, the
    vertices and triangles of the mesh and as many ones as vertices. *)
Lemma to_surface_spec (mesh : TriangleMesh) w :
  ∃ l w',
    to_surface mesh w = (Ok l, w') ∧
    heap w !! l = None ∧
    surface_at (heap w') l =
      Some (ArrF (array_of_vectors (mesh_vertices mesh)),
            ArrI (array_of_vectors (mesh_triangles mesh)),
            Some (ArrF (np_ones (length (mesh_vertices mesh))))) ∧
    (∀ l0 o, heap w !! l0 = Some o → heap w' !! l0 = Some o) ∧
    lib_state w' = lib_state w ∧ calls w' = calls w.
Proof.
  unfold to_surface, to_numpy_d, to_numpy_i.
  destruct (alloc_spec (ArrF (array_of_vectors (mesh_vertices mesh))) w)
    as (l0 & w1 & R1 & N1 & H1 & S1 & C1).
  destruct (alloc_spec (ArrI (array_of_vectors (mesh_triangles mesh))) w1)
    as (l1 & w2 & R2 & N2 & H2 & S2 & C2).
  unfold bind at 1. rewrite R1. unfold bind at 1. rewrite R2.
  unfold bind at 1. rewrite get_shape_run.
  rewrite H1 in N2. apply lookup_insert_None in N2 as [N2 ?].
  assert (heap w2 !! l0 = Some (ArrF (array_of_vectors (mesh_vertices mesh)))) as ->
    by (rewrite H2, H1; by simplify_map_eq).
  cbn [shape array_of_vectors]. unfold bind at 1. cbn [lift].
  unfold bind at 1.
  match goal with
  | |- context [alloc ?o w2] =>
      destruct (alloc_spec o w2) as (l2 & w3 & R3 & N3 & H3 & S3 & C3)
  end.
  rewrite R3.
  destruct (alloc_spec (PyTuple [VRef l0; VRef l1; VRef l2]) w3)
    as (l3 & w4 & R4 & N4 & H4 & S4 & C4).
  rewrite R4.
  rewrite H3, H2, H1 in N4. rewrite H2, H1 in N3.
  repeat match goal with
         | H : <[_ := _]> _ !! _ = None |- _ => apply lookup_insert_None in H as [H ?]
         end.
  exists l3, w4.
  split; [done|]. split; [done|].
  split; [|split; [|split; congruence]].
  - unfold surface_at. rewrite H4, H3, H2, H1. by simplify_map_eq.
  - intros l o Hl. rewrite H4, H3, H2, H1.
    rewrite !lookup_insert_ne by congruence. done.
Qed.
End Conversions.

Section Returns.
Context {L : Library}.
Implicit Types (w : world L).

Lemma returns_bind {A B} (m : M L A) (k : A → M L B) Q :
  (∀ a, returns (k a) Q) → returns (bind m k) Q.
Proof.
  intros Hk w b w' Hrun. apply bind_ok in Hrun as (a & w1 & _ & Hrun).
  by apply (Hk a w1).
Qed.

Lemma returns_to_surface (mesh : TriangleMesh) :
  returns (L := L) (to_surface mesh)
    (λ l w', ∃ vs ts,
       surface_at (heap w') l =
         Some (ArrF (array_of_vectors vs), ArrI (array_of_vectors ts),
               Some (ArrF (np_ones (length vs))))).
Proof.
  intros w l w' Hrun.
  destruct (to_surface_spec mesh w) as (l0 & w0 & Hrun0 & _ & Hs & _).
  rewrite Hrun0 in Hrun. injection Hrun as <- <-. eauto.
Qed.

Lemma seq_getitem_run l k w :
  seq_getitem l k w =
    (match heap w !! l with
     | Some (PyTuple items | PyList items) =>
         match items !! k with
         | Some v => Ok v
         | None => Raise (Exn Interp IndexError)
         end
     | Some _ => Raise (Exn Interp TypeError)
     | None => Raise (Exn Interp RuntimeError)
     end, w).
Proof.
  cbv [seq_getitem bind load ret throw].
  destruct (heap w !! l) as [[a|a|items|items]|]; try done; by destruct (items !! k).
Qed.

Lemma to_vector_d_world v w : (to_vector_d v w).2 = w.
Proof.
  destruct v as [l|n]; [|done]. cbv [to_vector_d bind load ret throw].
  repeat case_match; simplify_eq; done.
Qed.

Lemma to_vector_i_world v w : (to_vector_i v w).2 = w.
Proof.
  destruct v as [l|n]; [|done]. cbv [to_vector_i bind load ret throw].
  repeat case_match; simplify_eq; done.
Qed.

(** [to_mesh] reads the first two components of the surface and nothing
    else of it. *)
Lemma to_mesh_run s w v f :
  vertices_faces (heap w) s = Some (v, f) →
  to_mesh s w =
    (match (to_vector_d v w).1 with
     | Ok vs =>
         match (to_vector_i f w).1 with
         | Ok ts => Ok {| mesh_vertices := vs; mesh_triangles := ts |}
         | Raise e => Raise e
         end
     | Raise e => Raise e
     end, w).
Proof.
  intros Hvf. unfold to_mesh. unfold bind at 1. rewrite seq_getitem_run.
  unfold vertices_faces in Hvf.
  pose proof (to_vector_d_world v w) as Hd. pose proof (to_vector_i_world f w) as Hi.
  destruct (heap w !! s) as [[?|?|[|v' [|f' rest]]|[|v' [|f' rest]]]|] eqn:Hs; try done;
    injection Hvf as -> ->; simpl;
    unfold bind at 1;
    (destruct (to_vector_d v w) as [[vs|e] w1]; simpl in *; subst w1; [|done]);
    unfold bind at 1; rewrite seq_getitem_run, Hs; simpl;
    unfold bind at 1;
    (destruct (to_vector_i f w) as [[ts|e] w1]; simpl in *; subst w1; done).
Qed.

Lemma to_mesh_same s s' w v f :
  vertices_faces (heap w) s = Some (v, f) →
  vertices_faces (heap w) s' = Some (v, f) →
  to_mesh s' w = to_mesh s w.
Proof. intros H H'. by rewrite (to_mesh_run _ _ _ _ H), (to_mesh_run _ _ _ _ H'). Qed.
End Returns.

(** C8: every surface-returning operation backed by open3d returns a tuple
    of three arrays whose third is all ones, one per returned vertex; and
    its outcome is the same for any two input surfaces with the same
    vertices and faces, whatever per-vertex values either carries: they are
    discarded. *)
Theorem open3d_surfaces_carry_ones {L : Library} (op : operation)
    (w w' : world L) (l : loc) :
  open3d_surface_op op = true →
  exec op w = (Ok l, w') →
  (∃ vs ts,
     surface_at (heap w') l =
       Some (ArrF (array_of_vectors vs), ArrI (array_of_vectors ts),
             Some (ArrF (np_ones (length vs))))) ∧
  (∀ s s' v f,
     surface_input op = Some s →
     vertices_faces (heap w) s = Some (v, f) →
     vertices_faces (heap w) s' = Some (v, f) →
     exec (with_surface op s') w = exec op w).
Proof.
  intros Hop Hrun. split.
  - revert Hrun. generalize w l w'.
    change (returns (L := L) (exec op)
              (λ l (w' : world L), ∃ vs ts,
                 surface_at (heap w') l =
                   Some (ArrF (array_of_vectors vs), ArrI (array_of_vectors ts),
                         Some (ArrF (np_ones (length vs)))))).
    destruct op; try discriminate Hop;
      cbv [exec convex_hull filter_smooth_simple filter_smooth_laplacian
           filter_smooth_taubin simplify_vertex_clustering
           simplify_quadric_decimation subdivide_loop
           points_to_convex_hull_surface surface_from_point_cloud_alpha_shape
           surface_from_point_cloud_ball_pivoting];
      repeat lazymatch goal with
             | |- returns (bind _ _) _ => apply returns_bind; intros ?
             | |- returns (let '(_, _) := ?x in _) _ => destruct x
             end;
      apply returns_to_surface.
  - intros s s' v f Hs Hvf Hvf'.
    destruct op; try discriminate Hop; try discriminate Hs;
      injection Hs as ->;
      cbv [exec with_surface convex_hull filter_smooth_simple filter_smooth_laplacian
           filter_smooth_taubin simplify_vertex_clustering
           simplify_quadric_decimation subdivide_loop];
      unfold bind at 1 3; by rewrite (to_mesh_same _ _ _ _ _ Hvf Hvf').
Qed.

(** The convex hull of the triangle at 8, which carries the values
    (4, 5, 6), returns the values (1, 1, 1). *)
Lemma open3d_surfaces_carry_ones_witness :
  ∃ l w' vs ts,
    exec (Convex_hull 8) Demo.w = (Ok l, w') ∧
    surface_at (heap w') l =
      Some (ArrF (array_of_vectors vs), ArrI (array_of_vectors ts),
            Some (ArrF (np_ones (length vs)))).
Proof.
  assert (∃ l w', exec (Convex_hull 8) Demo.w = (Ok l, w')) as (l & w' & Hrun).
  { eexists _, _. vm_compute. reflexivity. }
  destruct (open3d_surfaces_carry_ones (Convex_hull 8) Demo.w w' l eq_refl Hrun)
    as [(vs & ts & Hs) _].
  by exists l, w', vs, ts.
Defined.

(** ** The round trip through the library's containers *)

Lemma wrap32_id z : int32_range z → wrap32 z = z.
Proof.
  unfold int32_range, wrap32. intros Hz.
  rewrite Z.mod_small; lia.
Qed.

Lemma fmap_wrap32_id zs : Forall int32_range zs → wrap32 <$> zs = zs.
Proof.
  induction 1 as [|z zs Hz _ IH]; [done|].
  rewrite fmap_cons. by rewrite wrap32_id, IH.
Qed.

Lemma array_of_vectors_chunk3 {A} (a : ndarray A) n :
  shape a = [n; 3] → wf_array a → array_of_vectors (chunk3 (data a)) = a.
Proof.
  destruct a as [sh xs]. unfold wf_array. simpl. intros -> Hlen. simpl in Hlen.
  unfold array_of_vectors.
  rewrite (length_chunk3 n), (flatten3_chunk3 n) by lia. done.
Qed.

(** C4, as amended: for an [(n, 3)] array of float64 vertex coordinates and
    an [(m, 3)] array of faces whose entries fit the 32-bit signed integers
    the library's vector of triangles holds, [to_mesh] followed by
    [to_surface] returns new arrays equal to the vertex array and to the
    face array (with a third array of [n] ones); and [to_vector_d] followed
    by [to_numpy] returns a new array equal to the coordinate array. *)
Theorem mesh_conversion_round_trip {L : Library} (w : world L) (s lv lf : loc)
    (v : ndarray float) (f : ndarray Z) (n m : nat) :
  vertices_faces (heap w) s = Some (VRef lv, VRef lf) →
  heap w !! lv = Some (ArrF v) → shape v = [n; 3] → wf_array v →
  heap w !! lf = Some (ArrI f) → shape f = [m; 3] → wf_array f →
  Forall int32_range (data f) →
  (∃ mesh l w',
     to_mesh s w = (Ok mesh, w) ∧
     to_surface mesh w = (Ok l, w') ∧
     heap w !! l = None ∧
     surface_at (heap w') l = Some (ArrF v, ArrI f, Some (ArrF (np_ones n)))) ∧
  (∃ vs l w',
     to_vector_d (VRef lv) w = (Ok vs, w) ∧
     to_numpy_d vs w = (Ok l, w') ∧
     heap w !! l = None ∧
     heap w' !! l = Some (ArrF v)).
Proof.
  intros Hvf Hv Hshv Hwfv Hf Hshf Hwff Hrange.
  assert (to_vector_d (VRef lv) w = (Ok (chunk3 (data v)), w)) as Hd.
  { cbv [to_vector_d bind load]. rewrite Hv. destruct v as [shv xs].
    simpl in Hshv. by subst shv. }
  assert (to_vector_i (VRef lf) w = (Ok (chunk3 (wrap32 <$> data f)), w)) as Hi.
  { cbv [to_vector_i bind load]. rewrite Hf. destruct f as [shf ys].
    simpl in Hshf. by subst shf. }
  split.
  - set (mesh := {| mesh_vertices := chunk3 (data v);
                    mesh_triangles := chunk3 (wrap32 <$> data f) |}).
    destruct (to_surface_spec mesh w) as (l & w' & Hrun & Hnew & Hs & _).
    exists mesh, l, w'. split; [|split; [done|split; [done|]]].
    + rewrite (to_mesh_run _ _ _ _ Hvf), Hd, Hi. done.
    + assert (length (mesh_vertices mesh) = n) as Hlen.
      { apply (length_chunk3 n). unfold wf_array in Hwfv.
        rewrite Hshv in Hwfv. simpl in Hwfv. lia. }
      rewrite Hs, Hlen. simpl. rewrite (fmap_wrap32_id _ Hrange).
      by rewrite (array_of_vectors_chunk3 v n), (array_of_vectors_chunk3 f m).
  - destruct (alloc_spec (ArrF (array_of_vectors (chunk3 (data v)))) w)
      as (l & w' & Hrun & Hnew & Hh & _).
    exists (chunk3 (data v)), l, w'. split; [done|]. split; [done|]. split; [done|].
    rewrite Hh, lookup_insert_eq. by rewrite (array_of_vectors_chunk3 v n).
Qed.

(** The triangle at 8: its vertices at 5 and its faces at 6 come back. *)
Lemma mesh_conversion_round_trip_witness :
  ∃ mesh l w',
    to_mesh 8 Demo.w = (Ok mesh, Demo.w) ∧
    to_surface mesh Demo.w = (Ok l, w') ∧
    surface_at (heap w') l =
      Some (ArrF Demo.triangle_vertices, ArrI Demo.triangle_faces, Some (ArrF (np_ones 3))).
Proof.
  destruct (mesh_conversion_round_trip Demo.w 8 5 6
              Demo.triangle_vertices Demo.triangle_faces 3 1)
    as [(mesh & l & w' & Hm & Hs & _ & Hat) _].
  - reflexivity.
  - reflexivity.
  - reflexivity.
  - reflexivity.
  - reflexivity.
  - reflexivity.
  - reflexivity.
  - repeat constructor; unfold int32_range; lia.
  - exists mesh, l, w'. split; [exact Hm|]. split; [exact Hs|]. exact Hat.
Defined.

(** A face array with the index 2^31: the mesh holds it as -2^31, and so
    does the face array that comes back. *)
Lemma face_index_beyond_int32_does_not_round_trip :
  Demo.store !! 9 = Some (ArrI (NDArray [1; 3] [0; 1; 2147483648]%Z)) ∧
  vertices_faces Demo.store 10 = Some (VRef 5, VRef 9) ∧
  match to_mesh 10 Demo.w with
  | (Ok mesh, w1) =>
      match to_surface mesh w1 with
      | (Ok l, w') => (λ x, x.1.2) <$> surface_at (heap w') l
      | _ => None
      end
  | _ => None
  end = Some (ArrI (NDArray [1; 3] [0; 1; -2147483648]%Z)).
Proof. vm_compute. done. Qed.


(** ** The invariant of surfaces *)

Lemma forallb_flatten3 (n : nat) (ts : list Vector3i) :
  forallb (λ t, let '(a, b, c) := t in index_below n a && index_below n b && index_below n c) ts
    = true →
  forallb (index_below n) (flatten3 ts) = true.
Proof.
  induction ts as [|[[a b] c] ts IH]; simpl; [done|].
  intros H. apply andb_prop in H as [H Hts]. apply andb_prop in H as [H Hc].
  apply andb_prop in H as [Ha Hb]. rewrite Ha, Hb, Hc. simpl. by apply IH.
Qed.

Section Validity.
Context {L : Library}.
Implicit Types (w : world L).

Lemma alloc_ok o w l w' :
  alloc o w = (Ok l, w') →
  heap w !! l = None ∧ w' = set_heap w (<[l := o]> (heap w)).
Proof. intros [= <- <-]. split; [apply fresh_loc_None | done]. Qed.

Lemma load_ok l w o w' : load l w = (Ok o, w') → heap w !! l = Some o ∧ w' = w.
Proof. unfold load. destruct (heap w !! l); [|done]. by intros [= <- <-]. Qed.

Lemma items_of_ok l w items w' :
  items_of l w = (Ok items, w') →
  (heap w !! l = Some (PyTuple items) ∨ heap w !! l = Some (PyList items)) ∧ w' = w.
Proof.
  cbv [items_of bind load ret throw].
  destruct (heap w !! l) as [[| |xs|xs]|]; try done; intros [= <- <-]; eauto.
Qed.

Lemma seq_getitem_ok l k w v w' :
  seq_getitem l k w = (Ok v, w') →
  (∃ items, (heap w !! l = Some (PyTuple items) ∨ heap w !! l = Some (PyList items)) ∧
            items !! k = Some v) ∧ w' = w.
Proof.
  rewrite seq_getitem_run.
  destruct (heap w !! l) as [[| |xs|xs]|]; try done;
    (destruct (xs !! k) eqn:Hk; [|done]); intros [= <- <-]; eauto.
Qed.

Lemma seq_setitem_ok l k v w w' :
  seq_setitem l k v w = (Ok tt, w') →
  ∃ items, heap w !! l = Some (PyList items) ∧
           w' = set_heap w (<[l := PyList (<[k := v]> items)]> (heap w)).
Proof.
  cbv [seq_setitem bind load store throw].
  destruct (heap w !! l) as [[| |xs|xs]|] eqn:Hl; try done.
  case_bool_decide; [|done]. rewrite Hl. intros [= <-]. eauto.
Qed.

(** The product of an array and a number is a new array of the same
    length. *)
Lemma py_mul_array lv sf w v n scaled w' :
  heap w !! lv = Some v → len_of v = Some n →
  py_mul (VRef lv) sf w = (Ok scaled, w') →
  ∃ r v', scaled = VRef r ∧ heap w !! r = None ∧
          w' = set_heap w (<[r := v']> (heap w)) ∧ len_of v' = Some n.
Proof.
  intros Hv Hn. cbv [py_mul bind load]. rewrite Hv.
  destruct v as [a|a| |]; try done.
  - cbv [lift]. destruct (num_to_float sf) as [s|]; [|done].
    cbv [alloc ret]. intros [= <- <-].
    eexists _, _. split; [done|]. split; [apply fresh_loc_None|]. done.
  - destruct sf as [k|s].
    + case_bool_decide; [|done]. cbv [alloc ret]. intros [= <- <-].
      eexists _, _. split; [done|]. split; [apply fresh_loc_None|]. done.
    + cbv [alloc ret]. intros [= <- <-].
      eexists _, _. split; [done|]. split; [apply fresh_loc_None|]. done.
Qed.

Lemma surface_at_inv h s v f x :
  surface_at h s = Some (v, f, x) →
  ∃ lv lf rest,
    (h !! s = Some (PyTuple (VRef lv :: VRef lf :: rest)) ∨
     h !! s = Some (PyList (VRef lv :: VRef lf :: rest))) ∧
    h !! lv = Some v ∧ h !! lf = Some f.
Proof.
  unfold surface_at.
  destruct (h !! s) as [[| |[|[lv|] [|[lf|] rest]]|[|[lv|] [|[lf|] rest]]]|]; try done;
    (destruct (h !! lv) as [v'|] eqn:Hv; [|done]);
    (destruct (h !! lf) as [f'|] eqn:Hf; [|done]);
    intros [= <- <- <-]; eauto 10.
Qed.

Lemma valid_surface_inv h s :
  valid_surface h s = true →
  ∃ v f x n, surface_at h s = Some (v, f, x) ∧ len_of v = Some n ∧
             faces_in_range f n = true.
Proof.
  unfold valid_surface. destruct (surface_at h s) as [[[v f] x]|]; [|done].
  destruct (len_of v) as [n|] eqn:Hn; [|done]. eauto 10.
Qed.

Lemma valid_surface_intro h s lv lf rest v f n :
  h !! s = Some (PyTuple (VRef lv :: VRef lf :: rest)) →
  h !! lv = Some v → h !! lf = Some f →
  len_of v = Some n → faces_in_range f n = true →
  valid_surface h s = true.
Proof.
  intros Hs Hv Hf Hn Hr. unfold valid_surface, surface_at.
  by rewrite Hs, Hv, Hf, Hn.
Qed.

(** [isotropic_scale_surface] keeps a valid surface valid, whatever the
    scale factor. *)
Lemma isotropic_scale_surface_valid s sf w l w' :
  valid_surface (heap w) s = true →
  isotropic_scale_surface s sf w = (Ok l, w') →
  valid_surface (heap w') l = true.
Proof.
  intros Hvalid Hrun.
  apply valid_surface_inv in Hvalid as (v & f & x & n & Hat & Hn & Hr).
  apply surface_at_inv in Hat as (lv & lf & rest & Hs & Hv & Hf).
  unfold isotropic_scale_surface in Hrun.
  apply bind_ok in Hrun as (items & w0 & Hitems & Hrun).
  apply items_of_ok in Hitems as [Hitems ->].
  assert (items = VRef lv :: VRef lf :: rest) as -> by (destruct Hs, Hitems; congruence).
  apply bind_ok in Hrun as (l1 & w1 & Hl1 & Hrun).
  apply alloc_ok in Hl1 as [Hl1 ->].
  apply bind_ok in Hrun as (r0 & w2 & Hr0 & Hrun).
  apply seq_getitem_ok in Hr0 as [(items & Hitems' & Hr0) ->].
  simpl in Hitems'. rewrite lookup_insert_eq in Hitems'.
  assert (items = VRef lv :: VRef lf :: rest) as -> by (destruct Hitems'; congruence).
  injection Hr0 as <-.
  apply bind_ok in Hrun as (scaled & w3 & Hmul & Hrun).
  assert (l1 ≠ lv) by congruence. assert (l1 ≠ lf) by congruence.
  eapply py_mul_array in Hmul as (r & v' & -> & Hnew & -> & Hn'); [| |exact Hn].
  2:{ simpl. by rewrite lookup_insert_ne. }
  simpl in Hnew. apply lookup_insert_None in Hnew as [Hnew ?].
  assert (r ≠ lf) by congruence.
  apply bind_ok in Hrun as ([] & w4 & Hset & Hrun).
  apply seq_setitem_ok in Hset as (items & Hitems'' & ->).
  simpl in Hitems''. rewrite lookup_insert_ne, lookup_insert_eq in Hitems'' by done.
  injection Hitems'' as <-. simpl in Hrun.
  apply bind_ok in Hrun as (items & w5 & Hitems'' & Hrun).
  apply items_of_ok in Hitems'' as [Hitems'' ->].
  simpl in Hitems''. rewrite lookup_insert_eq in Hitems''.
  assert (items = VRef r :: VRef lf :: rest) as -> by (destruct Hitems''; congruence).
  apply alloc_ok in Hrun as [Hl ->]. simpl in Hl.
  repeat match type of Hl with
         | <[_ := _]> _ !! _ = None => apply lookup_insert_None in Hl as [Hl ?]
         end.
  assert (l ≠ lf) by congruence.
  eapply (valid_surface_intro _ _ r lf rest v' f n); simpl; [| | |done|done].
  - apply lookup_insert_eq.
  - by simplify_map_eq.
  - by simplify_map_eq.
Qed.

Lemma to_surface_valid (mesh : TriangleMesh) w :
  mesh_valid mesh = true →
  ∃ l w', to_surface mesh w = (Ok l, w') ∧ valid_surface (heap w') l = true.
Proof.
  intros Hvalid.
  destruct (to_surface_spec mesh w) as (l & w' & Hrun & _ & Hs & _).
  exists l, w'. split; [done|]. unfold valid_surface. rewrite Hs. simpl.
  by apply forallb_flatten3.
Qed.

Lemma lift_ok {A} (r : result A) w a w' : lift r w = (Ok a, w') → r = Ok a ∧ w' = w.
Proof. by intros [= -> <-]. Qed.

Lemma lift_lib_ok {A} (r : exn_kind + A) w a w' :
  lift_lib r w = (Ok a, w') → r = inr a ∧ w' = w.
Proof. destruct r; [done|]. by intros [= <- <-]. Qed.

Lemma forallb_concat n (rows : list (list Z)) :
  Forall (Forall (λ z, index_below n z = true)) rows →
  forallb (index_below n) (concat rows) = true.
Proof.
  induction 1 as [|r rows Hr _ IH]; simpl; [done|].
  rewrite forallb_app, IH, andb_true_r.
  apply forallb_forall. intros z Hz. rewrite Forall_forall in Hr.
  by apply Hr, list_elem_of_In.
Qed.

Lemma asarray_rows_in_range rows fo n :
  Forall (Forall (λ z, index_below n z = true)) rows →
  asarray_rows rows = Ok fo → faces_in_range fo n = true.
Proof.
  intros Hrows. unfold asarray_rows. destruct rows as [|r rows]; [by intros [= <-]|].
  case_match; [|done]. destruct (length r); intros [= <-]; [done|].
  by apply (forallb_concat n (r :: rows)).
Qed.

(** [fill_holes] keeps a valid surface valid when vedo does. *)
Lemma fill_holes_valid s z w l w' :
  keeps_meshes_valid L →
  valid_surface (heap w) s = true →
  fill_holes s z w = (Ok l, w') →
  valid_surface (heap w') l = true.
Proof.
  intros [_ Hlib] Hvalid Hrun.
  pose proof Hvalid as Hvalid'.
  apply valid_surface_inv in Hvalid' as (v & f & x & n & Hat & Hn & Hr).
  pose proof Hat as Hat'.
  apply surface_at_inv in Hat' as (lv & lf & rest & Hs & Hv & Hf).
  unfold fill_holes in Hrun.
  apply bind_ok in Hrun as (s0 & w0 & Hs0 & Hrun).
  apply seq_getitem_ok in Hs0 as [(items & Hitems & Hs0) ->].
  assert (items = VRef lv :: VRef lf :: rest) as -> by (destruct Hs, Hitems; congruence).
  injection Hs0 as <-.
  apply bind_ok in Hrun as (s1 & w0 & Hs1 & Hrun).
  apply seq_getitem_ok in Hs1 as [(items & Hitems' & Hs1) ->].
  assert (items = VRef lv :: VRef lf :: rest) as -> by (destruct Hs, Hitems'; congruence).
  injection Hs1 as <-.
  apply bind_ok in Hrun as (o0 & w0 & Ho0 & Hrun).
  apply load_ok in Ho0 as [Ho0 ->].
  apply bind_ok in Hrun as (o1 & w0 & Ho1 & Hrun).
  apply load_ok in Ho1 as [Ho1 ->].
  assert (o0 = v) as -> by congruence. assert (o1 = f) as -> by congruence.
  apply bind_ok in Hrun as (mesh & w0 & Hmesh & Hrun).
  apply lift_lib_ok in Hmesh as [Hmesh ->].
  apply bind_ok in Hrun as (mesh' & w1 & Hfill & Hrun).
  apply invoke_ok in Hfill as (st' & Hfill & ->).
  destruct (Hlib mesh mesh' z _ _ ltac:(by exists (heap w), s, v, f, x) Hfill)
    as (n' & sh & Hshape & Hfaces).
  apply bind_ok in Hrun as (lp & w2 & Hlp & Hrun).
  apply alloc_ok in Hlp as [Hlp ->].
  apply bind_ok in Hrun as (fo & w3 & Hfo & Hrun).
  apply lift_ok in Hfo as [Hfo ->].
  apply bind_ok in Hrun as (lfo & w4 & Hlfo & Hrun).
  apply alloc_ok in Hlfo as [Hlfo ->].
  apply alloc_ok in Hrun as [Hl ->].
  simpl in *.
  repeat match goal with
         | H : <[_ := _]> _ !! _ = None |- _ => apply lookup_insert_None in H as [H ?]
         end.
  eapply (valid_surface_intro _ _ lp lfo [] (ArrF (vedo_points L mesh')) fo n'); simpl.
  - apply lookup_insert_eq.
  - by simplify_map_eq.
  - by simplify_map_eq.
  - by rewrite Hshape.
  - by eapply asarray_rows_in_range.
Qed.

(** The open3d mesh operations keep a valid surface valid when open3d
    does. *)
Lemma mesh_operation_valid (op : operation) s w l w' :
  keeps_meshes_valid L →
  open3d_surface_op op = true →
  surface_input op = Some s →
  valid_surface (heap w) s = true →
  exec op w = (Ok l, w') →
  valid_surface (heap w') l = true.
Proof.
  intros [Hlib _] Hop Hs Hvalid Hrun.
  destruct op; try discriminate Hop; try discriminate Hs; injection Hs as ->;
    cbv [exec convex_hull filter_smooth_simple filter_smooth_laplacian
         filter_smooth_taubin simplify_vertex_clustering
         simplify_quadric_decimation subdivide_loop] in Hrun;
    apply bind_ok in Hrun as (mesh & w1 & Hmesh & Hrun);
    apply bind_ok in Hrun as (r & w2 & Hinv & Hrun);
    apply invoke_ok in Hinv as (st' & Hinv & ->);
    try destruct r as [out x];
    match type of Hrun with
    | to_surface ?out ?w2 = _ =>
        assert (mesh_valid out = true) as Hout
          by (apply (Hlib mesh); [by exists w, w1, s | eexists _, _; eauto 12]);
        destruct (to_surface_valid out w2 Hout)
          as (l0 & w0 & Hrun0 & Hvalid0);
        rewrite Hrun0 in Hrun; by injection Hrun as <- <-
    end.
Qed.
End Validity.

Lemma demo_tidy_valid (m : TriangleMesh) : mesh_valid (Demo.tidy m) = true.
Proof.
  unfold mesh_valid, Demo.tidy. simpl. apply forallb_forall.
  intros t Ht. apply list_elem_of_In, list_elem_of_filter in Ht as [Ht _].
  by apply Is_true_true.
Qed.

Lemma demo_library_keeps_meshes_valid : keeps_meshes_valid Demo.library.
Proof.
  split.
  - intros mesh out _ (st & st' & H). simpl in H.
    destruct H as [[x H]|[[n H]|[[n H]|[[n H]|[[v H]|[[n H]|[n H]]]]]]];
      injection H as <-; apply demo_tidy_valid.
  - intros mesh out z st st' (h & s & o0 & o1 & x & Hvalid & Hat & Hmesh) Hfill.
    simpl in *. injection Hfill as <- _.
    apply valid_surface_inv in Hvalid as (v & f & x' & n & Hat' & Hn & _).
    rewrite Hat in Hat'. injection Hat' as <- <- <-.
    unfold Demo.vedo_mesh_of in Hmesh.
    destruct o0 as [a| | |]; try done. destruct o1 as [|b| |]; try done.
    injection Hmesh as <-. simpl in Hn.
    unfold vedo_valid, Demo.vedo_tidy. simpl.
    destruct (shape a) as [|n0 sh] eqn:Hsh; [done|]. simpl.
    exists n0, sh. split; [done|].
    apply Forall_forall. intros r Hr. apply list_elem_of_filter in Hr as [Hr _].
    apply Is_true_true in Hr. apply Forall_forall. intros z' Hz.
    rewrite forallb_forall in Hr. apply Hr. by apply list_elem_of_In.
Qed.

(** C3: every operation that takes a surface and returns one returns a
    surface whose face indices are indices into its vertices when it is given
    such a surface -- provided open3d and vedo return such meshes for the
    meshes of such surfaces, which is all the wrapped operations add to them;
    [isotropic_scale_surface] does so for every scale factor, by itself; and
    [to_surface] returns such a surface for every mesh whose triangles index
    its vertices. *)
Theorem surfaces_stay_valid {L : Library} :
  (keeps_meshes_valid L →
   ∀ (op : operation) (s : loc) (w w' : world L) (l : loc),
     surface_input op = Some s →
     valid_surface (heap w) s = true →
     exec op w = (Ok l, w') →
     valid_surface (heap w') l = true) ∧
  (∀ (s : loc) (scale_factor : number) (w w' : world L) (l : loc),
     valid_surface (heap w) s = true →
     isotropic_scale_surface s scale_factor w = (Ok l, w') →
     valid_surface (heap w') l = true) ∧
  (∀ (mesh : TriangleMesh) (w : world L),
     mesh_valid mesh = true →
     ∃ l w', to_surface mesh w = (Ok l, w') ∧ valid_surface (heap w') l = true).
Proof.
  split; [|split].
  - intros Hlib op s w w' l Hs Hvalid Hrun.
    destruct (open3d_surface_op op) eqn:Hop.
    + by eapply mesh_operation_valid.
    + destruct op; try discriminate Hop; try discriminate Hs; injection Hs as ->.
      * by eapply fill_holes_valid.
      * by eapply isotropic_scale_surface_valid.
  - intros s sf w w' l. apply isotropic_scale_surface_valid.
  - intros mesh w. apply to_surface_valid.
Qed.

(** Smoothing and scaling the triangle at 8. *)
Lemma surfaces_stay_valid_witness :
  valid_surface Demo.store 8 = true ∧
  (∃ l w', exec (Filter_smooth_simple 8 1) Demo.w = (Ok l, w') ∧
           valid_surface (heap w') l = true) ∧
  (∃ l w', isotropic_scale_surface 8 (PyFloat (Demo.fl 2)) Demo.w = (Ok l, w') ∧
           valid_surface (heap w') l = true).
Proof.
  destruct (@surfaces_stay_valid Demo.library) as (Hop & Hscale & _).
  split; [reflexivity|]. split.
  - assert (∃ l w', exec (Filter_smooth_simple 8 1) Demo.w = (Ok l, w')) as (l & w' & Hrun).
    { eexists _, _. vm_compute. reflexivity. }
    exists l, w'. split; [exact Hrun|].
    apply (Hop demo_library_keeps_meshes_valid (Filter_smooth_simple 8 1) 8 Demo.w w' l
             eq_refl eq_refl Hrun).
  - assert (∃ l w', isotropic_scale_surface 8 (PyFloat (Demo.fl 2)) Demo.w = (Ok l, w'))
      as (l & w' & Hrun).
    { eexists _, _. vm_compute. reflexivity. }
    exists l, w'. split; [exact Hrun|].
    apply (Hscale 8 _ Demo.w w' l eq_refl Hrun).
Defined.


(** ** Isotropic scaling *)

(** Multiplying a binary64 number by 1.0 is exact. *)
Lemma float_mul_one (x : float) :
  Float64.valid x = true → Float64.mul x Float64.one = x.
Proof.
  destruct x as [s|s| |s m e]; simpl; intros Hvalid.
  - by rewrite xorb_false_r.
  - by rewrite xorb_false_r.
  - done.
  - unfold Float64.valid, valid_binary, bounded, canonical_mantissa in Hvalid.
    apply andb_prop in Hvalid as [Hcanon Hbound].
    apply Z.eqb_eq in Hcanon. apply Z.leb_le in Hbound.
    rewrite xorb_false_r.
    rewrite !Pos.mul_xO_r, Pos.mul_1_r.
    unfold binary_round_aux, shr_fexp.
    match goal with
    | |- context [(Zdigits2 (Zpos ?M) + (e + -52))%Z] =>
        replace (Zdigits2 (Zpos M) + (e + -52))%Z with (Zpos (digits2_pos m) + e)%Z
          by (simpl; rewrite !Pos2Z.inj_succ; lia)
    end.
    rewrite Hcanon.
    replace (e - (e + -52))%Z with 52%Z by lia.
    cbn [shr shr_record_of_loc SpecFloat.iter_pos shr_1 orb shr_m shr_r shr_s loc_of_shr_record
         round_nearest_even Zdigits2].
    replace (e + -52 + 52)%Z with e by lia.
    rewrite Hcanon, Z.sub_diag. cbn [shr shr_m].
    unfold Float64.emax, Float64.prec in *.
    apply Z.leb_le in Hbound. by rewrite Hbound.
Qed.

Lemma fmap_float_mul_one (xs : list float) :
  Forall (λ x, Float64.valid x = true) xs →
  (λ x, Float64.mul x Float64.one) <$> xs = xs.
Proof.
  induction 1 as [|x xs Hx _ IH]; [done|].
  rewrite fmap_cons. by rewrite float_mul_one, IH.
Qed.

(** C10, as amended: for a surface whose first component is an array of float
    coordinates and a scale factor [s], [isotropic_scale_surface] returns a
    new tuple whose first component is a new array, each coordinate times
    [s], and whose other components are those of the input, which stay as
    they are, as every object that existed; with the scale factor 1 the new
    array equals the vertex array, so the surface returned equals its
    input. *)
Theorem isotropic_scale_surface_scales {L : Library} (w : world L) (s lv : loc)
    (rest : list pyval) (v : ndarray float) (scale_factor : number) (k : float) :
  heap w !! s = Some (PyTuple (VRef lv :: rest)) ∨
    heap w !! s = Some (PyList (VRef lv :: rest)) →
  heap w !! lv = Some (ArrF v) →
  num_to_float scale_factor = Ok k →
  ∃ l lv' w',
    isotropic_scale_surface s scale_factor w = (Ok l, w') ∧
    heap w !! l = None ∧
    heap w !! lv' = None ∧
    heap w' !! l = Some (PyTuple (VRef lv' :: rest)) ∧
    heap w' !! lv' =
      Some (ArrF (NDArray (shape v) ((λ x, Float64.mul x k) <$> data v))) ∧
    (∀ l0 o, heap w !! l0 = Some o → heap w' !! l0 = Some o) ∧
    (k = Float64.one →
     Forall (λ x, Float64.valid x = true) (data v) →
     heap w' !! lv' = Some (ArrF v)).
Proof.
  intros Hs Hv Hk.
  set (scaled := ArrF (NDArray (shape v) ((λ x, Float64.mul x k) <$> data v))).
  destruct (alloc_spec (PyList (VRef lv :: rest)) w) as (l1 & w1 & R1 & N1 & H1 & _).
  destruct (alloc_spec scaled w1) as (l2 & w2 & R2 & N2 & H2 & _).
  set (w3 := set_heap w2 (<[l1 := PyList (VRef l2 :: rest)]> (heap w2))).
  destruct (alloc_spec (PyTuple (VRef l2 :: rest)) w3) as (l3 & w4 & R4 & N4 & H4 & _).
  assert (l1 ≠ lv) by congruence.
  assert (items_of s w = (Ok (VRef lv :: rest), w)) as Ritems.
  { cbv [items_of bind load ret]. by destruct Hs as [-> | ->]. }
  assert (heap w1 !! l1 = Some (PyList (VRef lv :: rest))) as Hl1
    by (rewrite H1; apply lookup_insert_eq).
  assert (seq_getitem l1 0 w1 = (Ok (VRef lv), w1)) as Rget
    by (by rewrite seq_getitem_run, Hl1).
  assert (py_mul (VRef lv) scale_factor w1 = (Ok (VRef l2), w2)) as Rmul.
  { cbv [py_mul bind load lift]. rewrite H1, lookup_insert_ne, Hv, Hk by done.
    fold scaled. by rewrite R2. }
  assert (heap w2 !! l1 = Some (PyList (VRef lv :: rest))) as Hl1'.
  { rewrite H2, lookup_insert_ne; [done|]. intros <-. congruence. }
  assert (seq_setitem l1 0 (VRef l2) w2 = (Ok tt, w3)) as Rset.
  { cbv [seq_setitem bind load store]. rewrite Hl1'. simpl. by rewrite Hl1'. }
  assert (heap w3 !! l1 = Some (PyList (VRef l2 :: rest))) as Hl1''
    by (simpl; apply lookup_insert_eq).
  assert (isotropic_scale_surface s scale_factor w = (Ok l3, w4)) as Hrun.
  { unfold isotropic_scale_surface.
    unfold bind at 1. rewrite Ritems. unfold bind at 1. rewrite R1.
    unfold bind at 1. rewrite Rget.
    unfold bind at 1. rewrite Rmul. unfold bind at 1. rewrite Rset.
    unfold bind at 1. cbv [items_of bind load ret]. by rewrite Hl1''. }
  assert (heap w4 = <[l3 := PyTuple (VRef l2 :: rest)]>
                      (<[l1 := PyList (VRef l2 :: rest)]>
                         (<[l2 := scaled]> (<[l1 := PyList (VRef lv :: rest)]> (heap w)))))
    as Hh by (rewrite H4; simpl; by rewrite H2, H1).
  simpl in N4. rewrite H2, H1 in N4. rewrite H1 in N2.
  repeat match goal with
         | H : <[_ := _]> _ !! _ = None |- _ => apply lookup_insert_None in H as [H ?]
         end.
  assert (heap w4 !! l2 = Some scaled) as Hl2 by (rewrite Hh; by simplify_map_eq).
  exists l3, l2, w4.
  split; [done|]. split; [done|]. split; [done|].
  split; [rewrite Hh; by simplify_map_eq|]. split; [done|]. split.
  - intros l0 o Hl0. rewrite Hh. rewrite !lookup_insert_ne by congruence. done.
  - intros -> Hvalid. rewrite Hl2. unfold scaled.
    rewrite fmap_float_mul_one by done. by destruct v.
Qed.

(** The triangle at 8 scaled by 1: the vertices returned are the vertices
    at 5. *)
Lemma isotropic_scale_surface_scales_witness :
  ∃ l lv' w',
    isotropic_scale_surface 8 (PyInt 1) Demo.w = (Ok l, w') ∧
    heap w' !! l = Some (PyTuple [VRef lv'; VRef 6; VRef 7]) ∧
    heap w' !! lv' = Some (ArrF Demo.triangle_vertices).
Proof.
  destruct (isotropic_scale_surface_scales Demo.w 8 5 [VRef 6; VRef 7]
              Demo.triangle_vertices (PyInt 1) Float64.one)
    as (l & lv' & w' & Hrun & _ & _ & Hl & _ & _ & Hone).
  - left. reflexivity.
  - reflexivity.
  - reflexivity.
  - exists l, lv', w'. split; [exact Hrun|]. split; [exact Hl|].
    apply Hone; [reflexivity|]. repeat constructor.
Defined.

(** ** The largest label *)

Lemma argmax_from_spec (xs pre : list Z) (best_i : nat) (best : Z) :
  pre !! best_i = Some best →
  (∀ y, y ∈ pre → (y ≤ best)%Z) →
  ∃ m, (pre ++ xs) !! argmax_from best_i best (length pre) xs = Some m ∧
       ∀ y, y ∈ pre ++ xs → (y ≤ m)%Z.
Proof.
  revert pre best_i best. induction xs as [|x xs IH]; intros pre best_i best Hbest Hmax.
  - simpl. rewrite app_nil_r. eauto.
  - simpl. case_bool_decide as Hlt.
    + destruct (IH (pre ++ [x]) (length pre) x) as (m & Hm & Hall).
      * by rewrite lookup_app_r, Nat.sub_diag.
      * intros y Hy. apply elem_of_app in Hy as [Hy|Hy].
        -- specialize (Hmax y Hy). lia.
        -- apply list_elem_of_singleton in Hy as ->. lia.
      * rewrite length_app, Nat.add_1_r in Hm. rewrite <- app_assoc in Hm, Hall.
        eauto.
    + destruct (IH (pre ++ [x]) best_i best) as (m & Hm & Hall).
      * apply lookup_app_l_Some. done.
      * intros y Hy. apply elem_of_app in Hy as [Hy|Hy].
        -- by apply Hmax.
        -- apply list_elem_of_singleton in Hy as ->. lia.
      * rewrite length_app, Nat.add_1_r in Hm. rewrite <- app_assoc in Hm, Hall.
        eauto.
Qed.

(** [np.argmax] returns a position of the maximum. *)
Lemma np_argmax_spec (xs : list Z) :
  xs ≠ [] →
  ∃ i m, np_argmax xs = Ok i ∧ xs !! i = Some m ∧ ∀ y, y ∈ xs → (y ≤ m)%Z.
Proof.
  destruct xs as [|x xs]; [done|]. intros _.
  destruct (argmax_from_spec xs [x] 0 x) as (m & Hm & Hall).
  - done.
  - intros y Hy. apply list_elem_of_singleton in Hy as ->. lia.
  - exists (argmax_from 0 x 1 xs), m. eauto.
Qed.

(** C9: when [regionprops] finds at least one region in the label image,
    [largest_label_to_surface] does what [label_to_surface] does for the
    label of a region whose area no region exceeds, in the world that the
    call of [regionprops] leaves: the same result, surface or exception, and
    the same store. *)
Theorem largest_label_is_a_label_of_maximal_area {L : Library} (w : world L)
    (labels : loc) (a : ndarray Z) (statistics : list region) (st' : LibState L) :
  heap w !! labels = Some (ArrI a) →
  regionprops L a (lib_state w) = (inr statistics, st') →
  statistics ≠ [] →
  ∃ r,
    r ∈ statistics ∧
    (∀ r', r' ∈ statistics → (region_area r' ≤ region_area r)%Z) ∧
    largest_label_to_surface labels w =
      label_to_surface labels (region_label r)
        (World (heap w) st' (calls w ++ [Alg_regionprops])).
Proof.
  intros Hlabels Hprops Hne.
  destruct (np_argmax_spec (region_area <$> statistics)) as (i & m & Hi & Hm & Hall).
  { by destruct statistics. }
  apply list_lookup_fmap_Some in Hm as (r & -> & Hr).
  exists r. split; [by eapply list_elem_of_lookup_2|]. split.
  - intros r' Hr'. apply Hall. by apply list_elem_of_fmap_2.
  - unfold largest_label_to_surface.
    unfold bind at 1. cbv [load_labels bind load ret]. rewrite Hlabels.
    cbv [invoke]. rewrite Hprops. rewrite Hi. cbv [lift].
    by rewrite list_lookup_fmap, Hr.
Qed.

(** The label image at 12 has two pixels of label 1 and three of label 2:
    the surface is that of label 2. *)
Lemma largest_label_is_a_label_of_maximal_area_witness :
  largest_label_to_surface 12 Demo.w =
    label_to_surface 12 2 (World Demo.store (0 : LibState Demo.library) [Alg_regionprops]).
Proof.
  destruct (largest_label_is_a_label_of_maximal_area Demo.w 12
              (NDArray [2; 3] [1; 2; 2; 0; 1; 2]%Z)
              [ {| region_label := 1; region_area := 2; region_centroid := [] |};
                {| region_label := 2; region_area := 3; region_centroid := [] |} ]
              (0 : LibState Demo.library))
    as (r & Hr & Hmax & Hrun).
  - reflexivity.
  - reflexivity.
  - discriminate.
  - assert (region_label r = 2%Z) as Hlabel.
    { apply list_elem_of_In in Hr. destruct Hr as [<-|[<-|[]]]; [|reflexivity].
      exfalso.
      specialize (Hmax {| region_label := 2; region_area := 3; region_centroid := [] |}).
      simpl in Hmax. assert (3 ≤ 2)%Z; [|lia]. apply Hmax. right. left. }
    rewrite Hrun, Hlabel. reflexivity.
Defined.


(** ** From library objects to arrays and back *)

Section BackAndForth.
Context {L : Library}.

(** The mesh that [to_mesh] builds from the arrays that [to_numpy] makes of
    the library's vectors. *)
Lemma to_mesh_of_arrays (w : world L) l vs ts x :
  surface_at (heap w) l =
    Some (ArrF (array_of_vectors vs), ArrI (array_of_vectors ts), x) →
  to_mesh l w =
    (Ok {| mesh_vertices := vs; mesh_triangles := chunk3 (wrap32 <$> flatten3 ts) |}, w).
Proof.
  intros Hs. destruct (surface_at_inv _ _ _ _ _ Hs) as (lv & lf & rest & Hl & Hv & Hf).
  assert (vertices_faces (heap w) l = Some (VRef lv, VRef lf)) as Hvf.
  { unfold vertices_faces. by destruct Hl as [-> | ->]. }
  rewrite (to_mesh_run _ _ _ _ Hvf).
  cbv [to_vector_d to_vector_i bind load ret]. rewrite Hv, Hf. simpl.
  by rewrite chunk3_flatten3.
Qed.

Lemma to_point_cloud_of_array (w : world L) l ps :
  heap w !! l = Some (ArrF (array_of_vectors ps)) →
  to_point_cloud l w = (Ok {| pcd_points := ps; pcd_normals := [] |}, w).
Proof.
  intros Hl. cbv [to_point_cloud to_vector_d bind load ret]. rewrite Hl. simpl.
  by rewrite chunk3_flatten3.
Qed.

Lemma returns_to_numpy_d (ps : list Vector3d) :
  returns (L := L) (to_numpy_d ps)
    (λ l w', ∃ ps, heap w' !! l = Some (ArrF (array_of_vectors ps))).
Proof.
  intros w l w' Hrun. apply alloc_ok in Hrun as [_ ->]. exists ps.
  simpl. by rewrite lookup_insert_eq.
Qed.

Lemma open3d_surface_result (op : operation) :
  open3d_surface_op op = true →
  returns (L := L) (exec op)
    (λ l w', ∃ vs ts,
       surface_at (heap w') l =
         Some (ArrF (array_of_vectors vs), ArrI (array_of_vectors ts),
               Some (ArrF (np_ones (length vs))))).
Proof.
  intros Hop.
  destruct op; try discriminate Hop;
    cbv [exec convex_hull filter_smooth_simple filter_smooth_laplacian
         filter_smooth_taubin simplify_vertex_clustering
         simplify_quadric_decimation subdivide_loop
         points_to_convex_hull_surface surface_from_point_cloud_alpha_shape
         surface_from_point_cloud_ball_pivoting];
    repeat lazymatch goal with
           | |- returns (bind _ _) _ => apply returns_bind; intros ?
           | |- returns (let '(_, _) := ?x in _) _ => destruct x
           end;
    apply returns_to_surface.
Qed.

Lemma open3d_points_result (op : operation) :
  open3d_points_op op = true →
  returns (L := L) (exec op)
    (λ l w', ∃ ps, heap w' !! l = Some (ArrF (array_of_vectors ps))).
Proof.
  intros Hop.
  destruct op; try discriminate Hop;
    cbv [exec sample_points_uniformly sample_points_poisson_disk voxel_down_sample];
    repeat lazymatch goal with
           | |- returns (bind _ _) _ => apply returns_bind; intros ?
           end;
    apply returns_to_numpy_d.
Qed.
End BackAndForth.

(** X2: what an operation returns is accepted where the next operation
    starts.  The surface that an open3d-backed surface operation returns
    converts with [to_mesh], to the mesh of its vertices and faces; the
    points that a sampling or down-sampling operation returns convert with
    [to_point_cloud], to the cloud of these points, without normals. *)
Theorem results_convert_back {L : Library} (op : operation) (w w' : world L) (l : loc) :
  exec op w = (Ok l, w') →
  (open3d_surface_op op = true →
   ∃ vs ts,
     surface_at (heap w') l =
       Some (ArrF (array_of_vectors vs), ArrI (array_of_vectors ts),
             Some (ArrF (np_ones (length vs)))) ∧
     to_mesh l w' =
       (Ok {| mesh_vertices := vs; mesh_triangles := chunk3 (wrap32 <$> flatten3 ts) |}, w')) ∧
  (open3d_points_op op = true →
   ∃ ps,
     heap w' !! l = Some (ArrF (array_of_vectors ps)) ∧
     to_point_cloud l w' = (Ok {| pcd_points := ps; pcd_normals := [] |}, w')).
Proof.
  intros Hrun. split; intros Hop.
  - destruct (open3d_surface_result op Hop w l w' Hrun) as (vs & ts & Hs).
    exists vs, ts. split; [done|]. by apply to_mesh_of_arrays with (x := Some (ArrF (np_ones (length vs)))).
  - destruct (open3d_points_result op Hop w l w' Hrun) as (ps & Hl).
    exists ps. split; [done|]. by apply to_point_cloud_of_array.
Qed.

(** The points sampled from the triangle at 8 convert to a point cloud. *)
Lemma results_convert_back_witness :
  ∃ l w' ps,
    exec (Sample_points_uniformly 8 500) Demo.w = (Ok l, w') ∧
    to_point_cloud l w' = (Ok {| pcd_points := ps; pcd_normals := [] |}, w').
Proof.
  assert (∃ l w', exec (Sample_points_uniformly 8 500) Demo.w = (Ok l, w'))
    as (l & w' & Hrun).
  { eexists _, _. vm_compute. reflexivity. }
  destruct (results_convert_back _ _ _ _ Hrun) as [_ Hpoints].
  destruct (Hpoints eq_refl) as (ps & _ & Hcloud).
  by exists l, w', ps.
Defined.


(** ** Label images: the largest label, centroids, and masks *)

(** [np.argmax] returns the first position of the maximum. *)
Lemma argmax_from_first (xs pre : list Z) (best_i : nat) (best : Z) (i : nat) (m : Z) :
  pre !! best_i = Some best →
  (∀ y, y ∈ pre → (y ≤ best)%Z) →
  (∀ j y, j < best_i → pre !! j = Some y → (y < best)%Z) →
  (pre ++ xs) !! i = Some m →
  (∀ y, y ∈ pre ++ xs → (y ≤ m)%Z) →
  (∀ j y, j < i → (pre ++ xs) !! j = Some y → (y < m)%Z) →
  argmax_from best_i best (length pre) xs = i.
Proof.
  revert pre best_i best.
  induction xs as [|x xs IH]; intros pre best_i best Hbest Hmax Hfirst Hi Hall Hbefore.
  - simpl. rewrite app_nil_r in *.
    assert (best ≤ m)%Z by (apply Hall; by eapply list_elem_of_lookup_2).
    assert (m ≤ best)%Z by (apply Hmax; by eapply list_elem_of_lookup_2).
    destruct (Nat.lt_trichotomy i best_i) as [Hlt|[->|Hlt]]; [|done|].
    + specialize (Hfirst i m Hlt Hi). lia.
    + specialize (Hbefore best_i best Hlt Hbest). lia.
  - simpl. replace (S (length pre)) with (length (pre ++ [x])) by (rewrite length_app; simpl; lia).
    rewrite (cons_middle x pre xs), app_assoc in Hi, Hall, Hbefore.
    case_bool_decide as Hlt.
    + apply IH; try done.
      * by rewrite lookup_app_r, Nat.sub_diag.
      * intros y Hy. apply elem_of_app in Hy as [Hy|Hy].
        -- specialize (Hmax y Hy). lia.
        -- apply list_elem_of_singleton in Hy as ->. lia.
      * intros j y Hj Hy. rewrite lookup_app_l in Hy by done.
        assert (y ≤ best)%Z by (apply Hmax; by eapply list_elem_of_lookup_2). lia.
    + apply IH; try done.
      * by apply lookup_app_l_Some.
      * intros y Hy. apply elem_of_app in Hy as [Hy|Hy].
        -- by apply Hmax.
        -- apply list_elem_of_singleton in Hy as ->. lia.
      * intros j y Hj Hy. apply (Hfirst j y Hj).
        apply lookup_lt_Some in Hbest.
        rewrite lookup_app_l in Hy by lia. done.
Qed.

Lemma np_argmax_first (xs : list Z) (i : nat) (m : Z) :
  xs !! i = Some m →
  (∀ y, y ∈ xs → (y ≤ m)%Z) →
  (∀ j y, j < i → xs !! j = Some y → (y < m)%Z) →
  np_argmax xs = Ok i.
Proof.
  destruct xs as [|x xs]; [done|]. intros Hi Hall Hbefore. simpl. f_equal.
  apply (argmax_from_first xs [x] 0 x i m); try done.
  - intros y Hy. apply list_elem_of_singleton in Hy as ->. lia.
  - intros j y Hj. lia.
Qed.

Section Labels.
Context {L : Library}.

Lemma largest_label_to_surface_run (w : world L) labels a statistics st' :
  heap w !! labels = Some (ArrI a) →
  regionprops L a (lib_state w) = (inr statistics, st') →
  largest_label_to_surface labels w =
    match np_argmax (region_area <$> statistics) with
    | Ok i =>
        match statistics !! i with
        | Some r =>
            label_to_surface labels (region_label r)
              (World (heap w) st' (calls w ++ [Alg_regionprops]))
        | None =>
            (Raise (Exn Interp IndexError), World (heap w) st' (calls w ++ [Alg_regionprops]))
        end
    | Raise e => (Raise e, World (heap w) st' (calls w ++ [Alg_regionprops]))
    end.
Proof.
  intros Hlabels Hprops. unfold largest_label_to_surface.
  unfold bind at 1. cbv [load_labels bind load ret]. rewrite Hlabels.
  cbv [invoke]. rewrite Hprops. cbv [lift].
  destruct (np_argmax (region_area <$> statistics)) as [i|e]; [|done].
  rewrite list_lookup_fmap. by destruct (statistics !! i).
Qed.

(** The tuples that the comprehension of [labels_to_centroids] builds. *)
Lemma centroid_tuples (statistics : list region) : ∀ w : world L,
  ∃ refs w',
    map_M (λ s, t <- alloc (PyTuple ((λ x, VNum (PyFloat x)) <$> region_centroid s)) ;;
                ret (VRef t)) statistics w = (Ok (VRef <$> refs), w') ∧
    length refs = length statistics ∧
    lib_state w' = lib_state w ∧ calls w' = calls w ∧
    (∀ l o, heap w !! l = Some o → heap w' !! l = Some o) ∧
    (∀ i r, statistics !! i = Some r →
       ∃ t, refs !! i = Some t ∧ heap w !! t = None ∧
            heap w' !! t =
              Some (PyTuple ((λ x, VNum (PyFloat x)) <$> region_centroid r))).
Proof.
  induction statistics as [|s statistics IH]; intros w.
  - exists [], w. repeat split; done.
  - destruct (alloc_spec (PyTuple ((λ x, VNum (PyFloat x)) <$> region_centroid s)) w)
      as (t & w1 & Halloc & Hfresh & Hheap & Hst & Hcalls).
    destruct (IH w1) as (refs & w' & Hrun & Hlen & Hst' & Hcalls' & Hframe & Htuples).
    exists (t :: refs), w'.
    assert (map_M (λ s, t <- alloc (PyTuple ((λ x, VNum (PyFloat x)) <$> region_centroid s)) ;;
                        ret (VRef t)) (s :: statistics) w = (Ok (VRef <$> t :: refs), w'))
      as Hcons.
    { simpl. unfold bind at 1. unfold bind at 1. rewrite Halloc. unfold ret at 1.
      unfold bind at 1. by rewrite Hrun. }
    assert (heap w' !! t = Some (PyTuple ((λ x, VNum (PyFloat x)) <$> region_centroid s)))
      as Ht.
    { apply Hframe. rewrite Hheap. by rewrite lookup_insert_eq. }
    split; [exact Hcons|]. split; [simpl; by rewrite Hlen|].
    split; [congruence|]. split; [congruence|]. split.
    + intros l o Hl. apply Hframe. rewrite Hheap.
      rewrite lookup_insert_ne; [done|]. intros ->. congruence.
    + intros [|i] r Hi; simpl in Hi.
      * injection Hi as <-. exists t. done.
      * destruct (Htuples i r Hi) as (t' & Hr & Hnew & Ht').
        exists t'. split; [done|]. split; [|done].
        rewrite Hheap in Hnew. by apply lookup_insert_None in Hnew as [? _].
Qed.

Lemma labels_to_centroids_run (w : world L) labels a statistics st' :
  heap w !! labels = Some (ArrI a) →
  regionprops L a (lib_state w) = (inr statistics, st') →
  ∃ lc refs w',
    labels_to_centroids labels w = (Ok lc, w') ∧
    heap w !! lc = None ∧
    heap w' !! lc = Some (PyList (VRef <$> refs)) ∧
    length refs = length statistics ∧
    (∀ i r, statistics !! i = Some r →
       ∃ t, refs !! i = Some t ∧ heap w !! t = None ∧
            heap w' !! t =
              Some (PyTuple ((λ x, VNum (PyFloat x)) <$> region_centroid r))) ∧
    (∀ l o, heap w !! l = Some o → heap w' !! l = Some o) ∧
    lib_state w' = st' ∧ calls w' = calls w ++ [Alg_regionprops].
Proof.
  intros Hlabels Hprops.
  set (w0 := World (heap w) st' (calls w ++ [Alg_regionprops])).
  destruct (centroid_tuples statistics w0)
    as (refs & w1 & Hrun & Hlen & Hst & Hcalls & Hframe & Htuples).
  destruct (alloc_spec (PyList (VRef <$> refs)) w1)
    as (lc & w' & Halloc & Hfresh & Hheap & Hst' & Hcalls').
  assert (labels_to_centroids labels w = (Ok lc, w')) as Hall.
  { unfold labels_to_centroids. unfold bind at 1. unfold load_labels.
    unfold bind at 1. unfold load. cbv beta. rewrite Hlabels. unfold ret at 1.
    unfold bind at 1. unfold invoke. rewrite Hprops. cbv beta iota zeta.
    unfold bind at 1. fold w0. by rewrite Hrun. }
  exists lc, refs, w'. split; [done|]. split.
  { destruct (heap w !! lc) as [o|] eqn:Hlc; [|done].
    apply (Hframe lc o) in Hlc. congruence. }
  split; [by rewrite Hheap, lookup_insert_eq|]. split; [done|]. split.
  { intros i r Hi. destruct (Htuples i r Hi) as (t & Hr & Hnew & Ht).
    exists t. split; [done|]. split; [done|].
    rewrite Hheap, lookup_insert_ne; [done|]. intros ->. congruence. }
  split.
  { intros l o Hl. rewrite Hheap, lookup_insert_ne; [by apply Hframe|].
    intros ->. apply (Hframe l o) in Hl. congruence. }
  split; [by rewrite Hst', Hst|by rewrite Hcalls', Hcalls].
Qed.
End Labels.

(** X3: on a label image in which [regionprops] finds no region (no
    positive label), [largest_label_to_surface] raises the [ValueError] of
    [np.argmax] on an empty list; marching cubes is not reached and the
    store stays as it is. *)
Theorem largest_label_of_no_region {L : Library} (w : world L) (labels : loc)
    (a : ndarray Z) (st' : LibState L) :
  heap w !! labels = Some (ArrI a) →
  regionprops L a (lib_state w) = (inr [], st') →
  largest_label_to_surface labels w =
    (Raise (Exn Interp ValueError), World (heap w) st' (calls w ++ [Alg_regionprops])).
Proof.
  intros Hlabels Hprops. by rewrite (largest_label_to_surface_run _ _ _ _ _ Hlabels Hprops).
Qed.

(** The label image at 3 of the second store has no label. *)
Lemma largest_label_of_no_region_witness :
  largest_label_to_surface 3 Scene.w =
    (Raise (Exn Interp ValueError),
     World Scene.store (0 : LibState Scene.library) [Alg_regionprops]).
Proof.
  apply (largest_label_of_no_region Scene.w 3 (NDArray [2; 2] [0; 0; 0; 0]%Z)
           (0 : LibState Scene.library)); reflexivity.
Defined.

(** X4: among several regions of the largest area,
    [largest_label_to_surface] takes the first in the order of
    [regionprops]: it does what [label_to_surface] does for the label of
    the region that no region exceeds in area and that every earlier region
    falls short of. *)
Theorem largest_label_is_first_of_maximal_area {L : Library} (w : world L)
    (labels : loc) (a : ndarray Z) (statistics : list region) (st' : LibState L)
    (i : nat) (r : region) :
  heap w !! labels = Some (ArrI a) →
  regionprops L a (lib_state w) = (inr statistics, st') →
  statistics !! i = Some r →
  (∀ r', r' ∈ statistics → (region_area r' ≤ region_area r)%Z) →
  (∀ j r', j < i → statistics !! j = Some r' → (region_area r' < region_area r)%Z) →
  largest_label_to_surface labels w =
    label_to_surface labels (region_label r)
      (World (heap w) st' (calls w ++ [Alg_regionprops])).
Proof.
  intros Hlabels Hprops Hi Hall Hbefore.
  rewrite (largest_label_to_surface_run _ _ _ _ _ Hlabels Hprops).
  rewrite (np_argmax_first (region_area <$> statistics) i (region_area r)).
  - by rewrite Hi.
  - by rewrite list_lookup_fmap, Hi.
  - intros y Hy. apply list_elem_of_fmap in Hy as (r' & -> & Hr'). by apply Hall.
  - intros j y Hj Hy. apply list_lookup_fmap_Some in Hy as (r' & -> & Hr').
    by apply (Hbefore j).
Qed.

(** In the label image at 2 of the second store the labels 1 and 2 have two
    pixels each: the surface is that of label 1. *)
Lemma largest_label_is_first_of_maximal_area_witness :
  largest_label_to_surface 2 Scene.w =
    label_to_surface 2 1 (World Scene.store (0 : LibState Scene.library) [Alg_regionprops]).
Proof.
  apply (largest_label_is_first_of_maximal_area Scene.w 2 (NDArray [2; 2] [1; 2; 2; 1]%Z)
           (Scene.regions_of (NDArray [2; 2] [1; 2; 2; 1]%Z)) (0 : LibState Scene.library) 0
           {| region_label := 1; region_area := 2;
              region_centroid := [Demo.fl 0; Demo.fl 0] |}).
  - reflexivity.
  - reflexivity.
  - reflexivity.
  - intros r' Hr'. apply list_elem_of_In in Hr'.
    destruct Hr' as [<-|[<-|[]]]; simpl; lia.
  - intros j r' Hj. lia.
Defined.

(** X5: [labels_to_centroids] returns a new Python list that holds, for
    every region that [regionprops] finds and in the same order, a new
    tuple of the coordinates of its centroid; without regions it is the
    empty list.  Nothing that existed is changed, and [regionprops] is the
    one algorithm invoked. *)
Theorem labels_to_centroids_lists_centroids {L : Library} (w : world L) (labels : loc)
    (a : ndarray Z) (statistics : list region) (st' : LibState L) :
  heap w !! labels = Some (ArrI a) →
  regionprops L a (lib_state w) = (inr statistics, st') →
  ∃ lc refs w',
    labels_to_centroids labels w = (Ok lc, w') ∧
    heap w !! lc = None ∧
    heap w' !! lc = Some (PyList (VRef <$> refs)) ∧
    length refs = length statistics ∧
    (∀ i r, statistics !! i = Some r →
       ∃ t, refs !! i = Some t ∧ heap w !! t = None ∧
            heap w' !! t =
              Some (PyTuple ((λ x, VNum (PyFloat x)) <$> region_centroid r))) ∧
    (∀ l o, heap w !! l = Some o → heap w' !! l = Some o) ∧
    lib_state w' = st' ∧ calls w' = calls w ++ [Alg_regionprops].
Proof. apply labels_to_centroids_run. Qed.

(** The label image at 0 of the second store has two regions, and the one
    at 3 has none. *)
Lemma labels_to_centroids_lists_centroids_witness :
  (∃ lc refs w',
     labels_to_centroids 0 Scene.w = (Ok lc, w') ∧
     heap w' !! lc = Some (PyList (VRef <$> refs)) ∧ length refs = 2) ∧
  (∃ lc w',
     labels_to_centroids 3 Scene.w = (Ok lc, w') ∧ heap w' !! lc = Some (PyList [])).
Proof.
  split.
  - destruct (labels_to_centroids_lists_centroids Scene.w 0
                (NDArray [2; 3] [1; 2; 2; 0; 1; 2]%Z)
                (Scene.regions_of (NDArray [2; 3] [1; 2; 2; 0; 1; 2]%Z))
                (0 : LibState Scene.library) eq_refl eq_refl)
      as (lc & refs & w' & Hrun & _ & Hlc & Hlen & _).
    by exists lc, refs, w'.
  - destruct (labels_to_centroids_lists_centroids Scene.w 3
                (NDArray [2; 2] [0; 0; 0; 0]%Z) [] (0 : LibState Scene.library)
                eq_refl eq_refl)
      as (lc & refs & w' & Hrun & _ & Hlc & Hlen & _).
    destruct refs; [|done]. by exists lc, w'.
Defined.

(** *** Centroids as points *)

Lemma coord_at_centroid (h : gmap loc pyobj) lc refs i t (xs : list float) k :
  h !! lc = Some (PyList (VRef <$> refs)) →
  refs !! i = Some t →
  h !! t = Some (PyTuple ((λ x, VNum (PyFloat x)) <$> xs)) →
  coord_at h lc i k =
    match xs !! k with
    | Some x => Ok x
    | None => Raise (Exn Interp IndexError)
    end.
Proof.
  intros Hlc Hi Ht. unfold coord_at. rewrite Hlc, list_lookup_fmap, Hi. simpl.
  rewrite Ht. simpl. rewrite list_lookup_fmap. by destruct (xs !! k).
Qed.

Lemma pixel_from_centroid (h : gmap loc pyobj) lc refs i t (xs : list float) :
  h !! lc = Some (PyList (VRef <$> refs)) →
  refs !! i = Some t →
  h !! t = Some (PyTuple ((λ x, VNum (PyFloat x)) <$> xs)) →
  ∀ sh k, pixel_from h lc i k sh = pixel_of_coords sh (drop k xs).
Proof.
  intros Hlc Hi Ht. induction sh as [|n sh IH]; intros k; [done|].
  cbn [pixel_from]. rewrite (coord_at_centroid h lc refs i t xs k Hlc Hi Ht).
  destruct (xs !! k) as [x|] eqn:Hk.
  - rewrite (drop_S _ _ _ Hk). cbn [pixel_of_coords].
    destruct (round_half x) as [z|]; [|done].
    destruct (norm_index n z) as [j|]; [|done]. by rewrite IH.
  - apply lookup_ge_None in Hk. by rewrite drop_ge.
Qed.

(** X6: the list that [labels_to_centroids] returns is a list of points for
    [points_to_labels].  When the label image is 2-d or 3-d and every
    centroid rounds to a pixel of it, the two calls in a row return a new
    volume of the shape of the label image in which the pixel of the
    centroid of the region with index [i] holds [i + 1], the later region
    winning where two centroids share a pixel, and every other pixel
    holds 0. *)
Theorem centroids_to_labels {L : Library} (w : world L) (labels : loc) (a : ndarray Z)
    (statistics : list region) (st' : LibState L) :
  heap w !! labels = Some (ArrI a) →
  length (shape a) = 2 ∨ length (shape a) = 3 →
  regionprops L a (lib_state w) = (inr statistics, st') →
  (∀ r, r ∈ statistics → is_Some (pixel_of_coords (shape a) (region_centroid r))) →
  ∃ lc w1 l out,
    labels_to_centroids labels w = (Ok lc, w1) ∧
    points_to_labels lc labels w1 = (Ok l, set_heap w1 (<[l := ArrI out]> (heap w1))) ∧
    heap w1 !! l = None ∧
    shape out = shape a ∧
    wf_array out ∧
    ∀ c, in_bounds c (shape a) →
      (∀ i r, statistics !! i = Some r →
         pixel_of_coords (shape a) (region_centroid r) = Some c →
         (∀ j r', i < j → statistics !! j = Some r' →
            pixel_of_coords (shape a) (region_centroid r') ≠ Some c) →
         np_getitem out (Z.of_nat <$> c) = Ok (Z.of_nat i + 1)%Z) ∧
      ((∀ r, r ∈ statistics → pixel_of_coords (shape a) (region_centroid r) ≠ Some c) →
         np_getitem out (Z.of_nat <$> c) = Ok 0%Z).
Proof.
  intros Hlabels Hdim Hprops Hpixels.
  destruct (labels_to_centroids_run w labels a statistics st' Hlabels Hprops)
    as (lc & refs & w1 & Hrun & Hfresh & Hlc & Hlen & Htuples & Hframe & _).
  assert (∀ i r, statistics !! i = Some r →
            pixel_of (heap w1) lc (shape a) i = pixel_of_coords (shape a) (region_centroid r))
    as Hpix.
  { intros i r Hi. destruct (Htuples i r Hi) as (t & Hr & _ & Ht).
    unfold pixel_of. by rewrite (pixel_from_centroid _ _ _ _ _ _ Hlc Hr Ht). }
  destruct (points_to_labels_run w1 lc labels (shape a) (length statistics))
    as (l & out & Hrun' & Hnew & Hshape & Hwf & Hout).
  - unfold shape_at. by rewrite (Hframe _ _ Hlabels).
  - done.
  - unfold points_len. by rewrite Hlc, length_fmap, Hlen.
  - intros i Hi. destruct (lookup_lt_is_Some_2 statistics i Hi) as [r Hr].
    rewrite (Hpix i r Hr). apply Hpixels. by eapply list_elem_of_lookup_2.
  - exists lc, w1, l, out. do 5 (split; [done|]).
    intros c Hc. destruct (Hout c Hc) as [Hlast Hnone]. split.
    + intros i r Hi Hci Hlater. apply Hlast.
      * by eapply lookup_lt_Some.
      * by rewrite (Hpix i r Hi).
      * intros j [Hij Hj]. destruct (lookup_lt_is_Some_2 statistics j Hj) as [r' Hr'].
        rewrite (Hpix j r' Hr'). by apply (Hlater j).
    + intros Hno. apply Hnone. intros i Hi.
      destruct (lookup_lt_is_Some_2 statistics i Hi) as [r Hr].
      rewrite (Hpix i r Hr). apply Hno. by eapply list_elem_of_lookup_2.
Qed.

(** The two regions of the label image at 0 of the second store have their
    first pixels, which stand in for their centroids, at (0, 0) and (0, 1):
    these pixels hold 1 and 2, and pixel (1, 1) holds 0. *)
Lemma centroids_to_labels_witness :
  ∃ lc w1 l out,
    labels_to_centroids 0 Scene.w = (Ok lc, w1) ∧
    points_to_labels lc 0 w1 = (Ok l, set_heap w1 (<[l := ArrI out]> (heap w1))) ∧
    np_getitem out [0; 0]%Z = Ok 1%Z ∧
    np_getitem out [0; 1]%Z = Ok 2%Z ∧
    np_getitem out [1; 1]%Z = Ok 0%Z.
Proof.
  destruct (centroids_to_labels Scene.w 0 (NDArray [2; 3] [1; 2; 2; 0; 1; 2]%Z)
              (Scene.regions_of (NDArray [2; 3] [1; 2; 2; 0; 1; 2]%Z))
              (0 : LibState Scene.library))
    as (lc & w1 & l & out & Hrun & Hrun' & _ & _ & _ & Hout).
  - reflexivity.
  - left. reflexivity.
  - reflexivity.
  - intros r Hr. apply list_elem_of_In in Hr.
    destruct Hr as [<-|[<-|[]]]; vm_compute; eauto.
  - exists lc, w1, l, out. split; [exact Hrun|]. split; [exact Hrun'|].
    split; [|split].
    + destruct (Hout [0; 0]) as [Hlast _]; [repeat constructor|].
      apply (Hlast 0 {| region_label := 1; region_area := 2;
                        region_centroid := [Demo.fl 0; Demo.fl 0] |});
        [reflexivity | vm_compute; reflexivity |].
      intros j r' Hj Hr'. destruct j as [|[|j]]; [lia| |done].
      injection Hr' as <-. vm_compute. discriminate.
    + destruct (Hout [0; 1]) as [Hlast _]; [repeat constructor|].
      apply (Hlast 1 {| region_label := 2; region_area := 3;
                        region_centroid := [Demo.fl 0; Demo.fl 1] |});
        [reflexivity | vm_compute; reflexivity |].
      intros j r' Hj Hr'. destruct j as [|[|j]]; [lia|lia|done].
    + destruct (Hout [1; 1]) as [_ Hnone]; [repeat constructor|].
      apply Hnone. intros r Hr. apply list_elem_of_In in Hr.
      destruct Hr as [<-|[<-|[]]]; vm_compute; discriminate.
Defined.

(** *** One label as a surface *)

Lemma bind_load {L : Library} {B} l (k : pyobj → M L B) (w : world L) o :
  heap w !! l = Some o → bind (load l) k w = k o w.
Proof. intros Hl. unfold bind, load. by rewrite Hl. Qed.

Lemma equals_label_mask (a a' : ndarray Z) (label_id : Z) :
  shape a' = shape a →
  Forall2 (λ x y, x = label_id ↔ y = label_id) (data a) (data a') →
  equals_label (ArrI a') label_id = equals_label (ArrI a) label_id.
Proof.
  intros Hshape Hmask. unfold equals_label. rewrite Hshape. f_equal.
  induction Hmask as [|x y xs ys Hxy _ IH]; [done|].
  rewrite !fmap_cons, IH. f_equal. symmetry. by apply bool_decide_ext.
Qed.

(** X7: [label_to_surface] looks at the label image only through the mask
    of the pixels that hold [label_id]: two label images with the same mask
    give the same outcome, whatever other labels they hold.  The surface it
    returns is a new tuple of the vertices, the faces and the values that
    marching cubes returns for the mask at level 0 (the values are those of
    the algorithm, not ones), the normals being dropped. *)
Theorem label_to_surface_reads_the_mask {L : Library} (w : world L) (labels labels' : loc)
    (a a' : ndarray Z) (label_id : Z) :
  heap w !! labels = Some (ArrI a) →
  heap w !! labels' = Some (ArrI a') →
  shape a' = shape a →
  Forall2 (λ x y, x = label_id ↔ y = label_id) (data a) (data a') →
  label_to_surface labels' label_id w = label_to_surface labels label_id w ∧
  ∀ vertices faces normals values st',
    marching_cubes L (equals_label (ArrI a) label_id) 0 (lib_state w) =
      (inr (vertices, faces, normals, values), st') →
    ∃ l w',
      label_to_surface labels label_id w = (Ok l, w') ∧
      heap w !! l = None ∧
      surface_at (heap w') l = Some (ArrF vertices, ArrI faces, Some (ArrF values)) ∧
      (∀ l0 o, heap w !! l0 = Some o → heap w' !! l0 = Some o).
Proof.
  intros Hlabels Hlabels' Hshape Hmask. split.
  - unfold label_to_surface.
    rewrite (bind_load _ _ _ _ Hlabels), (bind_load _ _ _ _ Hlabels').
    by rewrite (equals_label_mask a a' label_id Hshape Hmask).
  - intros vertices faces normals values st' Hcubes.
    unfold label_to_surface. rewrite (bind_load _ _ _ _ Hlabels).
    unfold bind at 1. unfold invoke. rewrite Hcubes. cbv beta iota zeta.
    set (w0 := World (heap w) st' (calls w ++ [Alg_marching_cubes])).
    destruct (alloc_spec (ArrF vertices) w0) as (l0 & w1 & R1 & N1 & H1 & _).
    destruct (alloc_spec (ArrI faces) w1) as (l1 & w2 & R2 & N2 & H2 & _).
    destruct (alloc_spec (ArrF values) w2) as (l2 & w3 & R3 & N3 & H3 & _).
    destruct (alloc_spec (PyTuple [VRef l0; VRef l1; VRef l2]) w3)
      as (l3 & w4 & R4 & N4 & H4 & _).
    unfold bind at 1. rewrite R1. unfold bind at 1. rewrite R2.
    unfold bind at 1. rewrite R3. rewrite R4.
    rewrite H3, H2, H1 in N4. rewrite H2, H1 in N3. rewrite H1 in N2.
    repeat match goal with
           | H : <[_ := _]> _ !! _ = None |- _ => apply lookup_insert_None in H as [H ?]
           end.
    exists l3, w4. split; [done|]. split; [done|]. split.
    + unfold surface_at. rewrite H4, H3, H2, H1. by simplify_map_eq.
    + intros l o Hl. rewrite H4, H3, H2, H1.
      rewrite !lookup_insert_ne by (simpl in *; congruence). done.
Qed.

(** The label images at 0 and 1 of the second store have label 2 at the same
    pixels. *)
Lemma label_to_surface_reads_the_mask_witness :
  label_to_surface 1 2 Scene.w = label_to_surface 0 2 Scene.w.
Proof.
  apply (label_to_surface_reads_the_mask Scene.w 0 1
           (NDArray [2; 3] [1; 2; 2; 0; 1; 2]%Z) (NDArray [2; 3] [5; 2; 2; 9; 0; 2]%Z) 2).
  - reflexivity.
  - reflexivity.
  - reflexivity.
  - repeat constructor; intros; lia.
Defined.


(** ** Points to labels: what is read of the arguments, and what the labels
    tell *)

Section PointsRead.
Context {L : Library}.

Lemma bind_run {A B} (m : M L A) (k : A → M L B) (w w1 : world L) r :
  m w = (r, w1) →
  bind m k w = match r with Ok a => k a w1 | Raise e => (Raise e, w1) end.
Proof. intros Hm. unfold bind. by rewrite Hm. Qed.

Lemma rounded_bind {B} lp i k (f : Z → M L B) (w : world L) x :
  coord_at (heap w) lp i k = Ok x →
  bind (rounded lp i k) f w =
    match round_half x with Ok z => f z w | Raise e => (Raise e, w) end.
Proof. intros Hx. unfold bind. by rewrite rounded_run, Hx. Qed.

(** The loop body reads of the point only the coordinates along the axes of
    the volume. *)
Lemma mark_point_same (h : gmap loc pyobj) l lp lp' sh buf i (w : world L) :
  h !! l = None →
  heap w = <[l := ArrI (NDArray sh buf)]> h →
  (∀ k, k < length sh →
     ∃ x, coord_at h lp i k = Ok x ∧ coord_at h lp' i k = Ok x) →
  mark_point lp' l i w = mark_point lp l i w.
Proof.
  intros Hl Hw Hcoords.
  assert (∀ k, k < length sh →
            ∃ x, coord_at (heap w) lp i k = Ok x ∧ coord_at (heap w) lp' i k = Ok x)
    as Hcoords'.
  { intros k Hk. destruct (Hcoords k Hk) as (x & Hx & Hx'). exists x.
    rewrite Hw. split; by apply coord_at_insert. }
  assert (get_shape l w = (Ok sh, w)) as Hshape.
  { apply get_shape_ok. unfold shape_at. by rewrite Hw, lookup_insert_eq. }
  unfold mark_point. rewrite !(bind_run _ _ _ _ _ Hshape).
  repeat case_bool_decide; [| |done].
  - destruct (Hcoords' 0) as (x0 & Hp0 & Hq0); [lia|].
    destruct (Hcoords' 1) as (x1 & Hp1 & Hq1); [lia|].
    destruct (Hcoords' 2) as (x2 & Hp2 & Hq2); [lia|].
    rewrite (rounded_bind lp i 0 _ w x0 Hp0), (rounded_bind lp' i 0 _ w x0 Hq0).
    destruct (round_half x0); [|done].
    rewrite (rounded_bind lp i 1 _ w x1 Hp1), (rounded_bind lp' i 1 _ w x1 Hq1).
    destruct (round_half x1); [|done].
    rewrite (rounded_bind lp i 2 _ w x2 Hp2), (rounded_bind lp' i 2 _ w x2 Hq2).
    by destruct (round_half x2).
  - destruct (Hcoords' 0) as (x0 & Hp0 & Hq0); [lia|].
    destruct (Hcoords' 1) as (x1 & Hp1 & Hq1); [lia|].
    rewrite (rounded_bind lp i 0 _ w x0 Hp0), (rounded_bind lp' i 0 _ w x0 Hq0).
    destruct (round_half x0); [|done].
    rewrite (rounded_bind lp i 1 _ w x1 Hp1), (rounded_bind lp' i 1 _ w x1 Hq1).
    by destruct (round_half x1).
Qed.

(** A step of the loop that returns has written into the volume and
    nowhere else. *)
Lemma mark_point_ok_heap (h : gmap loc pyobj) l lp sh buf i (w w' : world L) :
  heap w = <[l := ArrI (NDArray sh buf)]> h →
  mark_point lp l i w = (Ok tt, w') →
  ∃ buf', heap w' = <[l := ArrI (NDArray sh buf')]> h.
Proof.
  intros Hw Hrun.
  assert (heap w !! l = Some (ArrI (NDArray sh buf))) as Hl
    by (by rewrite Hw, lookup_insert_eq).
  assert (get_shape l w = (Ok sh, w)) as Hshape.
  { apply get_shape_ok. unfold shape_at. by rewrite Hl. }
  assert (∀ idx v, setitem l idx v w = (Ok tt, w') →
            ∃ buf', heap w' = <[l := ArrI (NDArray sh buf')]> h) as Hset.
  { intros idx v Hs. rewrite (setitem_run _ _ _ _ _ Hl) in Hs.
    unfold np_setitem in Hs. simpl in Hs.
    destruct (flat_index sh idx) as [off|]; [|done].
    injection Hs as <-. exists (<[off := v]> buf). simpl.
    by rewrite Hw, insert_insert_eq. }
  unfold mark_point in Hrun. rewrite (bind_run _ _ _ _ _ Hshape) in Hrun.
  repeat case_bool_decide; [| |done].
  - unfold bind at 1 in Hrun. rewrite rounded_run in Hrun.
    destruct (match coord_at (heap w) lp i 0 with Ok x => round_half x | Raise e => Raise e end)
      as [i0|]; [|done].
    unfold bind at 1 in Hrun. rewrite rounded_run in Hrun.
    destruct (match coord_at (heap w) lp i 1 with Ok x => round_half x | Raise e => Raise e end)
      as [i1|]; [|done].
    unfold bind at 1 in Hrun. rewrite rounded_run in Hrun.
    destruct (match coord_at (heap w) lp i 2 with Ok x => round_half x | Raise e => Raise e end)
      as [i2|]; [|done].
    by eapply Hset.
  - unfold bind at 1 in Hrun. rewrite rounded_run in Hrun.
    destruct (match coord_at (heap w) lp i 0 with Ok x => round_half x | Raise e => Raise e end)
      as [i0|]; [|done].
    unfold bind at 1 in Hrun. rewrite rounded_run in Hrun.
    destruct (match coord_at (heap w) lp i 1 with Ok x => round_half x | Raise e => Raise e end)
      as [i1|]; [|done].
    by eapply Hset.
Qed.

Lemma for_range_mark_same (h : gmap loc pyobj) l lp lp' sh :
  h !! l = None →
  ∀ m start buf (w : world L),
    heap w = <[l := ArrI (NDArray sh buf)]> h →
    (∀ i k, start ≤ i < start + m → k < length sh →
       ∃ x, coord_at h lp i k = Ok x ∧ coord_at h lp' i k = Ok x) →
    for_range (mark_point lp' l) start m w = for_range (mark_point lp l) start m w.
Proof.
  intros Hl. induction m as [|m IH]; intros start buf w Hw Hcoords; [done|].
  simpl. unfold bind.
  rewrite (mark_point_same h l lp lp' sh buf start w Hl Hw).
  2:{ intros k Hk. apply Hcoords; lia. }
  destruct (mark_point lp l start w) as [[[]|e] w1] eqn:Hrun; [|done].
  destruct (mark_point_ok_heap h l lp sh buf start w w1 Hw Hrun) as [buf' Hw1].
  apply (IH (S start) buf' w1 Hw1). intros i k Hi Hk. apply Hcoords; lia.
Qed.

(** [points_to_labels], once the shape of the image and the number of
    points are read. *)
Lemma points_to_labels_unfold (w : world L) lp li sh n :
  shape_at (heap w) li = Some sh →
  points_len (heap w) lp = Some n →
  points_to_labels lp li w =
    let l := fresh (dom (heap w)) in
    let w1 := set_heap w (<[l := ArrI (np_zeros sh)]> (heap w)) in
    match for_range (mark_point lp l) 0 n w1 with
    | (Ok _, w2) => (Ok l, w2)
    | (Raise e, w2) => (Raise e, w2)
    end.
Proof.
  intros Hsh Hn. unfold points_to_labels.
  rewrite (bind_run _ _ _ _ _ (get_shape_ok _ _ _ Hsh)).
  rewrite bind_alloc.
  rewrite (bind_run _ _ _ _ _
             (py_len_ok lp (set_heap w (<[fresh (dom (heap w)) := ArrI (np_zeros sh)]> (heap w)))
                n (points_len_insert _ _ _ _ _ (fresh_loc_None (heap w)) Hn))).
  unfold bind. cbv zeta.
  by destruct (for_range _ 0 n _) as [[[]|e] w2].
Qed.
End PointsRead.

(** X8: [points_to_labels] reads of the reference image its shape alone,
    and of every point the coordinates along the axes of this shape alone.
    Two lists of as many points whose coordinates along these axes are the
    same numbers, on two images of the same shape, give the same outcome,
    volume or exception: further coordinates of a point, the representation
    of the points (rows of an array, a list of tuples, integers or floats)
    and the content and element type of the image make no difference. *)
Theorem points_to_labels_reads_leading_coordinates {L : Library} (w : world L)
    (lp lp' li li' : loc) (sh : list nat) (n : nat) :
  shape_at (heap w) li = Some sh →
  shape_at (heap w) li' = Some sh →
  points_len (heap w) lp = Some n →
  points_len (heap w) lp' = Some n →
  (∀ i k, i < n → k < length sh →
     ∃ x, coord_at (heap w) lp i k = Ok x ∧ coord_at (heap w) lp' i k = Ok x) →
  points_to_labels lp' li' w = points_to_labels lp li w.
Proof.
  intros Hsh Hsh' Hn Hn' Hcoords.
  rewrite (points_to_labels_unfold w lp li sh n Hsh Hn).
  rewrite (points_to_labels_unfold w lp' li' sh n Hsh' Hn'). cbv zeta.
  rewrite (for_range_mark_same (heap w) (fresh (dom (heap w))) lp lp' sh
             (fresh_loc_None (heap w)) n 0 (replicate (size_of sh) 0%Z)); [done|done|].
  intros i k Hi Hk. apply Hcoords; lia.
Qed.

(** The points (1, 0), (1, 1), (1, 0) as the rows of an array, on an image
    of integers, and as a list of tuples with a third coordinate, on an
    image of floats of the same shape. *)
Lemma points_to_labels_reads_leading_coordinates_witness :
  points_to_labels 5 9 Scene.w = points_to_labels 4 0 Scene.w.
Proof.
  apply (points_to_labels_reads_leading_coordinates Scene.w 4 5 0 9 [2; 3] 3).
  - reflexivity.
  - reflexivity.
  - reflexivity.
  - reflexivity.
  - intros i k Hi Hk.
    destruct i as [|[|[|i]]]; [| | |lia];
      (destruct k as [|[|k]]; [| |simpl in Hk; lia]);
      eexists; split; vm_compute; reflexivity.
Defined.

(** The last index below [n] at which a decidable property holds, if there
    is one. *)
Lemma last_below (P : nat → Prop) `{∀ i, Decision (P i)} (n : nat) :
  (∀ i, i < n → ¬ P i) ∨ (∃ i, i < n ∧ P i ∧ ∀ j, i < j < n → ¬ P j).
Proof.
  induction n as [|n IH].
  - left. intros i Hi. lia.
  - destruct (decide (P n)) as [Hn|Hn].
    + right. exists n. split; [lia|]. split; [done|]. intros j Hj. lia.
    + destruct IH as [Hnone|(i & Hi & HP & Hlast)].
      * left. intros i Hi. destruct (decide (i = n)) as [->|]; [done|].
        apply Hnone. lia.
      * right. exists i. split; [lia|]. split; [done|].
        intros j Hj. destruct (decide (j = n)) as [->|]; [done|]. apply Hlast. lia.
Qed.

(** X9: the labels of the volume that [points_to_labels] returns identify
    the points.  Every pixel holds a value from 0 to the number of points;
    a pixel that holds [v > 0] is the pixel of the point with index [v - 1];
    a pixel that holds 0 is the pixel of no point; and no positive value
    occurs at two pixels. *)
Theorem labels_identify_points {L : Library} (w w' : world L) (lp li : loc)
    (sh : list nat) (n : nat) (l : loc) :
  shape_at (heap w) li = Some sh →
  length sh = 2 ∨ length sh = 3 →
  points_len (heap w) lp = Some n →
  points_to_labels lp li w = (Ok l, w') →
  ∃ out,
    heap w' !! l = Some (ArrI out) ∧
    (∀ c, in_bounds c sh →
       ∃ v, np_getitem out (Z.of_nat <$> c) = Ok v ∧ (0 ≤ v ≤ Z.of_nat n)%Z) ∧
    (∀ c v, in_bounds c sh → np_getitem out (Z.of_nat <$> c) = Ok v → (0 < v)%Z →
       pixel_of (heap w) lp sh (Z.to_nat (v - 1)) = Some c) ∧
    (∀ c, in_bounds c sh → np_getitem out (Z.of_nat <$> c) = Ok 0%Z →
       ∀ i, i < n → pixel_of (heap w) lp sh i ≠ Some c) ∧
    (∀ c c' v, in_bounds c sh → in_bounds c' sh →
       np_getitem out (Z.of_nat <$> c) = Ok v →
       np_getitem out (Z.of_nat <$> c') = Ok v → (0 < v)%Z → c = c').
Proof.
  intros Hsh Hdim Hn Hrun.
  assert (∀ i, i < n → is_Some (pixel_of (heap w) lp sh i)) as Hpixels.
  { apply (points_to_labels_ok_inv w lp li sh n Hsh Hdim Hn). by rewrite Hrun. }
  destruct (points_to_labels_run w lp li sh n Hsh Hdim Hn Hpixels)
    as (l' & out & Hrun' & _ & _ & _ & Hout).
  rewrite Hrun in Hrun'. injection Hrun' as -> ->.
  assert (∀ c v, in_bounds c sh → np_getitem out (Z.of_nat <$> c) = Ok v →
            (v = 0%Z ∧ ∀ i, i < n → pixel_of (heap w) lp sh i ≠ Some c) ∨
            (∃ i, i < n ∧ v = (Z.of_nat i + 1)%Z ∧ pixel_of (heap w) lp sh i = Some c))
    as Hvalue.
  { intros c v Hc Hv. destruct (Hout c Hc) as [Hlast Hnone].
    destruct (last_below (λ i, pixel_of (heap w) lp sh i = Some c) n)
      as [Hno|(i & Hi & Hci & Hlater)].
    - left. rewrite (Hnone Hno) in Hv. by injection Hv as <-.
    - right. exists i. rewrite (Hlast i Hi Hci Hlater) in Hv. by injection Hv as <-. }
  exists out. split; [simpl; by rewrite lookup_insert_eq|]. split; [|split; [|split]].
  - intros c Hc. destruct (Hout c Hc) as [Hlast Hnone].
    destruct (last_below (λ i, pixel_of (heap w) lp sh i = Some c) n)
      as [Hno|(i & Hi & Hci & Hlater)].
    + exists 0%Z. split; [by apply Hnone|lia].
    + exists (Z.of_nat i + 1)%Z. split; [by apply Hlast|lia].
  - intros c v Hc Hv Hpos. destruct (Hvalue c v Hc Hv) as [[-> _]|(i & _ & -> & Hci)]; [lia|].
    by replace (Z.to_nat (Z.of_nat i + 1 - 1)) with i by lia.
  - intros c Hc Hv. destruct (Hvalue c 0%Z Hc Hv) as [[_ Hno]|(i & _ & ? & _)]; [done|lia].
  - intros c c' v Hc Hc' Hv Hv' Hpos.
    destruct (Hvalue c v Hc Hv) as [[-> _]|(i & _ & -> & Hci)]; [lia|].
    destruct (Hvalue c' _ Hc' Hv') as [[? _]|(i' & _ & Hi' & Hci')]; [lia|].
    assert (i' = i) as -> by lia. congruence.
Qed.

(** In the volume for the points (1, 0), (1, 1), (1, 0) on the 2 x 3 image,
    a pixel with a positive value [v] is the pixel of point [v - 1]. *)
Lemma labels_identify_points_witness :
  ∃ l w' out,
    points_to_labels 0 1 Demo.w = (Ok l, w') ∧
    heap w' !! l = Some (ArrI out) ∧
    ∀ c v, in_bounds c [2; 3] → np_getitem out (Z.of_nat <$> c) = Ok v → (0 < v)%Z →
      pixel_of Demo.store 0 [2; 3] (Z.to_nat (v - 1)) = Some c.
Proof.
  assert (∃ l w', points_to_labels 0 1 Demo.w = (Ok l, w')) as (l & w' & Hrun).
  { eexists _, _. vm_compute. reflexivity. }
  destruct (labels_identify_points Demo.w w' 0 1 [2; 3] 3 l eq_refl (or_introl eq_refl)
              eq_refl Hrun) as (out & Hl & _ & Hpoint & _).
  by exists l, w', out.
Defined.


(** ** The libraries: which operations do without them, and in which order
    the others invoke them *)

Section StoreOnly.
Context {L1 L2 : Library}.

Lemma store_only_ret {A} (a : A) : store_only (L1 := L1) (L2 := L2) (ret a) (ret a).
Proof. by intros w1 w2 Hh. Qed.

Lemma store_only_throw {A} (e : exn) :
  store_only (L1 := L1) (L2 := L2) (@throw L1 A e) (@throw L2 A e).
Proof. by intros w1 w2 Hh. Qed.

Lemma store_only_lift {A} (r : result A) :
  store_only (L1 := L1) (L2 := L2) (lift r) (lift r).
Proof. by intros w1 w2 Hh. Qed.

Lemma store_only_bind {A B} (m1 : M L1 A) (m2 : M L2 A) (k1 : A → M L1 B) (k2 : A → M L2 B) :
  store_only m1 m2 → (∀ a, store_only (k1 a) (k2 a)) → store_only (bind m1 k1) (bind m2 k2).
Proof.
  intros Hm Hk w1 w2 Hh. unfold bind.
  destruct (Hm w1 w2 Hh) as (Hr & Hheap & [Hs1 Hc1] & [Hs2 Hc2]).
  destruct (m1 w1) as [r1 w1'], (m2 w2) as [r2 w2']. simpl in *. subst r2.
  destruct r1 as [a|e]; [|done].
  destruct (Hk a w1' w2' Hheap) as (Hr' & Hheap' & [Hs1' Hc1'] & [Hs2' Hc2']).
  repeat split; congruence.
Qed.

Lemma store_only_load l : store_only (L1 := L1) (L2 := L2) (load l) (load l).
Proof. intros w1 w2 Hh. unfold load. cbv beta. rewrite Hh. by destruct (heap w2 !! l). Qed.

Lemma store_only_store l o : store_only (L1 := L1) (L2 := L2) (store l o) (store l o).
Proof.
  intros w1 w2 Hh. unfold store. cbv beta. rewrite Hh.
  by destruct (heap w2 !! l).
Qed.

Lemma store_only_alloc o : store_only (L1 := L1) (L2 := L2) (alloc o) (alloc o).
Proof. intros w1 w2 Hh. unfold alloc. cbv beta zeta. simpl. by rewrite Hh. Qed.

Lemma store_only_for_range (body1 : nat → M L1 unit) (body2 : nat → M L2 unit) start n :
  (∀ i, store_only (body1 i) (body2 i)) →
  store_only (for_range body1 start n) (for_range body2 start n).
Proof.
  intros Hb. revert start. induction n as [|n IH]; intros start; simpl.
  - apply store_only_ret.
  - apply store_only_bind; [apply Hb | intros _; apply IH].
Qed.
End StoreOnly.

Ltac store_only_tac :=
  lazymatch goal with
  | |- store_only (bind _ _) (bind _ _) =>
      apply store_only_bind; [store_only_tac | intros ?; store_only_tac]
  | |- store_only (ret _) (ret _) => apply store_only_ret
  | |- store_only (throw _) (throw _) => apply store_only_throw
  | |- store_only (lift _) (lift _) => apply store_only_lift
  | |- store_only (load _) (load _) => apply store_only_load
  | |- store_only (store _ _) (store _ _) => apply store_only_store
  | |- store_only (alloc _) (alloc _) => apply store_only_alloc
  | |- store_only (for_range _ _ _) (for_range _ _ _) =>
      apply store_only_for_range; intros ?; store_only_tac
  | |- store_only (match ?x with _ => _ end) _ => destruct x; store_only_tac
  end.

Lemma store_only_exec {L1 L2 : Library} (op : operation) :
  algorithms_of op = [] → store_only (L1 := L1) (L2 := L2) (exec op) (exec op).
Proof.
  intros Hop. destruct op; try discriminate Hop; unfold_operations; store_only_tac.
Qed.

(** X10: [points_to_labels] and [isotropic_scale_surface], the operations
    that invoke no library algorithm, are functions of the store alone.
    With equal stores they have the same outcome and leave equal stores
    whichever libraries are installed and whatever state these are in, and
    they leave the state of the libraries and the log of invocations as
    they are. *)
Theorem library_free_operations {L1 L2 : Library} (op : operation)
    (w1 : world L1) (w2 : world L2) :
  algorithms_of op = [] →
  heap w1 = heap w2 →
  (exec op w1).1 = (exec op w2).1 ∧
  heap (exec op w1).2 = heap (exec op w2).2 ∧
  lib_state (exec op w1).2 = lib_state w1 ∧
  calls (exec op w1).2 = calls w1.
Proof.
  intros Hop Hh.
  destruct (store_only_exec (L1 := L1) (L2 := L2) op Hop w1 w2 Hh)
    as (Hr & Hheap & [Hs Hc] & _).
  done.
Qed.

(** Scaling the surface at 8 of the first store by 2, with the first
    library in state 0 and with the second library in state 7 and a log
    that is not empty. *)
Lemma library_free_operations_witness :
  (exec (Isotropic_scale_surface 8 (PyInt 2)) Demo.w).1 =
    (exec (Isotropic_scale_surface 8 (PyInt 2))
       (World Demo.store (7 : LibState Scene.library) [Alg_fillHoles])).1 ∧
  lib_state (exec (Isotropic_scale_surface 8 (PyInt 2))
               (World Demo.store (7 : LibState Scene.library) [Alg_fillHoles])).2 = 7.
Proof.
  split.
  - apply (library_free_operations (Isotropic_scale_surface 8 (PyInt 2)) Demo.w
             (World Demo.store (7 : LibState Scene.library) [Alg_fillHoles]));
      reflexivity.
  - apply (library_free_operations (Isotropic_scale_surface 8 (PyInt 2))
             (World Demo.store (7 : LibState Scene.library) [Alg_fillHoles]) Demo.w);
      reflexivity.
Defined.

Section EmitsWithin.
Context {L : Library}.

Lemma emits_within_quiet {A} (m : M L A) :
  (∀ w, calls (m w).2 = calls w ∧ lib_state (m w).2 = lib_state w) →
  emits_within m [].
Proof.
  intros Hm w. destruct (Hm w) as [Hc Hs]. exists [].
  split; [done|]. split; [by rewrite app_nil_r|]. done.
Qed.

Lemma emits_within_ret {A} (a : A) : emits_within (L := L) (ret a) [].
Proof. by apply emits_within_quiet. Qed.

Lemma emits_within_throw {A} e tr : emits_within (L := L) (@throw L A e) tr.
Proof.
  intros w. exists []. split; [apply prefix_nil|]. split; [by rewrite app_nil_r|]. done.
Qed.

Lemma emits_within_lift {A} (r : result A) : emits_within (L := L) (lift r) [].
Proof. by apply emits_within_quiet. Qed.

Lemma emits_within_lift_lib {A} (r : exn_kind + A) : emits_within (L := L) (lift_lib r) [].
Proof. apply emits_within_quiet. by destruct r. Qed.

Lemma emits_within_lift_np {A} (r : exn_kind + A) : emits_within (L := L) (lift_np r) [].
Proof. apply emits_within_quiet. by destruct r. Qed.

Lemma emits_within_alloc o : emits_within (L := L) (alloc o) [].
Proof. by apply emits_within_quiet. Qed.

Lemma emits_within_load l : emits_within (L := L) (load l) [].
Proof. apply emits_within_quiet. intros w. unfold load. by destruct (heap w !! l). Qed.

Lemma emits_within_store l o : emits_within (L := L) (store l o) [].
Proof. apply emits_within_quiet. intros w. unfold store. by destruct (heap w !! l). Qed.

Lemma emits_within_invoke {X} a (f : lib (LibState L) X) : emits_within (invoke a f) [a].
Proof.
  intros w. exists [a]. unfold invoke.
  destruct (f (lib_state w)) as [[k|y] s]; by repeat split.
Qed.

Lemma emits_within_bind {A B} (m : M L A) (k : A → M L B) t1 t2 tr :
  emits_within m t1 → (∀ a, emits_within (k a) t2) → tr = t1 ++ t2 →
  emits_within (bind m k) tr.
Proof.
  intros Hm Hk -> w. unfold bind.
  destruct (Hm w) as (p1 & Hp1 & Hc1 & Hok1 & Hs1).
  destruct (m w) as [[a|e] w1]; simpl in *.
  - rewrite (Hok1 eq_refl) in *.
    destruct (Hk a w1) as (p2 & Hp2 & Hc2 & Hok2 & Hs2).
    exists (t1 ++ p2). split; [by apply prefix_app|].
    split; [by rewrite Hc2, Hc1, app_assoc|]. split.
    + intros Hok. by rewrite (Hok2 Hok).
    + intros Hnil. apply app_eq_nil in Hnil as [-> ->].
      by rewrite (Hs2 eq_refl), (Hs1 eq_refl).
  - exists p1. split; [by apply prefix_app_r|]. done.
Qed.

Lemma emits_within_for_range (body : nat → M L unit) start n :
  (∀ i, emits_within (body i) []) → emits_within (for_range body start n) [].
Proof.
  intros Hb. revert start. induction n as [|n IH]; intros start; simpl.
  - apply emits_within_ret.
  - eapply emits_within_bind; [apply Hb | intros _; apply IH | done].
Qed.

Lemma emits_within_map_M {A B} (f : A → M L B) xs :
  (∀ x, emits_within (f x) []) → emits_within (map_M f xs) [].
Proof.
  intros Hf. induction xs as [|x xs IH]; simpl.
  - apply emits_within_ret.
  - eapply emits_within_bind; [apply Hf | intros y | done].
    eapply emits_within_bind; [apply IH | intros ys; apply emits_within_ret | done].
Qed.
End EmitsWithin.

Ltac emits_within_tac :=
  lazymatch goal with
  | |- emits_within (bind _ _) _ =>
      eapply emits_within_bind;
        [emits_within_tac | intros ?; emits_within_tac | reflexivity]
  | |- emits_within (ret _) _ => apply emits_within_ret
  | |- emits_within (alloc _) _ => apply emits_within_alloc
  | |- emits_within (load _) _ => apply emits_within_load
  | |- emits_within (store _ _) _ => apply emits_within_store
  | |- emits_within (invoke _ _) _ => apply emits_within_invoke
  | |- emits_within (lift _) _ => apply emits_within_lift
  | |- emits_within (lift_lib _) _ => apply emits_within_lift_lib
  | |- emits_within (lift_np _) _ => apply emits_within_lift_np
  | |- emits_within (throw _) _ => apply emits_within_throw
  | |- emits_within (map_M _ _) _ => apply emits_within_map_M; intros ?; emits_within_tac
  | |- emits_within (for_range _ _ _) _ =>
      apply emits_within_for_range; intros ?; emits_within_tac
  | |- emits_within (match ?x with _ => _ end) _ => destruct x; emits_within_tac
  end.

Lemma emits_within_exec {L : Library} (op : operation) :
  emits_within (L := L) (exec op) (algorithms_of op).
Proof. destruct op; unfold_operations; simpl algorithms_of; emits_within_tac. Qed.

(** X11: whether it returns or raises, an operation has invoked the library
    algorithms listed for it in their order up to some point, and all of
    them when it returns: it invokes no other algorithm and none twice,
    also on the way to an exception; and as long as it has invoked none,
    the state of the libraries is what it was. *)
Theorem operations_invoke_in_order {L : Library} (op : operation) (w : world L) :
  ∃ tr,
    tr `prefix_of` algorithms_of op ∧
    calls (exec op w).2 = calls w ++ tr ∧
    (is_ok (exec op w).1 = true → tr = algorithms_of op) ∧
    (tr = [] → lib_state (exec op w).2 = lib_state w).
Proof. apply emits_within_exec. Qed.


(** ** The operations backed by vedo *)

Section Vedo.
Context {L : Library}.

Lemma seq_getitem_vertices_faces (w : world L) s v f :
  vertices_faces (heap w) s = Some (v, f) →
  seq_getitem s 0 w = (Ok v, w) ∧ seq_getitem s 1 w = (Ok f, w).
Proof.
  intros Hvf. rewrite !seq_getitem_run. unfold vertices_faces in Hvf.
  destruct (heap w !! s) as [[?|?|[|v' [|f' rest]]|[|v' [|f' rest]]]|]; try done;
    by injection Hvf as -> ->.
Qed.

Lemma deref_run (v : pyval) (w : world L) : ∃ r, deref v w = (r, w).
Proof.
  destruct v as [l|n]; [|by eexists]. simpl. unfold load.
  destruct (heap w !! l); by eexists.
Qed.

Lemma lift_lib_run {A} (r : exn_kind + A) (w : world L) :
  lift_lib r w = (match r with inr a => Ok a | inl k => Raise (Exn Wrapped k) end, w).
Proof. by destruct r. Qed.

Lemma lift_np_run {A} (r : exn_kind + A) (w : world L) :
  lift_np r w = (match r with inr a => Ok a | inl k => Raise (Exn Interp k) end, w).
Proof. by destruct r. Qed.

Lemma load_run (l : loc) (w : world L) :
  load l w =
    (match heap w !! l with Some o => Ok o | None => Raise (Exn Interp RuntimeError) end, w).
Proof. unfold load. by destruct (heap w !! l). Qed.

Lemma zeros_like_template (w : world L) li li' t :
  template_at (heap w) li = Some t →
  template_at (heap w) li' = Some t →
  zeros_like li' w = zeros_like li w.
Proof.
  unfold template_at, zeros_like. intros Hli Hli'.
  rewrite !(bind_run _ _ _ _ _ (load_run _ w)).
  destruct (heap w !! li) as [[a|a| |]|]; try done;
    destruct (heap w !! li') as [[a'|a'| |]|]; try done;
    simplify_eq; simpl; congruence.
Qed.

Lemma fill_holes_same (w : world L) s s' v f z :
  vertices_faces (heap w) s = Some (v, f) →
  vertices_faces (heap w) s' = Some (v, f) →
  fill_holes s' z w = fill_holes s z w.
Proof.
  intros Hvf Hvf'.
  destruct (seq_getitem_vertices_faces w s v f Hvf) as [H0 H1].
  destruct (seq_getitem_vertices_faces w s' v f Hvf') as [H0' H1'].
  unfold fill_holes.
  rewrite (bind_run _ _ _ _ _ H0), (bind_run _ _ _ _ _ H0').
  by rewrite (bind_run _ _ _ _ _ H1), (bind_run _ _ _ _ _ H1').
Qed.

Lemma surface_to_binary_volume_same (w : world L) s s' li li' v f t :
  vertices_faces (heap w) s = Some (v, f) →
  vertices_faces (heap w) s' = Some (v, f) →
  template_at (heap w) li = Some t →
  template_at (heap w) li' = Some t →
  surface_to_binary_volume s' li' w = surface_to_binary_volume s li w.
Proof.
  intros Hvf Hvf' Hli Hli'.
  destruct (seq_getitem_vertices_faces w s v f Hvf) as [H0 H1].
  destruct (seq_getitem_vertices_faces w s' v f Hvf') as [H0' H1'].
  unfold surface_to_binary_volume.
  rewrite (bind_run _ _ _ _ _ H0), (bind_run _ _ _ _ _ H0').
  rewrite (bind_run _ _ _ _ _ H1), (bind_run _ _ _ _ _ H1').
  destruct (deref_run v w) as [r0 Hr0]. rewrite !(bind_run _ _ _ _ _ Hr0).
  destruct r0 as [o0|]; [|done].
  destruct (deref_run f w) as [r1 Hr1]. rewrite !(bind_run _ _ _ _ _ Hr1).
  destruct r1 as [o1|]; [|done].
  rewrite !(bind_run _ _ _ _ _ (lift_lib_run _ w)).
  destruct (vedo_Mesh L o0 o1) as [|my_mesh]; [done|].
  rewrite !(bind_run _ _ _ _ _ (lift_np_run _ w)).
  destruct (np_min_axis0_int L (vedo_points L my_mesh)) as [|boundaries_l]; [done|].
  rewrite !(bind_run _ _ _ _ _ (lift_np_run _ w)).
  destruct (np_max_axis0_int L (vedo_points L my_mesh)) as [|boundaries_r]; [done|].
  destruct (zeros_like li w) as [rz wz] eqn:Hz.
  assert (zeros_like li' w = (rz, wz)) as Hz'
    by (by rewrite (zeros_like_template w li li' t Hli Hli')).
  by rewrite (bind_run _ _ _ _ _ Hz), (bind_run _ _ _ _ _ Hz').
Qed.

Lemma fill_holes_result (w w' : world L) s z l :
  fill_holes s z w = (Ok l, w') →
  heap w !! l = None ∧
  ∃ pts fo, surface_at (heap w') l = Some (ArrF pts, fo, None).
Proof.
  intros Hrun. unfold fill_holes in Hrun.
  apply bind_ok in Hrun as (s0 & w0 & Hs0 & Hrun).
  apply seq_getitem_ok in Hs0 as [_ ->].
  apply bind_ok in Hrun as (s1 & w0 & Hs1 & Hrun).
  apply seq_getitem_ok in Hs1 as [_ ->].
  apply bind_ok in Hrun as (o0 & w0 & Ho0 & Hrun).
  destruct (deref_run s0 w) as [r0 Hr0]. rewrite Hr0 in Ho0. injection Ho0 as -> <-.
  apply bind_ok in Hrun as (o1 & w0 & Ho1 & Hrun).
  destruct (deref_run s1 w) as [r1 Hr1]. rewrite Hr1 in Ho1. injection Ho1 as -> <-.
  apply bind_ok in Hrun as (mesh & w0 & Hmesh & Hrun).
  apply lift_lib_ok in Hmesh as [Hmesh ->].
  apply bind_ok in Hrun as (mesh' & w1 & Hfill & Hrun).
  apply invoke_ok in Hfill as (st' & Hfill & ->).
  apply bind_ok in Hrun as (lp & w2 & Hlp & Hrun).
  apply alloc_ok in Hlp as [Hlp ->].
  apply bind_ok in Hrun as (fo & w3 & Hfo & Hrun).
  apply lift_ok in Hfo as [Hfo ->].
  apply bind_ok in Hrun as (lfo & w4 & Hlfo & Hrun).
  apply alloc_ok in Hlfo as [Hlfo ->].
  apply alloc_ok in Hrun as [Hl ->].
  simpl in *.
  repeat match goal with
         | H : <[_ := _]> _ !! _ = None |- _ => apply lookup_insert_None in H as [H ?]
         end.
  split; [done|]. exists (vedo_points L mesh'), fo.
  unfold surface_at. by simplify_map_eq.
Qed.
End Vedo.

(** X13: [fill_holes] reads of its surface the vertices and the faces only,
    so that two surfaces with the same vertex and face arrays give the same
    outcome whatever values they carry; and the surface it returns is a new
    tuple of two arrays, vertices and faces, without the values. *)
Theorem fill_holes_drops_values {L : Library} (w : world L) (s s' : loc)
    (v f : pyval) (size_limit : number) :
  vertices_faces (heap w) s = Some (v, f) →
  vertices_faces (heap w) s' = Some (v, f) →
  fill_holes s' size_limit w = fill_holes s size_limit w ∧
  ∀ l w', fill_holes s size_limit w = (Ok l, w') →
    heap w !! l = None ∧
    ∃ pts fo, surface_at (heap w') l = Some (ArrF pts, fo, None).
Proof.
  intros Hvf Hvf'. split; [by eapply fill_holes_same|].
  intros l w' Hrun. by eapply fill_holes_result.
Qed.

(** The triangle of the second store with values, at 15, and without, at
    13. *)
Lemma fill_holes_drops_values_witness :
  fill_holes 15 (PyInt 100) Scene.w = fill_holes 13 (PyInt 100) Scene.w ∧
  ∃ l w' pts fo,
    fill_holes 13 (PyInt 100) Scene.w = (Ok l, w') ∧
    surface_at (heap w') l = Some (ArrF pts, fo, None).
Proof.
  destruct (fill_holes_drops_values Scene.w 13 15 (VRef 12) (VRef 10) (PyInt 100)
              eq_refl eq_refl) as [Hsame Hresult].
  split; [exact Hsame|].
  assert (∃ l w', fill_holes 13 (PyInt 100) Scene.w = (Ok l, w')) as (l & w' & Hrun).
  { assert (is_ok (fill_holes 13 (PyInt 100) Scene.w).1 = true) as Hok
      by (vm_compute; reflexivity).
    destruct (fill_holes 13 (PyInt 100) Scene.w) as [[l|e] w'];
      [by eexists _, _ | discriminate Hok]. }
  destruct (Hresult l w' Hrun) as (_ & pts & fo & Hs).
  by exists l, w', pts, fo.
Defined.

(** X14: [surface_to_binary_volume] reads of its surface the vertices and
    the faces, and of the reference image the element type and the shape:
    two surfaces with the same vertex and face arrays, on two images of the
    same element type and shape, give the same outcome, whatever values the
    surfaces carry and whatever the images hold. *)
Theorem surface_to_binary_volume_reads {L : Library} (w : world L) (s s' li li' : loc)
    (v f : pyval) (t : bool * list nat) :
  vertices_faces (heap w) s = Some (v, f) →
  vertices_faces (heap w) s' = Some (v, f) →
  template_at (heap w) li = Some t →
  template_at (heap w) li' = Some t →
  surface_to_binary_volume s' li' w = surface_to_binary_volume s li w.
Proof. apply surface_to_binary_volume_same. Qed.

(** The triangle of the second store with and without values, on the label
    images at 0 and 1, which have the same shape. *)
Lemma surface_to_binary_volume_reads_witness :
  surface_to_binary_volume 15 1 Scene.w = surface_to_binary_volume 13 0 Scene.w.
Proof.
  apply (surface_to_binary_volume_reads Scene.w 13 15 0 1 (VRef 12) (VRef 10) (true, [2; 3]));
    reflexivity.
Defined.


(** ** Example data *)

Section ExampleSurfaces.
Context {L : Library}.

Lemma call_run {X} (f : lib (LibState L) X) (w : world L) x st' :
  f (lib_state w) = (inr x, st') →
  call f w = (Ok x, World (heap w) st' (calls w)).
Proof. intros Hf. unfold call. by rewrite Hf. Qed.

(** Scaling a surface whose vertices are an array of floats. *)
Lemma isotropic_scale_surface_run (w : world L) (s lv : loc) (rest : list pyval)
    (v : ndarray float) (scale_factor : number) (k : float) :
  heap w !! s = Some (PyTuple (VRef lv :: rest)) ∨
    heap w !! s = Some (PyList (VRef lv :: rest)) →
  heap w !! lv = Some (ArrF v) →
  num_to_float scale_factor = Ok k →
  ∃ l lv' w',
    isotropic_scale_surface s scale_factor w = (Ok l, w') ∧
    heap w !! l = None ∧
    heap w' !! l = Some (PyTuple (VRef lv' :: rest)) ∧
    heap w' !! lv' =
      Some (ArrF (NDArray (shape v) ((λ x, Float64.mul x k) <$> data v))) ∧
    (∀ l0 o, heap w !! l0 = Some o → heap w' !! l0 = Some o) ∧
    lib_state w' = lib_state w ∧ calls w' = calls w.
Proof.
  intros Hs Hv Hk.
  set (scaled := ArrF (NDArray (shape v) ((λ x, Float64.mul x k) <$> data v))).
  destruct (alloc_spec (PyList (VRef lv :: rest)) w) as (l1 & w1 & R1 & N1 & H1 & S1 & C1).
  destruct (alloc_spec scaled w1) as (l2 & w2 & R2 & N2 & H2 & S2 & C2).
  set (w3 := set_heap w2 (<[l1 := PyList (VRef l2 :: rest)]> (heap w2))).
  destruct (alloc_spec (PyTuple (VRef l2 :: rest)) w3) as (l3 & w4 & R4 & N4 & H4 & S4 & C4).
  assert (l1 ≠ lv) by congruence.
  assert (items_of s w = (Ok (VRef lv :: rest), w)) as Ritems.
  { cbv [items_of bind load ret]. by destruct Hs as [-> | ->]. }
  assert (heap w1 !! l1 = Some (PyList (VRef lv :: rest))) as Hl1
    by (rewrite H1; apply lookup_insert_eq).
  assert (seq_getitem l1 0 w1 = (Ok (VRef lv), w1)) as Rget
    by (by rewrite seq_getitem_run, Hl1).
  assert (py_mul (VRef lv) scale_factor w1 = (Ok (VRef l2), w2)) as Rmul.
  { cbv [py_mul bind load lift]. rewrite H1, lookup_insert_ne, Hv, Hk by done.
    fold scaled. by rewrite R2. }
  assert (heap w2 !! l1 = Some (PyList (VRef lv :: rest))) as Hl1'.
  { rewrite H2, lookup_insert_ne; [done|]. intros <-. congruence. }
  assert (seq_setitem l1 0 (VRef l2) w2 = (Ok tt, w3)) as Rset.
  { cbv [seq_setitem bind load store]. rewrite Hl1'. simpl. by rewrite Hl1'. }
  assert (heap w3 !! l1 = Some (PyList (VRef l2 :: rest))) as Hl1''
    by (simpl; apply lookup_insert_eq).
  assert (items_of l1 w3 = (Ok (VRef l2 :: rest), w3)) as Ritems'.
  { cbv [items_of bind load ret]. by rewrite Hl1''. }
  assert (isotropic_scale_surface s scale_factor w = (Ok l3, w4)) as Hrun.
  { unfold isotropic_scale_surface.
    rewrite (bind_run _ _ _ _ _ Ritems), (bind_run _ _ _ _ _ R1).
    rewrite (bind_run _ _ _ _ _ Rget), (bind_run _ _ _ _ _ Rmul).
    by rewrite (bind_run _ _ _ _ _ Rset), (bind_run _ _ _ _ _ Ritems'). }
  assert (heap w4 = <[l3 := PyTuple (VRef l2 :: rest)]>
                      (<[l1 := PyList (VRef l2 :: rest)]>
                         (<[l2 := scaled]> (<[l1 := PyList (VRef lv :: rest)]> (heap w)))))
    as Hh by (rewrite H4; simpl; by rewrite H2, H1).
  simpl in N4. rewrite H2, H1 in N4. rewrite H1 in N2.
  repeat match goal with
         | H : <[_ := _]> _ !! _ = None |- _ => apply lookup_insert_None in H as [H ?]
         end.
  exists l3, l2, w4.
  split; [done|]. split; [done|].
  split; [rewrite Hh; by simplify_map_eq|].
  split; [rewrite Hh; by simplify_map_eq|]. split.
  - intros l0 o Hl0. rewrite Hh. rewrite !lookup_insert_ne by congruence. done.
  - simpl in S4, C4. split; congruence.
Qed.

(** A surface made of a library mesh and scaled. *)
Lemma scaled_surface_of_mesh (mesh : TriangleMesh) (scale_factor : number) (k : float)
    (w : world L) :
  num_to_float scale_factor = Ok k →
  ∃ l w',
    bind (to_surface mesh) (λ s, isotropic_scale_surface s scale_factor) w = (Ok l, w') ∧
    heap w !! l = None ∧
    surface_at (heap w') l =
      Some (ArrF (NDArray [length (mesh_vertices mesh); 3]
                    ((λ x, Float64.mul x k) <$> flatten3 (mesh_vertices mesh))),
            ArrI (array_of_vectors (mesh_triangles mesh)),
            Some (ArrF (np_ones (length (mesh_vertices mesh))))) ∧
    (∀ l0 o, heap w !! l0 = Some o → heap w' !! l0 = Some o) ∧
    lib_state w' = lib_state w ∧ calls w' = calls w.
Proof.
  intros Hk.
  destruct (to_surface_spec mesh w) as (s & w1 & Hrun & Hfresh & Hs & Hframe & Hst & Hcalls).
  pose proof Hs as Hs'.
  apply surface_at_inv in Hs' as (lv & lf & rest & Htuple & Hv & Hf).
  destruct (isotropic_scale_surface_run w1 s lv (VRef lf :: rest) _ scale_factor k
              Htuple Hv Hk)
    as (l & lv' & w' & Hrun' & Hfresh' & Hl & Hlv' & Hframe' & Hst' & Hcalls').
  exists l, w'. split; [by rewrite (bind_run _ _ _ _ _ Hrun)|]. split.
  { destruct (heap w !! l) as [o|] eqn:Hwl; [|done].
    apply Hframe in Hwl. congruence. }
  split; [|split; [|split; congruence]].
  - unfold surface_at in Hs |- *. rewrite Hl, Hlv', (Hframe' _ _ Hf). simpl.
    assert (heap w1 !! s = Some (PyTuple (VRef lv :: VRef lf :: rest)) ∨
            heap w1 !! s = Some (PyList (VRef lv :: VRef lf :: rest))) as Htuple' by done.
    assert (match rest with VRef lx :: _ => heap w1 !! lx | _ => None end =
            Some (ArrF (np_ones (length (mesh_vertices mesh))))) as Hvalues.
    { destruct Htuple' as [Hq|Hq]; rewrite Hq, Hv, Hf in Hs; by injection Hs. }
    destruct rest as [|[lx|] rest']; try done.
    by rewrite (Hframe' _ _ Hvalues).
  - intros l0 o Hl0. by apply Hframe', Hframe.
Qed.
End ExampleSurfaces.

(** X15: the example surfaces [_knot_mesh] and [_standford_bunny] are the
    meshes read from the files [knot.ply] and [bun_zipper.ply] of the
    package, scaled by 0.1 and by 100.  Whenever the file is read, the call
    returns a new surface of the vertices of the mesh, each coordinate
    multiplied by the factor, of its triangles, and of one value 1.0 for
    each vertex; no library algorithm is invoked. *)
Theorem example_meshes_are_scaled_files {L : Library}
    (read_triangle_mesh : string → lib (LibState L) TriangleMesh)
    (data_path : string → string) (w : world L) :
  (∀ mesh st',
     read_triangle_mesh (data_path "knot.ply") (lib_state w) = (inr mesh, st') →
     ∃ l w',
       _knot_mesh read_triangle_mesh data_path w = (Ok l, w') ∧
       heap w !! l = None ∧
       surface_at (heap w') l =
         Some (ArrF (NDArray [length (mesh_vertices mesh); 3]
                       ((λ x, Float64.mul x tenth) <$> flatten3 (mesh_vertices mesh))),
               ArrI (array_of_vectors (mesh_triangles mesh)),
               Some (ArrF (np_ones (length (mesh_vertices mesh))))) ∧
       (∀ l0 o, heap w !! l0 = Some o → heap w' !! l0 = Some o) ∧
       lib_state w' = st' ∧ calls w' = calls w) ∧
  (∀ mesh st',
     read_triangle_mesh (data_path "bun_zipper.ply") (lib_state w) = (inr mesh, st') →
     ∃ l w',
       _standford_bunny read_triangle_mesh data_path w = (Ok l, w') ∧
       heap w !! l = None ∧
       surface_at (heap w') l =
         Some (ArrF (NDArray [length (mesh_vertices mesh); 3]
                       ((λ x, Float64.mul x (Float64.of_Z 100)) <$>
                          flatten3 (mesh_vertices mesh))),
               ArrI (array_of_vectors (mesh_triangles mesh)),
               Some (ArrF (np_ones (length (mesh_vertices mesh))))) ∧
       (∀ l0 o, heap w !! l0 = Some o → heap w' !! l0 = Some o) ∧
       lib_state w' = st' ∧ calls w' = calls w).
Proof.
  split; intros mesh st' Hread.
  - unfold _knot_mesh. cbv zeta. rewrite (bind_run _ _ _ _ _ (call_run _ w mesh st' Hread)).
    apply (scaled_surface_of_mesh mesh (PyFloat tenth) tenth (World (heap w) st' (calls w))).
    reflexivity.
  - unfold _standford_bunny. cbv zeta.
    rewrite (bind_run _ _ _ _ _ (call_run _ w mesh st' Hread)).
    apply (scaled_surface_of_mesh mesh (PyInt 100) (Float64.of_Z 100)
             (World (heap w) st' (calls w))).
    reflexivity.
Qed.

(** With a reader for which every file holds the triangle (0, 0, 0),
    (1, 0, 0), (0, 2, 0), the bunny is the triangle (0, 0, 0), (100, 0, 0),
    (0, 200, 0). *)
Lemma example_meshes_are_scaled_files_witness :
  ∃ l w',
    _standford_bunny (L := Scene.library) Scene.read_triangle_mesh Scene.data_path Scene.w =
      (Ok l, w') ∧
    surface_at (heap w') l =
      Some (ArrF (NDArray [3; 3]
                    [Demo.fl 0; Demo.fl 0; Demo.fl 0; Demo.fl 100; Demo.fl 0; Demo.fl 0;
                     Demo.fl 0; Demo.fl 200; Demo.fl 0]),
            ArrI (NDArray [1; 3] [0; 1; 2]%Z),
            Some (ArrF (np_ones 3))).
Proof.
  destruct (example_meshes_are_scaled_files (L := Scene.library) Scene.read_triangle_mesh
              Scene.data_path Scene.w) as [_ Hbunny].
  destruct (Hbunny Scene.triangle 0 eq_refl) as (l & w' & Hrun & _ & Hs & _).
  exists l, w'. split; [exact Hrun|]. rewrite Hs. vm_compute. reflexivity.
Defined.

(** X16: the example surface [_vedo_ellipsoid] is the stock ellipsoid of
    vedo scaled by 10.  Whenever vedo builds the shape and its faces have
    one length, the call returns a new surface of the points of the shape,
    each coordinate multiplied by 10.0, and of its faces, without values;
    when [np.asarray] refuses the faces, its error is the outcome. *)
Theorem example_ellipsoid_is_scaled_shape {L : Library}
    (Ellipsoid : lib (LibState L) (VedoMesh L)) (w : world L)
    (ellipsoid : VedoMesh L) (st' : LibState L) :
  Ellipsoid (lib_state w) = (inr ellipsoid, st') →
  match asarray_rows (vedo_faces L ellipsoid) with
  | Ok fo =>
      ∃ l w',
        _vedo_ellipsoid Ellipsoid w = (Ok l, w') ∧
        heap w !! l = None ∧
        surface_at (heap w') l =
          Some (ArrF (NDArray (shape (vedo_points L ellipsoid))
                        ((λ x, Float64.mul x (Float64.of_Z 10)) <$>
                           data (vedo_points L ellipsoid))),
                fo, None) ∧
        (∀ l0 o, heap w !! l0 = Some o → heap w' !! l0 = Some o) ∧
        lib_state w' = st' ∧ calls w' = calls w
  | Raise e => (_vedo_ellipsoid Ellipsoid w).1 = Raise e
  end.
Proof.
  intros Hshape. unfold _vedo_ellipsoid.
  rewrite (bind_run _ _ _ _ _ (call_run _ w ellipsoid st' Hshape)).
  set (w0 := World (heap w) st' (calls w)).
  destruct (alloc_spec (ArrF (vedo_points L ellipsoid)) w0) as (lp & w1 & R1 & N1 & H1 & S1 & C1).
  rewrite (bind_run _ _ _ _ _ R1).
  unfold bind at 1. unfold lift at 1.
  destruct (asarray_rows (vedo_faces L ellipsoid)) as [fo|e] eqn:Hfo.
  - destruct (alloc_spec fo w1) as (lf & w2 & R2 & N2 & H2 & S2 & C2).
    rewrite (bind_run _ _ _ _ _ R2).
    destruct (alloc_spec (PyTuple [VRef lp; VRef lf]) w2) as (s & w3 & R3 & N3 & H3 & S3 & C3).
    rewrite (bind_run _ _ _ _ _ R3).
    rewrite H2, H1 in N3. rewrite H1 in N2.
    repeat match goal with
           | H : <[_ := _]> _ !! _ = None |- _ => apply lookup_insert_None in H as [H ?]
           end.
    destruct (isotropic_scale_surface_run w3 s lp [VRef lf] (vedo_points L ellipsoid) (PyInt 10)
                (Float64.of_Z 10))
      as (l & lv' & w' & Hrun & Hfresh & Hl & Hlv' & Hframe & Hst & Hcalls).
    { left. rewrite H3. apply lookup_insert_eq. }
    { rewrite H3, H2, H1. by simplify_map_eq. }
    { reflexivity. }
    assert (∀ l0 o, heap w !! l0 = Some o → heap w3 !! l0 = Some o) as Hframe0.
    { intros l0 o Hl0. rewrite H3, H2, H1. simpl.
      rewrite !lookup_insert_ne by (simpl in *; congruence). done. }
    exists l, w'. split; [done|]. split.
    { destruct (heap w !! l) as [o|] eqn:Hwl; [|done].
      apply Hframe0 in Hwl. congruence. }
    split; [|split; [|split]].
    + unfold surface_at. rewrite Hl, Hlv'.
      assert (heap w3 !! lf = Some fo) as Hlf by (rewrite H3, H2; by simplify_map_eq).
      by rewrite (Hframe _ _ Hlf).
    + intros l0 o Hl0. by apply Hframe, Hframe0.
    + rewrite Hst, S3, S2, S1. done.
    + rewrite Hcalls, C3, C2, C1. done.
  - done.
Qed.

(** With a stock shape that is one triangle, the ellipsoid is the triangle
    (0, 0, 0), (10, 0, 0), (0, 20, 0). *)
Lemma example_ellipsoid_is_scaled_shape_witness :
  ∃ l w',
    _vedo_ellipsoid (L := Scene.library) Scene.Ellipsoid Scene.w = (Ok l, w') ∧
    surface_at (heap w') l =
      Some (ArrF (NDArray [3; 3]
                    [Demo.fl 0; Demo.fl 0; Demo.fl 0; Demo.fl 10; Demo.fl 0; Demo.fl 0;
                     Demo.fl 0; Demo.fl 20; Demo.fl 0]),
            ArrI (NDArray [1; 3] [0; 1; 2]%Z), None).
Proof.
  pose proof (example_ellipsoid_is_scaled_shape (L := Scene.library) Scene.Ellipsoid Scene.w
                (Demo.triangle_vertices, [[0; 1; 2]%Z]) 0 eq_refl) as Hshape.
  simpl in Hshape. destruct Hshape as (l & w' & Hrun & _ & Hs & _).
  exists l, w'. split; [exact Hrun|]. rewrite Hs. vm_compute. reflexivity.
Defined.


(** ** Determinism *)

Section Deterministic.
Context {L : Library}.

Lemma deterministic_quiet {A} (m : M L A) (f : gmap loc pyobj → result A * gmap loc pyobj) :
  (∀ w, outcome (m w) = f (heap w)) → deterministic m.
Proof. intros Hm w1 w2 Hh. by rewrite !Hm, Hh. Qed.

Lemma deterministic_ret {A} (a : A) : deterministic (L := L) (ret a).
Proof. by apply (deterministic_quiet _ (λ h, (Ok a, h))). Qed.

Lemma deterministic_throw {A} (e : exn) : deterministic (L := L) (@throw L A e).
Proof. by apply (deterministic_quiet _ (λ h, (Raise e, h))). Qed.

Lemma deterministic_lift {A} (r : result A) : deterministic (L := L) (lift r).
Proof. by apply (deterministic_quiet _ (λ h, (r, h))). Qed.

Lemma deterministic_lift_lib {A} (r : exn_kind + A) : deterministic (L := L) (lift_lib r).
Proof. destruct r; [apply deterministic_throw | apply deterministic_ret]. Qed.

Lemma deterministic_lift_np {A} (r : exn_kind + A) : deterministic (L := L) (lift_np r).
Proof. destruct r; [apply deterministic_throw | apply deterministic_ret]. Qed.

Lemma deterministic_alloc o : deterministic (L := L) (alloc o).
Proof.
  by apply (deterministic_quiet _ (λ h, (Ok (fresh (dom h)), <[fresh (dom h) := o]> h))).
Qed.

Lemma deterministic_load l : deterministic (L := L) (load l).
Proof.
  apply (deterministic_quiet _
           (λ h, (match h !! l with
                  | Some o => Ok o
                  | None => Raise (Exn Interp RuntimeError)
                  end, h))).
  intros w. unfold load. by destruct (heap w !! l).
Qed.

Lemma deterministic_store l o : deterministic (L := L) (store l o).
Proof.
  apply (deterministic_quiet _
           (λ h, match h !! l with
                 | Some _ => (Ok tt, <[l := o]> h)
                 | None => (Raise (Exn Interp RuntimeError), h)
                 end)).
  intros w. unfold store. by destruct (heap w !! l).
Qed.

Lemma deterministic_invoke {X} a (f : lib (LibState L) X) :
  state_blind f → deterministic (invoke a f).
Proof.
  intros Hf w1 w2 Hh. unfold outcome, invoke.
  specialize (Hf (lib_state w1) (lib_state w2)).
  destruct (f (lib_state w1)) as [r1 s1], (f (lib_state w2)) as [r2 s2].
  simpl in Hf. subst r2. destruct r1; simpl; by rewrite Hh.
Qed.

Lemma deterministic_bind {A B} (m : M L A) (k : A → M L B) :
  deterministic m → (∀ a, deterministic (k a)) → deterministic (bind m k).
Proof.
  intros Hm Hk w1 w2 Hh. specialize (Hm w1 w2 Hh). unfold outcome, bind in *.
  destruct (m w1) as [r1 w1'], (m w2) as [r2 w2']. simpl in Hm.
  injection Hm as -> Hh'. destruct r2 as [a|e].
  - apply (Hk a w1' w2' Hh').
  - simpl. by rewrite Hh'.
Qed.

Lemma deterministic_for_range (body : nat → M L unit) start n :
  (∀ i, deterministic (body i)) → deterministic (for_range body start n).
Proof.
  intros Hb. revert start. induction n as [|n IH]; intros start; simpl.
  - apply deterministic_ret.
  - apply deterministic_bind; [apply Hb | intros _; apply IH].
Qed.

Lemma deterministic_map_M {A B} (f : A → M L B) xs :
  (∀ x, deterministic (f x)) → deterministic (map_M f xs).
Proof.
  intros Hf. induction xs as [|x xs IH]; simpl.
  - apply deterministic_ret.
  - apply deterministic_bind; [apply Hf | intros y].
    apply deterministic_bind; [apply IH | intros ys; apply deterministic_ret].
Qed.
End Deterministic.

(** An invocation is discharged by what is assumed of the algorithms of the
    operation. *)
Ltac deterministic_tac :=
  lazymatch goal with
  | |- deterministic (bind _ _) =>
      apply deterministic_bind; [deterministic_tac | intros ?; deterministic_tac]
  | |- deterministic (ret _) => apply deterministic_ret
  | |- deterministic (alloc _) => apply deterministic_alloc
  | |- deterministic (load _) => apply deterministic_load
  | |- deterministic (store _ _) => apply deterministic_store
  | |- deterministic (invoke ?a _) =>
      apply deterministic_invoke;
      lazymatch goal with
      | H : ∀ a', a' ∈ _ → blind _ a' |- _ =>
          let Hb := fresh in
          assert (Hb := H a ltac:(repeat constructor)); simpl in Hb; apply Hb
      end
  | |- deterministic (lift _) => apply deterministic_lift
  | |- deterministic (lift_lib _) => apply deterministic_lift_lib
  | |- deterministic (lift_np _) => apply deterministic_lift_np
  | |- deterministic (throw _) => apply deterministic_throw
  | |- deterministic (map_M _ _) => apply deterministic_map_M; intros ?; deterministic_tac
  | |- deterministic (for_range _ _ _) =>
      apply deterministic_for_range; intros ?; deterministic_tac
  | |- deterministic (match ?x with _ => _ end) => destruct x; deterministic_tac
  end.

Lemma deterministic_exec {L : Library} (op : operation) :
  (∀ a, a ∈ algorithms_of op → blind L a) → deterministic (exec (L := L) op).
Proof.
  intros Hblind. destruct op; simpl algorithms_of in Hblind; unfold_operations;
    deterministic_tac.
Qed.

(** C6, as amended: an operation is a deterministic function of its inputs
    as far as the library algorithms it invokes are.  Two calls on equal
    stores (equal inputs and parameters) have the same outcome, result or
    exception and store, whatever state the libraries are in, provided each
    algorithm listed for the operation returns the same for the same
    arguments in every state of its library; [points_to_labels] and
    [isotropic_scale_surface], which invoke none, are deterministic
    outright.  Nothing of the kind holds of [sample_points_uniformly] and
    [sample_points_poisson_disk] by themselves: their points are those the
    library's sampler draws. *)
Theorem operations_are_as_deterministic_as_their_algorithms {L : Library} (op : operation) :
  ((∀ a, a ∈ algorithms_of op → blind L a) → deterministic (exec (L := L) op)) ∧
  match op with
  | Points_to_labels _ _ | Isotropic_scale_surface _ _ => deterministic (exec (L := L) op)
  | _ => True
  end.
Proof.
  split; [apply deterministic_exec|].
  destruct op; try done; apply deterministic_exec; intros a Ha; by apply elem_of_nil in Ha.
Qed.

(** The convex hull of the surface at 8 of the first store, whose library
    returns the same hull in every state, with the library in the states 0
    and 7. *)
Lemma operations_are_as_deterministic_as_their_algorithms_witness :
  outcome (exec (Convex_hull 8) Demo.w) =
    outcome (exec (Convex_hull 8) (World Demo.store (7 : LibState Demo.library) [])).
Proof.
  destruct (operations_are_as_deterministic_as_their_algorithms (L := Demo.library)
              (Convex_hull 8)) as [Hdet _].
  apply Hdet; [|reflexivity].
  intros a Ha. apply list_elem_of_singleton in Ha as ->. by intros m s1 s2.
Defined.

(** With a library whose sampler draws from its state, two calls of
    [sample_points_uniformly], and two of [sample_points_poisson_disk], with
    the same surface and the same parameters on the same store return
    different points: the vertices of the triangle in two orders. *)
Lemma samplers_are_not_deterministic :
  ¬ deterministic (exec (L := Dice.library) (Sample_points_uniformly 8 500)) ∧
  ¬ deterministic (exec (L := Dice.library)
                     (Sample_points_poisson_disk 8 500 (PyInt 5))).
Proof.
  split; intros Hdet; specialize (Hdet (Dice.w 0) (Dice.w 1) eq_refl);
    apply (f_equal (λ o, o.2 !! 13)) in Hdet; vm_compute in Hdet; discriminate Hdet.
Qed.

(** ** Scaling integer coordinates *)

(** The vertices (2^62, 2^53 + 1, 3), an array of integers, scaled by 4 are
    (0, 2^55 + 4, 12), the products wrapped to 64 bits; scaled by 1.0 they
    are the floats (2^62, 2^53, 3), where the second has lost its last
    bit: neither call returns the factor times the coordinates. *)
Lemma integer_vertices_wrap_and_round :
  Grid.store !! 2 = Some (PyTuple [VRef 0; VRef 1]) ∧
  Grid.store !! 0 =
    Some (ArrI (NDArray [1; 3] [4611686018427387904; 9007199254740993; 3]%Z)) ∧
  (∃ l lv' w',
     isotropic_scale_surface 2 (PyInt 4) Grid.w = (Ok l, w') ∧
     heap w' !! l = Some (PyTuple [VRef lv'; VRef 1]) ∧
     heap w' !! lv' = Some (ArrI (NDArray [1; 3] [0; 36028797018963972; 12]%Z))) ∧
  (∃ l lv' w',
     isotropic_scale_surface 2 (PyFloat Float64.one) Grid.w = (Ok l, w') ∧
     heap w' !! l = Some (PyTuple [VRef lv'; VRef 1]) ∧
     heap w' !! lv' =
       Some (ArrF (NDArray [1; 3]
                     [Demo.fl 4611686018427387904; Demo.fl 9007199254740992; Demo.fl 3]))).
Proof.
  split; [reflexivity|]. split; [reflexivity|].
  split; eexists _, _, _;
    (split; [vm_compute; reflexivity|]); split; vm_compute; reflexivity.
Qed.
